(** * odrplus: the eval-mode research loop of [src/app/api/chat/route.ts]

    A shallow embedding of the research-loop subsystem of the route
    handler (formatter, analysis parser, URL filter, URL frequency ranker,
    extraction with retry, bounded research loop) together with the
    properties of the natural-language specification that were checked
    against it.

    Conventions of the embedding.
    - A JavaScript string is a [string]; each [ascii] stands for one code
      unit in the range 0..255 (Latin-1).  Code units above 255 are outside
      the model.
    - A JavaScript number that the modelled code reads is an integer ([Z] or
      [nat]); the remaining minutes read by the textual salvage are a
      rational.
    - A [Promise] is modelled by its settlement: [Resolved v] or
      [Rejected e] where [e] is an [Error] carrying its message.
    - External capabilities (web search, extract, scrape, the clock and the
      reasoning model) are scripted: a run is parameterised by the
      responses the capabilities give, so that a statement quantified over
      the script covers every behaviour of the capability. *)

From Stdlib Require Import ZArith QArith Ascii String DecimalString Lia.
From stdpp Require Import base list strings gmap sorting.

Local Open Scope string_scope.
Local Open Scope list_scope.
Local Open Scope Z_scope.
Local Open Scope nat_scope.

(* ================================================================== *)
(** ** JavaScript string primitives *)
(* ================================================================== *)

Module JS.

(** The line feed and the double quote, as code units and as strings. *)
Definition LF : ascii := "010"%char.
Definition DQ : ascii := "034"%char.
Definition nl : string := String LF EmptyString.
Definition dq : string := String DQ EmptyString.

Definition code (c : ascii) : nat := nat_of_ascii c.

Definition in_range (lo hi c : ascii) : bool :=
  (code lo <=? code c) && (code c <=? code hi).

(** WhiteSpace and LineTerminator code units below 256: TAB, LF, VT, FF,
    CR, SP and NBSP.  This is the set stripped by [trim] and matched by
    the class escape [\s]. *)
Definition isWhiteSpace (c : ascii) : bool :=
  ((9 <=? code c) && (code c <=? 13)) || (code c =? 32) || (code c =? 160).

Definition isDigit (c : ascii) : bool := in_range "0" "9" c.

(** [\w] is [[A-Za-z0-9_]]. *)
Definition isWordChar (c : ascii) : bool :=
  in_range "a" "z" c || in_range "A" "Z" c || isDigit c || (code c =? 95).

(** Upper-case letters of Latin-1: A-Z, and U+00C0..U+00DE except the
    multiplication sign U+00D7. *)
Definition isUpper (c : ascii) : bool :=
  in_range "A" "Z" c ||
  ((192 <=? code c) && (code c <=? 222) && negb (code c =? 215)).

Definition isLower (c : ascii) : bool :=
  in_range "a" "z" c ||
  ((224 <=? code c) && (code c <=? 254) && negb (code c =? 247)).

Definition toLowerChar (c : ascii) : ascii :=
  if isUpper c then ascii_of_nat (code c + 32) else c.

Definition toUpperChar (c : ascii) : ascii :=
  if isLower c then ascii_of_nat (code c - 32) else c.

(** [String.prototype.toLowerCase]. *)
Fixpoint toLowerCase (s : string) : string :=
  match s with
  | EmptyString => EmptyString
  | String c s' => String (toLowerChar c) (toLowerCase s')
  end.

(** [s.startsWith(p)]. *)
Fixpoint startsWith (s p : string) : bool :=
  match p, s with
  | EmptyString, _ => true
  | String _ _, EmptyString => false
  | String b p', String a s' => if Ascii.eqb a b then startsWith s' p' else false
  end.

(** [s.endsWith(p)]. *)
Fixpoint endsWith (s p : string) : bool :=
  String.eqb s p ||
  match s with
  | EmptyString => false
  | String _ s' => endsWith s' p
  end.

(** [s.includes(sub)]. *)
Fixpoint includes (s sub : string) : bool :=
  startsWith s sub ||
  match s with
  | EmptyString => false
  | String _ s' => includes s' sub
  end.

(** [s.trimStart()], [s.trimEnd()] and [s.trim()]. *)
Fixpoint trimStart (s : string) : string :=
  match s with
  | EmptyString => EmptyString
  | String c s' => if isWhiteSpace c then trimStart s' else s
  end.

Fixpoint trimEnd (s : string) : string :=
  match s with
  | EmptyString => EmptyString
  | String c s' =>
      match trimEnd s' with
      | EmptyString => if isWhiteSpace c then EmptyString else String c EmptyString
      | r => String c r
      end
  end.

Definition trim (s : string) : string := trimEnd (trimStart s).

(** [s.split(sep)] for a separator of one code unit: the list is never
    empty, and a trailing separator yields a trailing empty string. *)
Fixpoint split (sep : ascii) (s : string) : list string :=
  match s with
  | EmptyString => [EmptyString]
  | String c s' =>
      if Ascii.eqb c sep then EmptyString :: split sep s'
      else match split sep s' with
           | [] => [String c EmptyString]
           | w :: ws => String c w :: ws
           end
  end.

(** [a.join(sep)]. *)
Fixpoint join (sep : string) (l : list string) : string :=
  match l with
  | [] => EmptyString
  | [x] => x
  | x :: xs => x +:+ sep +:+ join sep xs
  end.

(** [s.substring(0, n)], [s.substring(i)] and [s.substring(i, j)] for
    [i <= j]. *)
Fixpoint substring_to (n : nat) (s : string) : string :=
  match n, s with
  | S n', String c s' => String c (substring_to n' s')
  | _, _ => EmptyString
  end.

Fixpoint substring_from (n : nat) (s : string) : string :=
  match n, s with
  | S n', String _ s' => substring_from n' s'
  | _, _ => s
  end.

Definition substring (i j : nat) (s : string) : string :=
  substring_to (j - i) (substring_from i s).

(** Truthiness of a string: [!s] is true exactly for the empty string. *)
Definition nonEmpty (s : string) : bool :=
  match s with EmptyString => false | _ => true end.

(** [a || b] on strings. *)
Definition orElse (a b : string) : string := if nonEmpty a then a else b.

(** [startsClean s]: [s] starts with a code unit that is not white space. *)
Definition startsClean (s : string) : Prop :=
  exists c r, s = String c r /\ isWhiteSpace c = false.

(** [endsClean s]: [s] is not empty and [trimEnd] leaves it unchanged. *)
Definition endsClean (s : string) : Prop := s <> EmptyString /\ trimEnd s = s.

End JS.

(* ================================================================== *)
(** ** Regular expressions

    A backtracking matcher in continuation-passing style that follows the
    matcher semantics of ECMAScript (section "RegExp (Regular Expression)
    Objects"): alternatives are tried left to right, a greedy quantifier
    tries one more iteration before its continuation and a lazy one the
    continuation first, an iteration that matches the empty string is
    rejected once the minimum is reached, and a lookahead is atomic.  Only
    the constructs that occur in the modelled source are provided. *)
(* ================================================================== *)

Module Regex.
Import JS.

Inductive regex : Type :=
| Eps                                   (* empty pattern *)
| Chr (c : ascii)                       (* a literal code unit *)
| Cls (invert : bool) (p : ascii -> bool) (* a character class or class escape *)
| Dot                                   (* . *)
| Seq (r1 r2 : regex)
| Alt (r1 r2 : regex)                   (* r1|r2 *)
| Rep (min : nat) (max : option nat) (greedy : bool) (r : regex)
| Grp (i : nat) (r : regex)             (* i-th capturing group *)
| Look (r : regex)                      (* (?=r) *)
| Bol                                   (* ^ *)
| Eol                                   (* $ *)
| WordB.                                (* \b *)

(** The flags [i] and [s]; [g] only changes how the callers iterate. *)
Record flags := { ignoreCase : bool; dotAll : bool }.

Definition no_flags : flags := {| ignoreCase := false; dotAll := false |}.
Definition flag_i : flags := {| ignoreCase := true; dotAll := false |}.
Definition flag_is : flags := {| ignoreCase := true; dotAll := true |}.

(** A literal word as a sequence of literal code units. *)
Fixpoint lit (w : string) : regex :=
  match w with
  | EmptyString => Eps
  | String c EmptyString => Chr c
  | String c w' => Seq (Chr c) (lit w')
  end.

Definition star (r : regex) : regex := Rep 0 None true r.
Definition plus (r : regex) : regex := Rep 1 None true r.
Definition opt (r : regex) : regex := Rep 0 (Some 1) true r.
Definition lazy_star (r : regex) : regex := Rep 0 None false r.

Definition digit : regex := Cls false isDigit.              (* \d *)
Definition space : regex := Cls false isWhiteSpace.         (* \s *)
Definition word : regex := Cls false isWordChar.            (* \w *)
Definition range (lo hi : ascii) : regex := Cls false (in_range lo hi).

(** The state of a match: the code unit before the current position, the
    current position, the rest of the input, and the captures as pairs of
    start and end positions. *)
Record mstate := {
  prev : option ascii;
  pos : nat;
  rest : string;
  caps : list (nat * (nat * nat))
}.

Definition start_state (s : string) : mstate :=
  {| prev := None; pos := 0; rest := s; caps := [] |}.

Definition advance (st : mstate) (a : ascii) (s' : string) : mstate :=
  {| prev := Some a; pos := S (pos st); rest := s'; caps := caps st |}.

Definition set_cap (i : nat) (span : nat * nat) (st : mstate) : mstate :=
  {| prev := prev st; pos := pos st; rest := rest st;
     caps := (i, span) :: List.filter (fun p => negb (fst p =? i)) (caps st) |}.

Definition with_caps (st : mstate) (cs : list (nat * (nat * nat))) : mstate :=
  {| prev := prev st; pos := pos st; rest := rest st; caps := cs |}.

Fixpoint groups (r : regex) : list nat :=
  match r with
  | Seq r1 r2 | Alt r1 r2 => groups r1 ++ groups r2
  | Rep _ _ _ r1 | Look r1 => groups r1
  | Grp i r1 => i :: groups r1
  | _ => []
  end.

Definition clear_caps (gs : list nat) (st : mstate) : mstate :=
  with_caps st
    (List.filter (fun p => negb (existsb (Nat.eqb (fst p)) gs)) (caps st)).

(** Canonicalize of a non-Unicode case-insensitive match: two code units of
    the Latin-1 range are equivalent when they have the same lower case. *)
Definition chr_eq (fl : flags) (a c : ascii) : bool :=
  if ignoreCase fl then Ascii.eqb (toLowerChar a) (toLowerChar c)
  else Ascii.eqb a c.

Definition cls_mem (fl : flags) (p : ascii -> bool) (a : ascii) : bool :=
  if ignoreCase fl then p a || p (toLowerChar a) || p (toUpperChar a)
  else p a.

(** Without the [s] flag the dot excludes the line terminators. *)
Definition dot_ok (fl : flags) (a : ascii) : bool :=
  dotAll fl || negb ((code a =? 10) || (code a =? 13)).

Definition is_word_opt (o : option ascii) : bool :=
  match o with Some a => isWordChar a | None => false end.

Definition next_char (st : mstate) : option ascii :=
  match rest st with String a _ => Some a | EmptyString => None end.

Definition pred_max (m : option nat) : option nat :=
  match m with Some n => Some (Nat.pred n) | None => None end.

Section Matcher.
Variable fl : flags.

Definition step_char (ok : ascii -> bool) (st : mstate)
    (k : mstate -> option mstate) : option mstate :=
  match rest st with
  | String a s' => if ok a then k (advance st a s') else None
  | EmptyString => None
  end.

(** [rmatch r st k]: match [r] at [st] and continue with [k]; [None] is
    failure and makes the caller backtrack. *)
Fixpoint rmatch (r : regex) (st : mstate) (k : mstate -> option mstate)
    {struct r} : option mstate :=
  match r with
  | Eps => k st
  | Chr c => step_char (fun a => chr_eq fl a c) st k
  | Cls invert p => step_char (fun a => xorb invert (cls_mem fl p a)) st k
  | Dot => step_char (dot_ok fl) st k
  | Seq r1 r2 => rmatch r1 st (fun st1 => rmatch r2 st1 k)
  | Alt r1 r2 =>
      match rmatch r1 st k with
      | Some z => Some z
      | None => rmatch r2 st k
      end
  | Rep min max greedy r1 =>
      (* RepeatMatcher; every iteration beyond [min] consumes input, so
         [min + length rest + 1] rounds are enough. *)
      (fix rep (fuel min : nat) (max : option nat) (x : mstate) {struct fuel}
         : option mstate :=
         match fuel with
         | O => None
         | S fuel' =>
             match max with
             | Some O => k x
             | _ =>
                 let d := fun y : mstate =>
                   if (min =? 0) && (pos y =? pos x) then None
                   else rep fuel' (Nat.pred min) (pred_max max) y in
                 let xr := clear_caps (groups r1) x in
                 if negb (min =? 0) then rmatch r1 xr d
                 else if greedy then
                   match rmatch r1 xr d with
                   | Some z => Some z
                   | None => k x
                   end
                 else
                   match k x with
                   | Some z => Some z
                   | None => rmatch r1 xr d
                   end
             end
         end) (min + String.length (rest st) + 1) min max st
  | Grp i r1 =>
      rmatch r1 st (fun st1 => k (set_cap i (pos st, pos st1) st1))
  | Look r1 =>
      match rmatch r1 st Some with
      | Some st1 => k (with_caps st (caps st1))
      | None => None
      end
  | Bol => if pos st =? 0 then k st else None
  | Eol => match rest st with EmptyString => k st | _ => None end
  | WordB =>
      if xorb (is_word_opt (prev st)) (is_word_opt (next_char st))
      then k st else None
  end.

(** One attempt at the current position. *)
Definition match_here (r : regex) (st : mstate) : option mstate :=
  rmatch r (with_caps st []) Some.

(** The leftmost match at or after the current position: the pair of the
    state where the match starts and the state where it ends. *)
Fixpoint search_from (r : regex) (pv : option ascii) (p : nat) (s : string)
    {struct s} : option (mstate * mstate) :=
  let st := {| prev := pv; pos := p; rest := s; caps := [] |} in
  match match_here r st with
  | Some e => Some (st, e)
  | None =>
      match s with
      | EmptyString => None
      | String a s' => search_from r (Some a) (S p) s'
      end
  end.
End Matcher.

(** The result of a successful match on [input]: the matched text and the
    texts of the capturing groups. *)
Record rmatch_result := {
  m_index : nat;
  m_end : nat;
  m_text : string;                    (* match[0] *)
  m_groups : list (nat * string)      (* match[i] for the groups that took part *)
}.

Definition group (m : rmatch_result) (i : nat) : option string :=
  snd <$> List.find (fun p => fst p =? i) (m_groups m).

Definition result_of (input : string) (b e : mstate) : rmatch_result :=
  {| m_index := pos b;
     m_end := pos e;
     m_text := substring (pos b) (pos e) input;
     m_groups := List.map (fun p => (fst p, substring (fst (snd p)) (snd (snd p)) input))
                          (caps e) |}.

(** [s.match(re)] for a regular expression without the [g] flag, and
    [re.exec(s)]. *)
Definition exec (fl : flags) (r : regex) (s : string) : option rmatch_result :=
  match search_from fl r None 0 s with
  | Some (b, e) => Some (result_of s b e)
  | None => None
  end.

(** [re.test(s)]. *)
Definition test (fl : flags) (r : regex) (s : string) : bool :=
  match search_from fl r None 0 s with Some _ => true | None => false end.

Definition matched (o : option mstate) : bool :=
  match o with Some _ => true | None => false end.

Definition last_char (pv : option ascii) (s : string) : option ascii :=
  (fix go (pv : option ascii) (s : string) : option ascii :=
     match s with
     | EmptyString => pv
     | String a s' => go (Some a) s'
     end) pv s.

(** [s.matchAll(re)] for a regular expression with the [g] flag: the
    successive matches; after an empty match the search resumes one code
    unit further. *)
Fixpoint matchAll_from (fl : flags) (r : regex) (input : string)
    (fuel : nat) (pv : option ascii) (p : nat) (s : string)
    : list rmatch_result :=
  match fuel with
  | O => []
  | S fuel' =>
      match search_from fl r pv p s with
      | None => []
      | Some (b, e) =>
          let m := result_of input b e in
          if pos e =? pos b then
            match rest e with
            | EmptyString => [m]
            | String a s' =>
                m :: matchAll_from fl r input fuel' (Some a) (S (pos e)) s'
            end
          else m :: matchAll_from fl r input fuel' (prev e) (pos e) (rest e)
      end
  end.

Definition matchAll (fl : flags) (r : regex) (s : string) : list rmatch_result :=
  matchAll_from fl r s (S (String.length s)) None 0 s.

(** [s.match(re)] with the [g] flag: the matched texts, or [null] ([None])
    when there is none. *)
Definition match_g (fl : flags) (r : regex) (s : string) : option (list string) :=
  match matchAll fl r s with
  | [] => None
  | ms => Some (List.map m_text ms)
  end.

(** [s.replace(re, repl)] with the [g] flag, for a replacement text without
    [$] patterns. *)
Fixpoint replace_matches (input : string) (ms : list rmatch_result) (p : nat)
    (repl : string) : string :=
  match ms with
  | [] => substring_from p input
  | m :: ms' =>
      substring p (m_index m) input +:+ repl +:+ replace_matches input ms' (m_end m) repl
  end.

Definition replaceAll (fl : flags) (r : regex) (repl : string) (s : string) : string :=
  replace_matches s (matchAll fl r s) 0 repl.

(** The state at position [q] of [input]. *)
Definition state_at (input : string) (q : nat) : mstate :=
  {| prev := last_char None (substring_to q input); pos := q;
     rest := substring_from q input; caps := [] |}.

(** [s.split(re)] for a pattern without capturing groups: the steps of
    RegExp.prototype[Symbol.split]. *)
Fixpoint split_loop (fl : flags) (r : regex) (input : string) (fuel p q : nat)
    : list string :=
  match fuel with
  | O => [substring_from p input]
  | S fuel' =>
      if String.length input <=? q then [substring_from p input]
      else
        match match_here fl r (state_at input q) with
        | None => split_loop fl r input fuel' p (S q)
        | Some e =>
            let e' := Nat.min (pos e) (String.length input) in
            if e' =? p then split_loop fl r input fuel' p (S q)
            else substring p q input :: split_loop fl r input fuel' e' e'
        end
  end.

Definition split_re (fl : flags) (r : regex) (s : string) : list string :=
  match s with
  | EmptyString =>
      match match_here fl r (start_state s) with Some _ => [] | None => [s] end
  | _ => split_loop fl r s (2 * String.length s + 2) 0 0
  end.

End Regex.


(* ================================================================== *)
(** ** Formatter: [ensureValidBrowseCompFormat] (route.ts, lines 81-128) *)
(* ================================================================== *)

Module Formatter.
Import JS Regex.

(** [/^confidence:\s*(100|[1-9]?[0-9])%$/i] *)
Definition confidenceLine : regex :=
  Seq Bol
   (Seq (lit "confidence:")
    (Seq (star space)
     (Seq (Grp 1 (Alt (lit "100") (Seq (opt (range "1" "9")) (range "0" "9"))))
      (Seq (Chr "%") Eol)))).

(** [/explanation:\s*(.*?)(?=exact answer:|confidence:|$)/is] *)
Definition explanationSection : regex :=
  Seq (lit "explanation:")
   (Seq (star space)
    (Seq (Grp 1 (lazy_star Dot))
     (Look (Alt (lit "exact answer:") (Alt (lit "confidence:") Eol))))).

(** [/exact answer:\s*(.*?)(?=explanation:|confidence:|$)/is] *)
Definition exactAnswerSection : regex :=
  Seq (lit "exact answer:")
   (Seq (star space)
    (Seq (Grp 1 (lazy_star Dot))
     (Look (Alt (lit "explanation:") (Alt (lit "confidence:") Eol))))).

(** [/confidence:\s*(\d{1,3}%)/i] *)
Definition confidenceSection : regex :=
  Seq (lit "confidence:")
   (Seq (star space)
    (Grp 1 (Seq (Rep 1 (Some 3) true digit) (Chr "%")))).

(** The answer returned when nothing can be salvaged (lines 83-85 and
    125-127). *)
Definition noAnswer (query : string) : string :=
  "Explanation: The research could not find a definitive answer to: "
    +:+ dq +:+ query +:+ dq +:+ "." +:+ nl
    +:+ "Exact Answer: Unknown" +:+ nl
    +:+ "Confidence: 10%".

(** The test of lines 89-92 on the trimmed lines of the trimmed text. *)
Definition acceptable (lines : list string) : bool :=
  match lines with
  | [l0; l1; l2] =>
      startsWith (toLowerCase l0) "explanation:" &&
      startsWith (toLowerCase l1) "exact answer:" &&
      test flag_i confidenceLine l2
  | _ => false
  end.

Definition linesOf (text : string) : list string :=
  List.map trim (split LF (trim text)).

(** [m ? m[1].trim() : ''] *)
Definition section1 (m : option rmatch_result) : string :=
  match m with
  | Some r => trim (default EmptyString (group r 1))
  | None => EmptyString
  end.

(** [if (!s.toLowerCase().startsWith(label.toLowerCase())) s = label + ' ' + s] *)
Definition labelled (label lower : string) (s : string) : string :=
  if negb (startsWith (toLowerCase s) lower) then label +:+ " " +:+ s else s.

Definition ensureValidBrowseCompFormat (text query : string) : string :=
  if negb (nonEmpty text) then noAnswer query
  else if acceptable (linesOf text) then trim text
  else
    let explanation := section1 (exec flag_is explanationSection text) in
    let exactAnswer := section1 (exec flag_is exactAnswerSection text) in
    let confidence := section1 (exec flag_i confidenceSection text) in
    if nonEmpty explanation || nonEmpty exactAnswer || nonEmpty confidence then
      let explanation :=
        orElse explanation "The research could not find a definitive answer." in
      let exactAnswer := orElse exactAnswer "Unknown" in
      let confidence := orElse confidence "30%" in
      let explanation := labelled "Explanation:" "explanation:" explanation in
      let exactAnswer := labelled "Exact Answer:" "exact answer:" exactAnswer in
      let confidence := labelled "Confidence:" "confidence:" confidence in
      explanation +:+ nl +:+ exactAnswer +:+ nl +:+ confidence
    else noAnswer query.

(** The shape the specification promises for the final answer: exactly
    three lines, the first starting with [Explanation:], the second with
    [Exact Answer:], the third being [Confidence: NN%] with NN a decimal
    integer between 0 and 100. *)
Definition percentage : regex :=
  Seq Bol
   (Seq (lit "Confidence: ")
    (Seq (Alt (lit "100") (Seq (opt (range "1" "9")) (range "0" "9")))
     (Seq (Chr "%") Eol))).

Definition threeLineAnswer (s : string) : bool :=
  match split LF s with
  | [l0; l1; l2] =>
      startsWith l0 "Explanation:" &&
      startsWith l1 "Exact Answer:" &&
      test no_flags percentage l2
  | _ => false
  end.

End Formatter.


(* ================================================================== *)
(** ** Settled promises and thrown errors *)
(* ================================================================== *)

Module Async.

(** A JavaScript [Error]; only its message is read by the modelled code. *)
Record Error := { message : string }.

(** The settlement of a promise, or the completion of a block that may
    throw. *)
Inductive Outcome (A : Type) : Type :=
| Resolved (a : A)
| Rejected (e : Error).

Arguments Resolved {A} a.
Arguments Rejected {A} e.

Definition bind {A B : Type} (m : Outcome A) (f : A -> Outcome B) : Outcome B :=
  match m with
  | Resolved a => f a
  | Rejected e => Rejected e
  end.

Definition TypeError (what : string) : Error := {| message := what |}.

End Async.

#[export] Instance outcome_ret : MRet Async.Outcome := @Async.Resolved.
#[export] Instance outcome_bind : MBind Async.Outcome :=
  fun A B f m => Async.bind m f.

(* ================================================================== *)
(** ** JSON values, [JSON.parse] and [JSON.stringify] *)
(* ================================================================== *)

Module Json.
Import JS Async.

(** A value built by [JSON.parse].  Numbers are integers.  An object lists
    its own properties in enumeration order. *)
#[warnings="-register-all"]
Inductive JValue : Type :=
| JNull
| JBool (b : bool)
| JNum (n : Z)
| JStr (s : string)
| JArr (items : list JValue)
| JObj (fields : list (string * JValue)).

(** [!!v] *)
Definition truthy (v : JValue) : bool :=
  match v with
  | JNull => false
  | JBool b => b
  | JNum n => negb (n =? 0)%Z
  | JStr s => nonEmpty s
  | JArr _ | JObj _ => true
  end.

(** [!!v] where [None] stands for [undefined]. *)
Definition truthyOpt (o : option JValue) : bool :=
  match o with Some v => truthy v | None => false end.

Fixpoint lookup_field (k : string) (fields : list (string * JValue)) : option JValue :=
  match fields with
  | [] => None
  | (k', v) :: rest => if String.eqb k' k then Some v else lookup_field k rest
  end.

(** [v.k] for a property name [k] that no prototype defines ([analysis],
    [summary], [subquestions], [shouldContinue], [data]): reading a property
    of [null] throws a [TypeError], an object gives its own property, and
    every other value gives [undefined] ([None]). *)
Definition getProp (v : JValue) (k : string) : Outcome (option JValue) :=
  match v with
  | JNull => Rejected (TypeError ("Cannot read properties of null (reading '" +:+ k +:+ "')"))
  | JObj fields => Resolved (lookup_field k fields)
  | _ => Resolved None
  end.

Fixpoint set_field (k : string) (v : JValue) (fields : list (string * JValue))
    : list (string * JValue) :=
  match fields with
  | [] => [(k, v)]
  | (k', v') :: rest =>
      if String.eqb k' k then (k', v) :: rest else (k', v') :: set_field k v rest
  end.

(** [o.k = v] on an object: an existing property keeps its place. *)
Definition setProp (o : JValue) (k : string) (v : JValue) : JValue :=
  match o with
  | JObj fields => JObj (set_field k v fields)
  | _ => o
  end.

(** [typeof v === 'string'] *)
Definition isString (v : JValue) : bool :=
  match v with JStr _ => true | _ => false end.

(** *** JSON.stringify *)

Definition hex_digit (n : nat) : ascii :=
  if n <? 10 then ascii_of_nat (48 + n) else ascii_of_nat (87 + n).

(** QuoteJSONString: the double quote, the backslash and the control
    characters are escaped. *)
Definition quote_char (c : ascii) : string :=
  if code c =? 34 then "\" +:+ dq
  else if code c =? 92 then "\\"
  else if code c =? 8 then "\b"
  else if code c =? 12 then "\f"
  else if code c =? 10 then "\n"
  else if code c =? 13 then "\r"
  else if code c =? 9 then "\t"
  else if code c <? 32 then
    "\u00" +:+ String (hex_digit (code c / 16)) (String (hex_digit (code c mod 16)) EmptyString)
  else String c EmptyString.

Fixpoint quote_body (s : string) : string :=
  match s with
  | EmptyString => EmptyString
  | String c s' => quote_char c +:+ quote_body s'
  end.

Definition quote (s : string) : string := dq +:+ quote_body s +:+ dq.

Definition number_to_string (n : Z) : string := NilZero.string_of_int (Z.to_int n).

Fixpoint stringify (v : JValue) : string :=
  match v with
  | JNull => "null"
  | JBool true => "true"
  | JBool false => "false"
  | JNum n => number_to_string n
  | JStr s => quote s
  | JArr items => "[" +:+ join "," (List.map stringify items) +:+ "]"
  | JObj fields =>
      "{" +:+ join "," (List.map (fun kv => quote (fst kv) +:+ ":" +:+ stringify (snd kv)) fields)
          +:+ "}"
  end.

(** *** JSON.parse

    The grammar of ECMA-404 with two restrictions of the model: a number
    has no fraction and no exponent, and a [\u] escape denotes a code unit
    below 256.  [None] is a [SyntaxError]. *)

Definition isJsonSpace (c : ascii) : bool :=
  (code c =? 32) || (code c =? 9) || (code c =? 10) || (code c =? 13).

Fixpoint skip_ws (s : string) : string :=
  match s with
  | String c s' => if isJsonSpace c then skip_ws s' else s
  | EmptyString => EmptyString
  end.

Definition hex_value (c : ascii) : option nat :=
  if isDigit c then Some (code c - 48)
  else if in_range "a" "f" c then Some (code c - 87)
  else if in_range "A" "F" c then Some (code c - 55)
  else None.

(** The characters of a string literal after its opening quote. *)
Fixpoint parse_chars (s : string) : option (string * string) :=
  match s with
  | EmptyString => None
  | String c s' =>
      if code c =? 34 then Some (EmptyString, s')
      else if code c <? 32 then None
      else if code c =? 92 then
        match s' with
        | String e s'' =>
            let esc (x : ascii) :=
              match parse_chars s'' with
              | Some (w, r) => Some (String x w, r)
              | None => None
              end in
            if code e =? 34 then esc DQ
            else if code e =? 92 then esc "\"%char
            else if code e =? 47 then esc "/"%char
            else if code e =? 98 then esc "008"%char
            else if code e =? 102 then esc "012"%char
            else if code e =? 110 then esc "010"%char
            else if code e =? 114 then esc "013"%char
            else if code e =? 116 then esc "009"%char
            else if code e =? 117 then
              match s'' with
              | String x3 (String x2 (String x1 (String x0 r0))) =>
                  match hex_value x3, hex_value x2, hex_value x1, hex_value x0 with
                  | Some 0, Some 0, Some h, Some l =>
                      match parse_chars r0 with
                      | Some (w, r) => Some (String (ascii_of_nat (h * 16 + l)) w, r)
                      | None => None
                      end
                  | _, _, _, _ => None
                  end
              | _ => None
              end
            else None
        | EmptyString => None
        end
      else
        match parse_chars s' with
        | Some (w, r) => Some (String c w, r)
        | None => None
        end
  end.

Fixpoint digits_of (s : string) : string * string :=
  match s with
  | String c s' =>
      if isDigit c then let (d, r) := digits_of s' in (String c d, r)
      else (EmptyString, s)
  | EmptyString => (EmptyString, EmptyString)
  end.

Fixpoint decimal_value (acc : Z) (d : string) : Z :=
  match d with
  | EmptyString => acc
  | String c d' => decimal_value (acc * 10 + Z.of_nat (code c - 48))%Z d'
  end.

(** An integer literal: no leading zero, and neither a fraction nor an
    exponent may follow. *)
Definition parse_number (s : string) : option (Z * string) :=
  let (neg, s1) :=
    match s with
    | String c s' => if code c =? 45 then (true, s') else (false, s)
    | EmptyString => (false, s)
    end in
  let (d, r) := digits_of s1 in
  match d with
  | EmptyString => None
  | String c d' =>
      if (code c =? 48) && nonEmpty d' then None
      else
        match r with
        | String x _ =>
            if (code x =? 46) || (code x =? 101) || (code x =? 69) then None
            else Some (if neg then (- decimal_value 0 d)%Z else decimal_value 0 d, r)
        | EmptyString =>
            Some (if neg then (- decimal_value 0 d)%Z else decimal_value 0 d, r)
        end
  end.

Definition expect (w : string) (v : JValue) (s : string) : option (JValue * string) :=
  if startsWith s w then Some (v, substring_from (String.length w) s) else None.

(** Recursive descent; every recursive call is made after at least one more
    code unit was consumed, so the fuel given by [JSON_parse] is enough. *)
Fixpoint parse_value (fuel : nat) (s : string) : option (JValue * string) :=
  match fuel with
  | O => None
  | S fuel' =>
      match skip_ws s with
      | EmptyString => None
      | String c s' =>
          if code c =? 123 then          (* { *)
            match skip_ws s' with
            | String c1 s1 =>
                if code c1 =? 125 then Some (JObj [], s1)
                else
                  match parse_member fuel' (skip_ws s') with
                  | Some (k, v, r) => parse_members fuel' [(k, v)] r
                  | None => None
                  end
            | EmptyString => None
            end
          else if code c =? 91 then      (* [ *)
            match skip_ws s' with
            | String c1 s1 =>
                if code c1 =? 93 then Some (JArr [], s1)
                else
                  match parse_value fuel' s' with
                  | Some (v, r) => parse_elements fuel' [v] r
                  | None => None
                  end
            | EmptyString => None
            end
          else if code c =? 34 then
            match parse_chars s' with
            | Some (w, r) => Some (JStr w, r)
            | None => None
            end
          else if code c =? 116 then expect "true" (JBool true) (String c s')
          else if code c =? 102 then expect "false" (JBool false) (String c s')
          else if code c =? 110 then expect "null" JNull (String c s')
          else
            match parse_number (String c s') with
            | Some (n, r) => Some (JNum n, r)
            | None => None
            end
      end
  end

(** After an element: a comma and a further element, or the closing
    bracket.  [acc] holds the elements read so far. *)
with parse_elements (fuel : nat) (acc : list JValue) (s : string)
    : option (JValue * string) :=
  match fuel with
  | O => None
  | S fuel' =>
      match skip_ws s with
      | String c s' =>
          if code c =? 93 then Some (JArr acc, s')
          else if code c =? 44 then
            match parse_value fuel' s' with
            | Some (v, r) => parse_elements fuel' (acc ++ [v]) r
            | None => None
            end
          else None
      | EmptyString => None
      end
  end

(** A member [string : value]; the input starts at the opening quote. *)
with parse_member (fuel : nat) (s : string) : option (string * JValue * string) :=
  match fuel with
  | O => None
  | S fuel' =>
      match s with
      | String c s' =>
          if code c =? 34 then
            match parse_chars s' with
            | Some (k, r) =>
                match skip_ws r with
                | String c1 r1 =>
                    if code c1 =? 58 then
                      match parse_value fuel' r1 with
                      | Some (v, r2) => Some (k, v, r2)
                      | None => None
                      end
                    else None
                | EmptyString => None
                end
            | None => None
            end
          else None
      | EmptyString => None
      end
  end

with parse_members (fuel : nat) (acc : list (string * JValue)) (s : string)
    : option (JValue * string) :=
  match fuel with
  | O => None
  | S fuel' =>
      match skip_ws s with
      | String c s' =>
          if code c =? 125 then Some (JObj acc, s')
          else if code c =? 44 then
            match parse_member fuel' (skip_ws s') with
            | Some (k, v, r) => parse_members fuel' (set_field k v acc) r
            | None => None
            end
          else None
      | EmptyString => None
      end
  end.

(** [JSON.parse(text)]; [None] when it throws a [SyntaxError]. *)
Definition JSON_parse (text : string) : option JValue :=
  match parse_value (2 * String.length text + 2) text with
  | Some (v, r) =>
      match skip_ws r with
      | EmptyString => Some v
      | _ => None
      end
  | None => None
  end.

End Json.


(* ================================================================== *)
(** ** Arrays *)
(* ================================================================== *)

Module JSArray.

(** [Array.prototype.sort(cmp)] for a consistent comparator: the sort is
    stable, and [a] is placed before [b] when [cmp a b <= 0]. *)
Fixpoint insert_sorted {A : Type} (cmp : A -> A -> Z) (x : A) (l : list A) : list A :=
  match l with
  | [] => [x]
  | y :: l' => if (cmp x y <=? 0)%Z then x :: l else y :: insert_sorted cmp x l'
  end.

Definition sort {A : Type} (cmp : A -> A -> Z) (l : list A) : list A :=
  foldr (insert_sorted cmp) [] l.

(** [new Set(...)], [set.add(x)] and [set.has(x)] where the insertion order
    of the set is observed. *)
Definition set_has (x : string) (l : list string) : bool :=
  existsb (String.eqb x) l.

Definition set_add (l : list string) (x : string) : list string :=
  if set_has x l then l else l ++ [x].

End JSArray.

(* ================================================================== *)
(** ** Research state (route.ts, lines 51-79) *)
(* ================================================================== *)

Module State.

(** A finding; [text] is [None] when the extractor stored [undefined]. *)
Record Finding := { text : option string; source : string }.

Record UrlEntry := { url : string; frequency : nat; title : option string }.

End State.

(* ================================================================== *)
(** ** Key terms and fallback queries (route.ts, lines 191-240, 286-336,
       355-359) *)
(* ================================================================== *)

Module Terms.
Import JS Regex JSArray.

(** [/\b(19|20)\d{2}\b/g] *)
Definition yearsRe : regex :=
  Seq WordB (Seq (Grp 1 (Alt (lit "19") (lit "20")))
    (Seq (Rep 2 (Some 2) true digit) WordB)).

(** [/\b\d+\.?\d*%/g] *)
Definition percentagesRe : regex :=
  Seq WordB (Seq (plus digit) (Seq (opt (Chr ".")) (Seq (star digit) (Chr "%")))).

(** [/\b\d+\s+\w+/gi] *)
Definition numbersRe : regex :=
  Seq WordB (Seq (plus digit) (Seq (plus space) (plus word))).

Definition notQuote : regex := Cls true (fun c => code c =? 34).

(** [/Q([^Q]+)Q/g] where Q stands for the double quote *)
Definition quotesRe : regex :=
  Seq (Chr DQ) (Seq (Grp 1 (plus notQuote)) (Chr DQ)).

(** [/Q/g] where Q stands for the double quote *)
Definition quoteRe : regex := Chr DQ.

Definition capWord : regex := Seq (range "A" "Z") (plus (range "a" "z")).

(** [/\b[A-Z][a-z]+(?:\s+[A-Z][a-z]+){0,2}\b/g] *)
Definition capsRe : regex :=
  Seq WordB (Seq capWord
    (Seq (Rep 0 (Some 2) true (Seq (plus space) capWord)) WordB)).

(** [/[^\w\s]/g] *)
Definition punctRe : regex := Cls true (fun c => isWordChar c || isWhiteSpace c).

(** [/\s+/] *)
Definition spacesRe : regex := plus space.

(** [/^\d+$/] *)
Definition allDigitsRe : regex := Seq Bol (Seq (plus digit) Eol).

(** [xs || []] for the result of a global match. *)
Definition orEmpty (o : option (list string)) : list string := default [] o.

(** [s.length > n] *)
Definition longer (n : nat) (s : string) : bool := n <? String.length s.

Definition generateFallbackQuery (question : string) : string :=
  let years := match_g no_flags yearsRe question in
  let percentages := match_g no_flags percentagesRe question in
  let numbers := match_g flag_i numbersRe question in
  let entities : list string := [] in
  let quotes := match_g no_flags quotesRe question in
  let entities :=
    match quotes with
    | Some qs => entities ++ List.map (replaceAll no_flags quoteRe EmptyString) qs
    | None => entities
    end in
  let caps := match_g no_flags capsRe question in
  let entities :=
    match caps with
    | Some cs =>
        entities ++ List.filter (fun c =>
          negb (includes (toLowerCase c) "explanation") &&
          negb (includes (toLowerCase c) "answer") &&
          negb (includes (toLowerCase c) "confidence") &&
          negb (includes (toLowerCase c) "exact")) cs
    | None => entities
    end in
  let entities := match years with Some ys => entities ++ ys | None => entities end in
  let entities := match percentages with Some ps => entities ++ ps | None => entities end in
  let entities := match numbers with Some ns => entities ++ take 2 ns | None => entities end in
  if 0 <? length entities then join " " (take 5 entities)
  else
    let words :=
      take 4
        (List.filter (fun w =>
           longer 4 w &&
           negb (includes w "explanation") &&
           negb (includes w "answer") &&
           negb (includes w "confidence") &&
           negb (includes w "exact") &&
           negb (includes w "format"))
         (split_re no_flags spacesRe
            (replaceAll no_flags punctRe " " (toLowerCase question)))) in
    orElse (join " " words) "search query".

Definition stopwords : list string :=
  [ "the"; "a"; "an"; "and"; "or"; "but";
    "in"; "on"; "at"; "to"; "for"; "of"; "with"; "by";
    "is"; "was"; "are"; "were"; "be"; "been"; "being";
    "has"; "have"; "had"; "can"; "could"; "would"; "should";
    "what"; "who"; "where"; "when"; "which"; "how"; "why";
    "your"; "response"; "explanation"; "answer"; "confidence";
    "additionally"; "also"; "both"; "either"; "neither" ].

(** [/\b(19[5-9]\d|20[0-4]\d)\b/g] *)
Definition recentYearsRe : regex :=
  Seq WordB
    (Seq (Grp 1 (Alt (Seq (lit "19") (Seq (range "5" "9") digit))
                     (Seq (lit "20") (Seq (range "0" "4") digit))))
      WordB).

(** [/\b\d+(?:\.\d+)?%/g] *)
Definition percentRe : regex :=
  Seq WordB (Seq (plus digit) (Seq (opt (Seq (Chr ".") (plus digit))) (Chr "%"))).

Definition extractKeyTerms (question : string) : string :=
  let keywords : list string := [] in
  (* quoted phrases *)
  let keywords :=
    foldl (fun kw m =>
             let g := default EmptyString (group m 1) in
             if longer 2 g then set_add kw (trim g) else kw)
          keywords (matchAll no_flags quotesRe question) in
  (* capitalized multi-word names *)
  let keywords :=
    foldl (fun kw m =>
             let phrase := trim (m_text m) in
             if longer 2 phrase && negb (set_has (toLowerCase phrase) stopwords)
             then set_add kw phrase else kw)
          keywords (matchAll no_flags capsRe question) in
  (* years and percentages *)
  let keywords := foldl set_add keywords (orEmpty (match_g no_flags recentYearsRe question)) in
  let keywords := foldl set_add keywords (orEmpty (match_g no_flags percentRe question)) in
  (* meaningful words *)
  let keywords :=
    foldl set_add keywords
      (take 8
        (List.filter (fun w =>
           longer 4 w &&
           negb (set_has w stopwords) &&
           negb (test no_flags allDigitsRe w) &&
           negb (includes w "explanation") &&
           negb (includes w "answer") &&
           negb (includes w "confidence"))
         (split_re no_flags spacesRe
            (replaceAll no_flags punctRe " " (toLowerCase question))))) in
  join " "
    (take 8
      (sort (fun a b => (Z.of_nat (String.length b) - Z.of_nat (String.length a))%Z)
            keywords)).

(** [/^(what|when|where|who|how|name|info|event)$/i] *)
Definition genericRe : regex :=
  Seq Bol
    (Seq (Grp 1 (Alt (lit "what") (Alt (lit "when") (Alt (lit "where") (Alt (lit "who")
            (Alt (lit "how") (Alt (lit "name") (Alt (lit "info") (lit "event")))))))))
      Eol).

Definition isGeneric (query : string) : bool :=
  test flag_i genericRe (trim query) ||
  (length (split " " query) <? 3) ||
  test no_flags allDigitsRe query.

End Terms.


(* ================================================================== *)
(** ** Analyzer: tiered salvage of the model reply (route.ts, lines
       130-189 and 242-284) *)
(* ================================================================== *)

Module Analysis.
Import JS Regex Async Json State Terms.

(** The three steps that every tier applies to a parsed value; the
    property reads throw when the value is [null]. *)

(** Lines 134-143: the body of the [try] block of Method 1 after
    [JSON.parse] succeeded. *)
Definition settleDirect (parsed : JValue) : Outcome JValue :=
  analysis ← getProp parsed "analysis";
  if truthyOpt analysis then Resolved (default JNull analysis)
  else
    summary ← getProp parsed "summary";
    if bool_decide (is_Some summary) then Resolved parsed
    else
      subquestions ← getProp parsed "subquestions";
      match subquestions with
      | Some (JArr qs) =>
          Resolved (setProp parsed "subquestions" (JArr (List.filter isString qs)))
      | _ => Resolved parsed
      end.

(** Method 1 (lines 132-146); [None] when control leaves the [try] block
    through its [catch] clause, which only logs. *)
Definition directParse (responseText : string) : option JValue :=
  match JSON_parse responseText with
  | Some parsed =>
      match settleDirect parsed with
      | Resolved v => Some v
      | Rejected _ => None
      end
  | None => None
  end.

Definition backtick : regex := Chr "`".
Definition fence : regex := Seq backtick (Seq backtick backtick).
Definition anyChar : regex := Cls false (fun _ => true).       (* [\s\S] *)
Definition braceBody : regex :=
  Grp 1 (Seq (Chr "{") (Seq (lazy_star anyChar) (Chr "}"))).

(** [/```(?:json)?\s*({[\s\S]*?})\s*```/g] and [/```\s*({[\s\S]*?})\s*```/g] *)
Definition markdownPatterns : list regex :=
  [ Seq fence (Seq (opt (lit "json")) (Seq (star space)
      (Seq braceBody (Seq (star space) fence))));
    Seq fence (Seq (star space) (Seq braceBody (Seq (star space) fence))) ].

(** Lines 157-167: one fenced block. *)
Definition settleBlock (inner : string) : option JValue :=
  match JSON_parse inner with
  | Some parsed =>
      match
        (analysis ← getProp parsed "analysis";
         if truthyOpt analysis then Resolved (Some (default JNull analysis))
         else
           summary ← getProp parsed "summary";
           if bool_decide (is_Some summary) then Resolved (Some parsed)
           else Resolved None)
      with
      | Resolved r => r
      | Rejected _ => None
      end
  | None => None
  end.

(** The first element of [l] on which [f] settles. *)
Fixpoint firstSettled {A : Type} (f : A -> option JValue) (l : list A) : option JValue :=
  match l with
  | [] => None
  | x :: l' => match f x with Some v => Some v | None => firstSettled f l' end
  end.

(** Method 2 (lines 149-169). *)
Definition fromCodeBlocks (responseText : string) : option JValue :=
  firstSettled
    (fun pattern =>
       firstSettled (fun m => settleBlock (default EmptyString (group m 1)))
                    (matchAll no_flags pattern responseText))
    markdownPatterns.

Definition notBrace : regex :=
  Cls true (fun c => (code c =? 123) || (code c =? 125)).

(** The pattern [/{ N* (?: { N* } N* )* }/g] where N is the class [[^{}]]
    and the blanks are added for reading. *)
Definition objectRe : regex :=
  Seq (Chr "{") (Seq (star notBrace)
    (Seq (star (Seq (Chr "{") (Seq (star notBrace) (Seq (Chr "}") (star notBrace)))))
      (Chr "}"))).

(** Lines 175-185: one candidate object. *)
Definition settleObject (jsonMatch : string) : option JValue :=
  match JSON_parse jsonMatch with
  | Some parsed =>
      match
        (analysis ← getProp parsed "analysis";
         if truthyOpt analysis then Resolved (Some (default JNull analysis))
         else
           summary ← getProp parsed "summary";
           shouldContinue ← getProp parsed "shouldContinue";
           if bool_decide (is_Some summary) || bool_decide (is_Some shouldContinue)
           then Resolved (Some parsed)
           else Resolved None)
      with
      | Resolved r => r
      | Rejected _ => None
      end
  | None => None
  end.

(** Method 3 (lines 172-187). *)
Definition fromObjects (responseText : string) : option JValue :=
  match match_g no_flags objectRe responseText with
  | Some jsonMatches => firstSettled settleObject jsonMatches
  | None => None
  end.

(** [parseAnalysisFromText] (lines 242-273).  [findings.length] is the only
    use of the findings; the remaining time is a number of minutes. *)
Definition parseAnalysisFromText (text : string) (findings : list Finding)
    (timeRemainingMinutes : Q) (question : string) : JValue :=
  let lowerText := toLowerCase text in
  let shouldContinue :=
    (length findings <? 3) ||
    negb (Qle_bool timeRemainingMinutes (3 # 2)) ||
    includes lowerText "continue" ||
    includes lowerText "more search" ||
    includes lowerText "insufficient" in
  let confidence :=
    if includes lowerText "high confidence" || includes lowerText "confident" then "high"
    else if includes lowerText "medium" || includes lowerText "moderate" then "medium"
    else "low" in
  let hasAnswer :=
    includes lowerText "found" ||
    includes lowerText "answer" ||
    includes lowerText "identified" ||
    String.eqb confidence "high" in
  JObj [ ("summary", JStr (substring_to 200 text));
         ("hasAnswer", JBool hasAnswer);
         ("confidence", JStr confidence);
         ("gaps", JArr [JStr "More information needed"]);
         ("shouldContinue", JBool shouldContinue);
         ("nextSearchTopic", JStr (generateFallbackQuery question)) ].

(** [createFallbackAnalysis] (lines 275-284). *)
Definition createFallbackAnalysis (findings : list Finding)
    (timeRemainingMinutes : Q) (question : string) : JValue :=
  JObj [ ("summary", JStr "Analysis function encountered an error");
         ("hasAnswer", JBool false);
         ("confidence", JStr "low");
         ("gaps", JArr [JStr "Analysis system error"]);
         ("shouldContinue",
            JBool ((length findings <? 5) && negb (Qle_bool timeRemainingMinutes 1)));
         ("nextSearchTopic", JStr (generateFallbackQuery question)) ].

(** The tier that settles the result. *)
Inductive Tier := Direct | CodeBlock | ObjectText | Textual.

Definition parseAnalysisResponseTier (responseText : string)
    (findings : list Finding) (timeRemainingMinutes : Q) (question : string)
    : Tier * JValue :=
  match directParse responseText with
  | Some v => (Direct, v)
  | None =>
      match fromCodeBlocks responseText with
      | Some v => (CodeBlock, v)
      | None =>
          match fromObjects responseText with
          | Some v => (ObjectText, v)
          | None =>
              (Textual,
               parseAnalysisFromText responseText findings timeRemainingMinutes question)
          end
      end
  end.

Definition parseAnalysisResponse (responseText : string)
    (findings : list Finding) (timeRemainingMinutes : Q) (question : string) : JValue :=
  snd (parseAnalysisResponseTier responseText findings timeRemainingMinutes question).

(** What the specification says Method 1 returns for a parsed value: the
    value of the key [analysis] when present, else the value itself when it
    has a key [summary], else the value with [subquestions] filtered to its
    string items. *)
Definition hasKey (k : string) (v : JValue) : bool :=
  match v with
  | JObj fields => bool_decide (is_Some (lookup_field k fields))
  | _ => false
  end.

Definition keyValue (k : string) (v : JValue) : option JValue :=
  match v with
  | JObj fields => lookup_field k fields
  | _ => None
  end.

Definition withoutAnalysis (parsed : JValue) : JValue :=
  if hasKey "summary" parsed then parsed
  else
    match keyValue "subquestions" parsed with
    | Some (JArr qs) => setProp parsed "subquestions" (JArr (List.filter isString qs))
    | _ => parsed
    end.

Definition directRule (parsed : JValue) : JValue :=
  match keyValue "analysis" parsed with
  | Some a => a
  | None => withoutAnalysis parsed
  end.

(** The same rule where the value of [analysis] is returned only when it
    is truthy. *)
Definition directRuleTruthy (parsed : JValue) : JValue :=
  match keyValue "analysis" parsed with
  | Some a => if truthy a then a else withoutAnalysis parsed
  | None => withoutAnalysis parsed
  end.

Definition isNull (v : JValue) : bool :=
  match v with JNull => true | _ => false end.

End Analysis.


(* ================================================================== *)
(** ** URL filter (route.ts, lines 338-353) *)
(* ================================================================== *)

Module Urls.
Import JS Regex.

(** The two components of a parsed URL that the filter and its
    specification mention. *)
Record URL := { hostname : string; pathname : string }.

(** [/\.(pdf|doc|docx)$/i] *)
Definition docRe : regex :=
  Seq (Chr ".") (Seq (Grp 1 (Alt (lit "pdf") (Alt (lit "doc") (lit "docx")))) Eol).

Definition blockedDomains : list string :=
  [ "reddit.com"; "brainly.com"; "youtube.com"; "youtu.be";
    "facebook.com"; "twitter.com"; "x.com"; "tiktok.com"; "instagram.com" ].

(** [blockedDomains.some(blocked => domain.includes(blocked))] *)
Definition isBlocked (domain : string) : bool :=
  existsb (fun blocked => includes domain blocked) blockedDomains.

Section Filter.
(** [new URL(url)]: the URL parser of the platform; [None] when the
    constructor throws. *)
Variable parseURL : string -> option URL.

(** The callback of [urls.filter] (lines 344-352). *)
Definition keepUrl (url : string) : bool :=
  match parseURL url with
  | Some u =>
      let domain := hostname u in
      if test flag_i docRe url then false
      else negb (isBlocked domain)
  | None => false
  end.

Definition filterUrls (urls : list string) : list string :=
  List.filter keepUrl urls.

(** The filter as the specification words it: the URL can be parsed, its
    host contains no blocked domain, and its path does not end in [.pdf],
    [.doc] or [.docx], whatever the case of the letters. *)
Definition docSuffix (s : string) : bool :=
  endsWith (toLowerCase s) ".pdf" ||
  endsWith (toLowerCase s) ".doc" ||
  endsWith (toLowerCase s) ".docx".

Definition keptBySpec (url : string) : bool :=
  match parseURL url with
  | Some u => negb (isBlocked (hostname u)) && negb (docSuffix (pathname u))
  | None => false
  end.

(** The same with the suffix test on the text of the URL. *)
Definition keptByText (url : string) : bool :=
  match parseURL url with
  | Some u => negb (isBlocked (hostname u)) && negb (docSuffix url)
  | None => false
  end.

(** The number of occurrences of [u] in [l]. *)
Definition occurrences (u : string) (l : list string) : nat :=
  length (List.filter (String.eqb u) l).

(** [s] in lower case is one of [.pdf], [.doc], [.docx]. *)
Definition isDocExtension (s : string) : bool :=
  String.eqb (toLowerCase s) ".pdf" ||
  String.eqb (toLowerCase s) ".doc" ||
  String.eqb (toLowerCase s) ".docx".

End Filter.

(** A parser for the examples: URLs of the shape
    [scheme://userinfo@host:port/path?query#fragment], which the platform
    parses into a lower-case host name and the path before the query.
    Every other text is taken as a failure here. *)
Definition isAlpha (c : ascii) : bool := in_range "a" "z" c || in_range "A" "Z" c.

Definition isSchemeChar (c : ascii) : bool :=
  isAlpha c || isDigit c || (code c =? 43) || (code c =? 45) || (code c =? 46).

(** The longest prefix of code units satisfying [p], and the rest. *)
Fixpoint span (p : ascii -> bool) (s : string) : string * string :=
  match s with
  | String c s' => if p c then let (a, b) := span p s' in (String c a, b) else (EmptyString, s)
  | EmptyString => (EmptyString, EmptyString)
  end.

(** The text after the last occurrence of [c], or the whole text. *)
Fixpoint afterLast (c : ascii) (s : string) : string :=
  match s with
  | EmptyString => EmptyString
  | String a s' =>
      if Ascii.eqb a c && negb (includes s' (String c EmptyString)) then s'
      else if includes s (String c EmptyString) then afterLast c s' else s
  end.

Definition simpleURL (url : string) : option URL :=
  let (scheme, r) := span isSchemeChar url in
  match scheme with
  | EmptyString => None
  | String c _ =>
      if isAlpha c && startsWith r "://" then
        let (authority, r1) :=
          span (fun a => negb ((code a =? 47) || (code a =? 63) || (code a =? 35)))
               (substring_from 3 r) in
        let hostport := afterLast "@" authority in
        let (host, _) := span (fun a => negb (code a =? 58)) hostport in
        let (path, _) := span (fun a => negb ((code a =? 63) || (code a =? 35))) r1 in
        if nonEmpty host
        then Some {| hostname := toLowerCase host; pathname := orElse path "/" |}
        else None
      else None
  end.

End Urls.


(* ================================================================== *)
(** ** URL frequency ranker (route.ts, lines 681-688 and 812-825) *)
(* ================================================================== *)

Module Ranker.
Import JS JSArray State.

(** One result of a search response. *)
Record SearchHit := {
  hit_url : string;
  hit_title : option string;
  hit_description : option string
}.

(** [researchState.urlFrequencyMap]: a [Map] from URL to entry, as the list
    of its entries in insertion order. *)
Definition FrequencyMap : Type := list (string * UrlEntry).

(** [map.get(key)] *)
Fixpoint map_get (key : string) (m : FrequencyMap) : option UrlEntry :=
  match m with
  | [] => None
  | (k, e) :: m' => if String.eqb k key then Some e else map_get key m'
  end.

(** [existing.frequency += 1] on the entry stored under [key]; the entry
    keeps its place in the map. *)
Fixpoint bump (key : string) (m : FrequencyMap) : FrequencyMap :=
  match m with
  | [] => []
  | (k, e) :: m' =>
      if String.eqb k key
      then (k, {| url := url e; frequency := frequency e + 1; title := title e |}) :: m'
      else (k, e) :: bump key m'
  end.

(** The callback of [searchResult.data.forEach] (lines 813-825) without the
    push on [allUrls]. *)
Definition recordHit (m : FrequencyMap) (result : SearchHit) : FrequencyMap :=
  match map_get (hit_url result) m with
  | Some existing => bump (hit_url result) m
  | None =>
      m ++ [(hit_url result,
             {| url := hit_url result; frequency := 1; title := hit_title result |})]
  end.

(** One successful search response. *)
Definition recordResponse (m : FrequencyMap) (data : list SearchHit) : FrequencyMap :=
  foldl recordHit m data.

(** [(a, b) => b.frequency - a.frequency] *)
Definition byFrequency (a b : UrlEntry) : Z :=
  (Z.of_nat (frequency b) - Z.of_nat (frequency a))%Z.

(** [Array.from(urlFrequencyMap.values())] *)
Definition values (m : FrequencyMap) : list UrlEntry := List.map snd m.

Definition getUrlsToProcess (urlFrequencyMap : FrequencyMap)
    (processedUrls : gset string) : list string :=
  let sortedUrls :=
    List.filter (fun u => negb (bool_decide (u ∈ processedUrls)))
      (List.map url (sort byFrequency (values urlFrequencyMap))) in
  take 3 sortedUrls.

(** The entries of [l] whose frequency is [f], in the order of [l]. *)
Definition withFrequency (f : nat) (l : list UrlEntry) : list UrlEntry :=
  List.filter (fun e => frequency e =? f) l.

(** [sorted] is the stable sort of [l] by descending frequency. *)
Definition stableDescending (l sorted : list UrlEntry) : Prop :=
  sorted ≡ₚ l /\
  StronglySorted (fun a b => frequency b <= frequency a) sorted /\
  forall f : nat, withFrequency f sorted = withFrequency f l.

Definition hit (u : string) : SearchHit :=
  {| hit_url := u; hit_title := None; hit_description := None |}.

End Ranker.


(* ================================================================== *)
(** ** Extraction with retry (route.ts, lines 454-529) *)
(* ================================================================== *)

Module Extractor.
Import JS Async Json State.

(** What [app.extract] resolves to: [data] is [None] when the property is
    absent. *)
Record ExtractResponse := { success : bool; data : option JValue }.

(** What [app.scrapeUrl] resolves to. *)
Record ScrapeResponse := { scrape_success : bool; markdown : option string }.

(** The scripted capabilities seen by one call of [extractWithRetry]:
    - [extractReply i] is the settlement, in iteration [i], of the race
      between [app.extract] and the timer of 35 seconds (a timeout is a
      rejection with the message [timeout]);
    - [scrapeReply i] is the settlement of [app.scrapeUrl] when iteration
      [i] calls it. *)
Record Capabilities := {
  extractReply : nat -> Outcome ExtractResponse;
  scrapeReply : nat -> Outcome ScrapeResponse
}.

(** What the function does to the outside, in order. *)
Inductive Event : Type :=
| CallExtract (url : string) (i : nat)
| CallScrape (url : string) (i : nat)
| Sleep (ms : nat).

(** [typeof v === 'string' ? v : JSON.stringify(v)], where [None] is
    [undefined] on both sides. *)
Definition textOf (v : option JValue) : option string :=
  match v with
  | Some (JStr s) => Some s
  | Some j => Some (stringify j)
  | None => None
  end.

(** [items.map(f)] for a callback that may throw. *)
Fixpoint mapOutcome {A B : Type} (f : A -> Outcome B) (l : list A) : Outcome (list B) :=
  match l with
  | [] => Resolved []
  | x :: l' =>
      y ← f x;
      ys ← mapOutcome f l';
      Resolved (y :: ys)
  end.

(** Lines 463-470: the payload of a successful response as findings. *)
Definition normalize (url : string) (result : ExtractResponse) : Outcome (list Finding) :=
  match data result with
  | Some (JArr items) =>
      mapOutcome
        (fun item =>
           d ← getProp item "data";
           Resolved {| text := textOf d; source := url |})
        items
  | d => Resolved [ {| text := textOf d; source := url |} ]
  end.

(** The sentinel of line 473: the text [Q names Q :[]] where Q is the double
    quote. *)
Definition sentinel : string := dq +:+ "names" +:+ dq +:+ ":[]".

(** The condition of line 473. *)
Definition looksEmpty (result : ExtractResponse) : bool :=
  negb (success result) ||
  negb (truthyOpt (data result)) ||
  match data result with
  | Some v => includes (stringify v) sentinel
  | None => false
  end.

(** [s && true] for an optional string. *)
Definition truthyText (o : option string) : bool :=
  match o with Some s => nonEmpty s | None => false end.

(** Lines 476-486: the scrape fallback with its own [try]/[catch]; [None]
    when it does not return. *)
Definition scrapeFallback (url : string) (reply : Outcome ScrapeResponse)
    : option (list Finding) :=
  match reply with
  | Resolved scrapeResult =>
      if scrape_success scrapeResult && truthyText (markdown scrapeResult)
      then Some [ {| text := substring_to 2000 <$> markdown scrapeResult;
                     source := url |} ]
      else None
  | Rejected scrapeError => None
  end.

(** How one iteration of the [for] loop ends. *)
Inductive Step : Type :=
| Return (fs : list Finding)
| Next.

(** Lines 457-487: the body of the outer [try] block. *)
Definition tryBody (w : Capabilities) (url : string) (i : nat)
    : Outcome (Step * list Event) :=
  result ← extractReply w i;
  if success result then
    fs ← normalize url result;
    Resolved (Return fs, [])
  else if looksEmpty result then
    match scrapeFallback url (scrapeReply w i) with
    | Some fs => Resolved (Return fs, [CallScrape url i])
    | None => Resolved (Next, [CallScrape url i])
    end
  else Resolved (Next, []).

(** One iteration: the [try] block and the [catch] clause of lines 488-491,
    which logs the message and backs off for [1000 * 2 ** i] ms. *)
Definition attempt (w : Capabilities) (url : string) (i : nat) : Step * list Event :=
  match tryBody w url i with
  | Resolved (s, evs) => (s, CallExtract url i :: evs)
  | Rejected err => (Next, [CallExtract url i; Sleep (1000 * 2 ^ i)])
  end.

(** [for (let i = 0; i <= retries; i++)] with [n] iterations left, and the
    [return []] of line 493. *)
Fixpoint attemptsFrom (w : Capabilities) (url : string) (n i : nat)
    : Outcome (list Finding) * list Event :=
  match n with
  | O => (Resolved [], [])
  | S n' =>
      match attempt w url i with
      | (Return fs, evs) => (Resolved fs, evs)
      | (Next, evs) =>
          let (r, evs') := attemptsFrom w url n' (S i) in (r, evs ++ evs')
      end
  end.

(** [extractWithRetry(url, prompt)] with the default [retries = 2]: the
    settlement of the returned promise and the events in order. *)
Definition extractWithRetry (w : Capabilities) (url prompt : string)
    : Outcome (list Finding) * list Event :=
  attemptsFrom w url (2 + 1) 0.

Definition isScrape (e : Event) : bool :=
  match e with CallScrape _ _ => true | _ => false end.

End Extractor.


(* ================================================================== *)
(** ** Searcher (route.ts, lines 360-380) *)
(* ================================================================== *)

Module Searcher.
Import JS Async Ranker.

(** What [app.search] resolves to. *)
Record SearchResponse := { success : bool; data : list SearchHit }.

(** [for (let i = 0; i <= retries; i++)] with [n] iterations left; the
    pauses between the attempts are not recorded. *)
Fixpoint searchFrom (reply : nat -> Outcome SearchResponse) (retries n i : nat)
    : Outcome SearchResponse :=
  match n with
  | O => Rejected {| message := "Search failed after 4 attempts" |}
  | S n' =>
      match reply i with
      | Resolved result =>
          if success result then Resolved result
          else searchFrom reply retries n' (S i)
      | Rejected error =>
          if i =? retries then Rejected error
          else searchFrom reply retries n' (S i)
      end
  end.

(** [searchWithRetry(query)] with the default [retries = 3]; [reply i] is
    the settlement of the [i]-th call of [app.search]. *)
Definition searchWithRetry (reply : nat -> Outcome SearchResponse)
    : Outcome SearchResponse :=
  searchFrom reply 3 (3 + 1) 0.

End Searcher.

(* ================================================================== *)
(** ** The research loop of [handleBrowseCompRequest] (route.ts, lines
       607-623 and 714-925) *)
(* ================================================================== *)

Module Loop.
Import JS Async Json State Terms Ranker.

(** The record [AnalysisResult] of lines 68-79, as [analyzeAndPlan] is
    declared to return it. *)
Module Result.
Record AnalysisResult := {
  summary : string;
  hasAnswer : bool;
  confidence : string;
  gaps : list string;
  shouldContinue : bool;
  nextSearchTopic : option string;
  urlToSearch : option string;
  subquestions : option (list string);
  subAnswer : option string;
  lastQuery : option string
}.
End Result.

(** The record [ResearchState] of lines 51-66 with the fields that eval
    mode initialises. *)
Record ResearchState := {
  findings : list Finding;
  summaries : list string;
  nextSearchTopic : string;
  currentDepth : nat;
  failedAttempts : nat;
  maxFailedAttempts : nat;
  processedUrls : gset string;
  subquestions : list string;
  answeredSubquestions : list string;
  subAnswers : list (string * string);
  urlFrequencyMap : FrequencyMap
}.

Definition withFindings (st : ResearchState) (v : list Finding) : ResearchState :=
  {| findings := v; summaries := summaries st; nextSearchTopic := nextSearchTopic st;
     currentDepth := currentDepth st; failedAttempts := failedAttempts st;
     maxFailedAttempts := maxFailedAttempts st; processedUrls := processedUrls st;
     subquestions := subquestions st; answeredSubquestions := answeredSubquestions st;
     subAnswers := subAnswers st; urlFrequencyMap := urlFrequencyMap st |}.

Definition withSummaries (st : ResearchState) (v : list string) : ResearchState :=
  {| findings := findings st; summaries := v; nextSearchTopic := nextSearchTopic st;
     currentDepth := currentDepth st; failedAttempts := failedAttempts st;
     maxFailedAttempts := maxFailedAttempts st; processedUrls := processedUrls st;
     subquestions := subquestions st; answeredSubquestions := answeredSubquestions st;
     subAnswers := subAnswers st; urlFrequencyMap := urlFrequencyMap st |}.

Definition withNextSearchTopic (st : ResearchState) (v : string) : ResearchState :=
  {| findings := findings st; summaries := summaries st; nextSearchTopic := v;
     currentDepth := currentDepth st; failedAttempts := failedAttempts st;
     maxFailedAttempts := maxFailedAttempts st; processedUrls := processedUrls st;
     subquestions := subquestions st; answeredSubquestions := answeredSubquestions st;
     subAnswers := subAnswers st; urlFrequencyMap := urlFrequencyMap st |}.

Definition withCurrentDepth (st : ResearchState) (v : nat) : ResearchState :=
  {| findings := findings st; summaries := summaries st; nextSearchTopic := nextSearchTopic st;
     currentDepth := v; failedAttempts := failedAttempts st;
     maxFailedAttempts := maxFailedAttempts st; processedUrls := processedUrls st;
     subquestions := subquestions st; answeredSubquestions := answeredSubquestions st;
     subAnswers := subAnswers st; urlFrequencyMap := urlFrequencyMap st |}.

Definition withFailedAttempts (st : ResearchState) (v : nat) : ResearchState :=
  {| findings := findings st; summaries := summaries st; nextSearchTopic := nextSearchTopic st;
     currentDepth := currentDepth st; failedAttempts := v;
     maxFailedAttempts := maxFailedAttempts st; processedUrls := processedUrls st;
     subquestions := subquestions st; answeredSubquestions := answeredSubquestions st;
     subAnswers := subAnswers st; urlFrequencyMap := urlFrequencyMap st |}.

Definition withProcessedUrls (st : ResearchState) (v : gset string) : ResearchState :=
  {| findings := findings st; summaries := summaries st; nextSearchTopic := nextSearchTopic st;
     currentDepth := currentDepth st; failedAttempts := failedAttempts st;
     maxFailedAttempts := maxFailedAttempts st; processedUrls := v;
     subquestions := subquestions st; answeredSubquestions := answeredSubquestions st;
     subAnswers := subAnswers st; urlFrequencyMap := urlFrequencyMap st |}.

Definition withSubquestions (st : ResearchState) (v : list string) : ResearchState :=
  {| findings := findings st; summaries := summaries st; nextSearchTopic := nextSearchTopic st;
     currentDepth := currentDepth st; failedAttempts := failedAttempts st;
     maxFailedAttempts := maxFailedAttempts st; processedUrls := processedUrls st;
     subquestions := v; answeredSubquestions := answeredSubquestions st;
     subAnswers := subAnswers st; urlFrequencyMap := urlFrequencyMap st |}.

Definition withAnsweredSubquestions (st : ResearchState) (v : list string) : ResearchState :=
  {| findings := findings st; summaries := summaries st; nextSearchTopic := nextSearchTopic st;
     currentDepth := currentDepth st; failedAttempts := failedAttempts st;
     maxFailedAttempts := maxFailedAttempts st; processedUrls := processedUrls st;
     subquestions := subquestions st; answeredSubquestions := v;
     subAnswers := subAnswers st; urlFrequencyMap := urlFrequencyMap st |}.

Definition withSubAnswers (st : ResearchState) (v : list (string * string)) : ResearchState :=
  {| findings := findings st; summaries := summaries st; nextSearchTopic := nextSearchTopic st;
     currentDepth := currentDepth st; failedAttempts := failedAttempts st;
     maxFailedAttempts := maxFailedAttempts st; processedUrls := processedUrls st;
     subquestions := subquestions st; answeredSubquestions := answeredSubquestions st;
     subAnswers := v; urlFrequencyMap := urlFrequencyMap st |}.

Definition withUrlFrequencyMap (st : ResearchState) (v : FrequencyMap) : ResearchState :=
  {| findings := findings st; summaries := summaries st; nextSearchTopic := nextSearchTopic st;
     currentDepth := currentDepth st; failedAttempts := failedAttempts st;
     maxFailedAttempts := maxFailedAttempts st; processedUrls := processedUrls st;
     subquestions := subquestions st; answeredSubquestions := answeredSubquestions st;
     subAnswers := subAnswers st; urlFrequencyMap := v |}.

(** The two states agree on the counters, the findings, the frequency map
    and the processed URLs. *)
Definition sameCore (st st' : ResearchState) : Prop :=
  currentDepth st' = currentDepth st /\
  failedAttempts st' = failedAttempts st /\
  maxFailedAttempts st' = maxFailedAttempts st /\
  findings st' = findings st /\
  urlFrequencyMap st' = urlFrequencyMap st /\
  processedUrls st' = processedUrls st.

(** Lines 608-609 and 611-623. *)
Definition timeLimit : Z := 210000.       (* 3.5 * 60 * 1000 *)
Definition maxDepth : nat := 6.

Definition initialState : ResearchState :=
  {| findings := []; summaries := []; nextSearchTopic := EmptyString;
     currentDepth := 0; failedAttempts := 0; maxFailedAttempts := 3;
     processedUrls := ∅; subquestions := []; answeredSubquestions := [];
     subAnswers := []; urlFrequencyMap := [] |}.

(** What the outside world answers during one iteration of the loop:
    - [elapsed]: [Date.now() - startTime] read at the top of the iteration;
    - [generated]: the array that lines 756-776 obtain from the reply of the
      model to the subquestion prompt, or the error thrown on the way;
    - [searchReply q i]: the settlement of the [i]-th call of [app.search]
      for the [q]-th of the five queries;
    - [extractionPrompt]: the prompt built from the constraints that the
      model returned for this iteration;
    - [capabilities url]: the extract and scrape replies for [url];
    - [analysisReply]: what [analyzeAndPlan] resolves to, [None] for a
      falsy value. *)
Record HopScript := {
  elapsed : Z;
  generated : Outcome (list JValue);
  searchReply : nat -> nat -> Outcome Searcher.SearchResponse;
  extractionPrompt : string;
  capabilities : string -> Extractor.Capabilities;
  analysisReply : option Result.AnalysisResult
}.

(** How the body of the loop ends: [continue] (or its last statement), or
    [break]. *)
Inductive Flow : Type := Continue | Break.

Section Research.
(** [new URL(url)] of the platform. *)
Variable parseURL : string -> option Urls.URL.
(** The question: [messages[messages.length - 1].content]. *)
Variable lastUserMessage : string.

(** [typeof q === 'string' && q.length > 10 && q.length < 100] *)
Definition usableSubquestion (q : JValue) : option string :=
  match q with
  | JStr s => if (10 <? String.length s) && (String.length s <? 100) then Some s else None
  | _ => None
  end.

(** Lines 724-796: the search topic of the hop, before the override. *)
Definition selectTopic (h : HopScript) (st : ResearchState) : string * ResearchState :=
  if currentDepth st =? 1 then (lastUserMessage, st)
  else
    match subquestions st with
    | q :: rest =>
        (* subquestions.shift(), answeredSubquestions.push(searchTopic) *)
        (q, withAnsweredSubquestions (withSubquestions st rest)
              (answeredSubquestions st ++ [q]))
    | [] =>
        if negb (nonEmpty (nextSearchTopic st)) || isGeneric (nextSearchTopic st) then
          match generated h with
          | Resolved parsed =>
              let initialSubs := take 8 (omap usableSubquestion parsed) in
              if 0 <? length initialSubs then
                match subquestions st ++ initialSubs with
                | q :: rest =>
                    (orElse q (generateFallbackQuery lastUserMessage),
                     withSubquestions st rest)
                | [] => (generateFallbackQuery lastUserMessage, st)
                end
              else (generateFallbackQuery lastUserMessage, st)
          | Rejected err => (extractKeyTerms lastUserMessage, st)
          end
        else (nextSearchTopic st, st)
    end.

(** Lines 724-801: the topic with the override of lines 798-801. *)
Definition chooseTopic (h : HopScript) (st : ResearchState) : string * ResearchState :=
  let (searchTopic, st) := selectTopic h st in
  if (2 <=? failedAttempts st) && (length (findings st) =? 0)
  then (generateFallbackQuery lastUserMessage, st)
  else (searchTopic, st).

(** Lines 806-831: five searches of the same topic; a search that fails
    after its retries is logged and skipped. *)
Definition recordSearch (h : HopScript) (m : FrequencyMap) (q : nat) : FrequencyMap :=
  match Searcher.searchWithRetry (searchReply h q) with
  | Resolved searchResult =>
      if Searcher.success searchResult
      then recordResponse m (Searcher.data searchResult)
      else m
  | Rejected error => m
  end.

Definition runSearches (h : HopScript) (m : FrequencyMap) : FrequencyMap :=
  foldl (recordSearch h) m (seq 0 5).

(** [extractFromUrls] (lines 496-529): the URLs that pass the filter are
    extracted one after the other. *)
Definition extractFromUrls (caps : string -> Extractor.Capabilities)
    (urls : list string) (extractionPrompt : string) : list Finding :=
  let filteredUrls := Urls.filterUrls parseURL urls in
  foldl (fun results url =>
           match fst (Extractor.extractWithRetry (caps url) url extractionPrompt) with
           | Resolved extractResults =>
               if 0 <? length extractResults then results ++ extractResults
               else results
           | Rejected error => results
           end)
        [] filteredUrls.

Definition truthyText (o : option string) : bool :=
  match o with Some s => nonEmpty s | None => false end.

(** Lines 898-907. *)
Definition shouldStop (analysis : Result.AnalysisResult) (st : ResearchState) : bool :=
  (Result.hasAnswer analysis && String.eqb (Result.confidence analysis) "high"
     && (3 <=? length (findings st))) ||
  (Result.hasAnswer analysis && String.eqb (Result.confidence analysis) "medium"
     && (6 <=? length (findings st))) ||
  (8 <=? length (findings st)).

(** [failedAttempts++] followed by the test against [maxFailedAttempts]
    (lines 839-843 and 871-875). *)
Definition failAttempt (st : ResearchState) : Flow * ResearchState :=
  let st := withFailedAttempts st (failedAttempts st + 1) in
  if maxFailedAttempts st <=? failedAttempts st then (Break, st) else (Continue, st).

(** Lines 868-924: the part of the hop that follows the extraction. *)
Definition analyse (h : HopScript) (searchTopic : string) (st : ResearchState)
    : Flow * ResearchState :=
  match analysisReply h with
  | None => failAttempt st
  | Some analysis =>
      let st :=
        if truthyText (Result.subAnswer analysis) && nonEmpty searchTopic
        then withSubAnswers st
               (subAnswers st ++ [(searchTopic, default EmptyString (Result.subAnswer analysis))])
        else st in
      let st :=
        match Result.subquestions analysis with
        | Some qs =>
            if 0 <? length qs then
              let newSubs :=
                List.filter (fun q => negb (JSArray.set_has q (subquestions st)) &&
                                      negb (JSArray.set_has q (answeredSubquestions st))) qs in
              withSubquestions st (subquestions st ++ newSubs)
            else st
        | None => st
        end in
      let st := withSummaries st (summaries st ++ [Result.summary analysis]) in
      if shouldStop analysis st then (Break, st)
      else if negb (Result.shouldContinue analysis) then (Break, st)
      else (Continue,
            withNextSearchTopic st (default EmptyString (Result.nextSearchTopic analysis)))
  end.

(** The URLs that the hop ranks for extraction (line 835). *)
Definition topUrlsOf (h : HopScript) (st : ResearchState) : list string :=
  getUrlsToProcess (runSearches h (urlFrequencyMap st)) (processedUrls st).

(** Lines 724-924: the body of the loop after [currentDepth++]. *)
Definition hop (h : HopScript) (st : ResearchState) : Flow * ResearchState :=
  let (searchTopic, st) := chooseTopic h st in
  let st := withUrlFrequencyMap st (runSearches h (urlFrequencyMap st)) in
  let topUrls := getUrlsToProcess (urlFrequencyMap st) (processedUrls st) in
  if length topUrls =? 0 then failAttempt st
  else
    let st := withProcessedUrls st (list_to_set topUrls ∪ processedUrls st) in
    if length topUrls =? 0 then (Break, st)
    else
      let newFindings := extractFromUrls (capabilities h) topUrls (extractionPrompt h) in
      let st := withFindings st (findings st ++ newFindings) in
      analyse h searchTopic st.

(** [script k] is what the world answers during the [k]-th iteration. *)
Variable script : nat -> HopScript.

(** The [while] loop of line 714 from its [k]-th iteration on, with the
    state at the top of that iteration; the result is the state at the exit
    of the loop and the number of hops that were run.  [None]: the fuel ran
    out. *)
Fixpoint researchLoop (fuel k : nat) (st : ResearchState)
    : option (ResearchState * nat) :=
  match fuel with
  | O => None
  | S fuel' =>
      if currentDepth st <? maxDepth then
        if (timeLimit <=? elapsed (script k))%Z then Some (st, 0)
        else
          match hop (script k) (withCurrentDepth st (currentDepth st + 1)) with
          | (Break, st') => Some (st', 1)
          | (Continue, st') =>
              match researchLoop fuel' (S k) st' with
              | Some (final, n) => Some (final, S n)
              | None => None
              end
          end
      else Some (st, 0)
  end.

(** The states at the top of the iterations that the loop goes through,
    from its [k]-th iteration on. *)
Fixpoint loopTops (fuel k : nat) (st : ResearchState) : list ResearchState :=
  match fuel with
  | O => []
  | S fuel' =>
      st ::
      (if currentDepth st <? maxDepth then
         if (timeLimit <=? elapsed (script k))%Z then []
         else
           match hop (script k) (withCurrentDepth st (currentDepth st + 1)) with
           | (Break, _) => []
           | (Continue, st') => loopTops fuel' (S k) st'
           end
       else [])
  end.

(** The states at the top of the iterations of a run, as a relation. *)
Inductive AtTop : nat -> ResearchState -> Prop :=
| at_start : AtTop 0 initialState
| at_next (k : nat) (st st' : ResearchState) :
    AtTop k st ->
    currentDepth st < maxDepth ->
    (elapsed (script k) < timeLimit)%Z ->
    hop (script k) (withCurrentDepth st (currentDepth st + 1)) = (Continue, st') ->
    AtTop (S k) st'.

(** The statement of the specification about [failedAttempts]: a search of
    the hop failed after all its retries. *)
Definition searchFailed (h : HopScript) (q : nat) : bool :=
  match Searcher.searchWithRetry (searchReply h q) with
  | Resolved _ => false
  | Rejected _ => true
  end.

Definition someSearchFailed (h : HopScript) : bool :=
  existsb (searchFailed h) (seq 0 5).

(** The hop reaches the analysis and the analysis is null. *)
Definition nullAnalysis (h : HopScript) (st : ResearchState) : bool :=
  negb (length (topUrlsOf h st) =? 0) &&
  match analysisReply h with None => true | Some _ => false end.

(** The hop finds no URL to process. *)
Definition noNewUrls (h : HopScript) (st : ResearchState) : bool :=
  length (topUrlsOf h st) =? 0.

End Research.

(** Two scripted hops for the examples.  In [quietHop] every search
    succeeds with an empty result.  In [partialHop] the first search finds
    one page and the four others fail at every attempt; the page is
    extracted and the analysis asks to continue. *)
Definition continuing : Result.AnalysisResult :=
  {| Result.summary := "nothing yet"; Result.hasAnswer := false;
     Result.confidence := "low"; Result.gaps := []; Result.shouldContinue := true;
     Result.nextSearchTopic := None; Result.urlToSearch := None;
     Result.subquestions := None; Result.subAnswer := None; Result.lastQuery := None |}.

(** The extract call succeeds with the sentinel payload and a scrape would
    succeed. *)
Definition sentinelPage : Extractor.Capabilities :=
  {| Extractor.extractReply := fun _ =>
       Resolved {| Extractor.success := true;
                   Extractor.data := Some (JObj [("names", JArr [])]) |};
     Extractor.scrapeReply := fun _ =>
       Resolved {| Extractor.scrape_success := true;
                   Extractor.markdown := Some "# Page" |} |}.

Definition offline : Extractor.Capabilities :=
  {| Extractor.extractReply := fun _ => Rejected {| message := "timeout" |};
     Extractor.scrapeReply := fun _ => Rejected {| message := "offline" |} |}.

Definition quietHop : HopScript :=
  {| elapsed := 0;
     generated := Resolved [];
     searchReply := fun _ _ => Resolved {| Searcher.success := true; Searcher.data := [] |};
     extractionPrompt := "prompt";
     capabilities := fun _ => offline;
     analysisReply := Some continuing |}.

Definition partialHop : HopScript :=
  {| elapsed := 0;
     generated := Resolved [];
     searchReply := fun q _ =>
       if q =? 0
       then Resolved {| Searcher.success := true;
                        Searcher.data := [hit "https://example.org/page"] |}
       else Rejected {| message := "search is down" |};
     extractionPrompt := "prompt";
     capabilities := fun _ =>
       {| Extractor.extractReply := fun _ =>
            Resolved {| Extractor.success := true; Extractor.data := Some (JStr "a fact") |};
          Extractor.scrapeReply := fun _ => Rejected {| message := "offline" |} |};
     analysisReply := Some continuing |}.

(** A script whose clock has reached the time limit at the first
    iteration. *)
Definition lateHop : HopScript :=
  {| elapsed := 210000;
     generated := Resolved [];
     searchReply := fun _ _ => Resolved {| Searcher.success := true; Searcher.data := [] |};
     extractionPrompt := "prompt";
     capabilities := fun _ => offline;
     analysisReply := Some continuing |}.

(** The end of the handler (lines 998-1018): the content of the response
    for the text [finalText] of the synthesis. *)
Definition hardFallback : string :=
  "Explanation: The research did not produce a specific match for the requested constraints."
    +:+ nl +:+ "Exact Answer: Unknown" +:+ nl +:+ "Confidence: 0%".

Definition responseContent (finalText lastUserMessage : string) : string :=
  let formattedResult := Formatter.ensureValidBrowseCompFormat finalText lastUserMessage in
  if negb (includes formattedResult "Exact Answer:") then hardFallback
  else formattedResult.

End Loop.


(* ================================================================== *)
(** ** Notions used to state further properties of the code *)
(* ================================================================== *)

Module Shape.
Import JS Regex Json.

(** The text [s] matches the literal [w] at its start, under the
    comparison of code units of the flags. *)
Fixpoint ci_prefix (fl : flags) (w s : string) : bool :=
  match w, s with
  | EmptyString, _ => true
  | String c w', String a s' => chr_eq fl a c && ci_prefix fl w' s'
  | String _ _, EmptyString => false
  end.

(** A section starts with [label] once it is trimmed and put in lower
    case. *)
Definition sectionStarts (label s : string) : bool :=
  startsWith (toLowerCase (trim s)) label.

(** The text is made of three sections separated by line feeds, which
    start with the three labels, in any case. *)
Definition threeSections (out : string) : Prop :=
  exists e a c : string,
    out = e +:+ nl +:+ a +:+ nl +:+ c /\
    sectionStarts "explanation:" e = true /\
    sectionStarts "exact answer:" a = true /\
    sectionStarts "confidence:" c = true.

(** Every code unit of the text is white space. *)
Fixpoint allWhiteSpace (s : string) : bool :=
  match s with
  | EmptyString => true
  | String c s' => isWhiteSpace c && allWhiteSpace s'
  end.

(** The three JSON values that are falsy without being [null]. *)
Definition falsyLiteral (v : JValue) : bool :=
  match v with
  | JBool false => true
  | JNum 0 => true
  | JStr EmptyString => true
  | _ => false
  end.

(** How a salvage tier settles on [v] from the parsed value: the value of
    [analysis] when it is truthy, else the parsed value itself, which must
    then satisfy [accepted]. *)
Definition salvagedFrom (accepted : JValue -> bool) (parsed v : JValue) : Prop :=
  match Analysis.keyValue "analysis" parsed with
  | Some a =>
      if truthy a then v = a
      else v = parsed /\ accepted parsed = true
  | None => v = parsed /\ accepted parsed = true
  end.

End Shape.

Module Tally.
Import JS JSArray State Urls Ranker.

(** The frequency recorded for [u], 0 for a URL that has no entry. *)
Definition frequencyOf (u : string) (m : FrequencyMap) : nat :=
  match map_get u m with
  | Some e => frequency e
  | None => 0
  end.

(** The distinct elements of [l] in the order of their first occurrence. *)
Definition firstOccurrences (l : list string) : list string :=
  foldl set_add [] l.

(** The URLs of all the hits of a list of search responses, in order. *)
Definition hitUrls (responses : list (list SearchHit)) : list string :=
  List.map hit_url (concat responses).

(** The map after the given successful responses, from an empty map. *)
Definition recorded (responses : list (list SearchHit)) : FrequencyMap :=
  foldl recordResponse [] responses.

(** The URLs of the map that are not processed yet. *)
Definition unprocessed (m : FrequencyMap) (processedUrls : gset string) : list string :=
  List.filter (fun u => negb (bool_decide (u ∈ processedUrls)))
    (List.map url (values m)).

(** The entry is stored under its own URL. *)
Definition keyed (kv : string * UrlEntry) : Prop := url (snd kv) = fst kv.

End Tally.

Module Trace.
Import JS Async Extractor.

(** The numbers of the iterations that call [app.extract], in order. *)
Definition extractCalls (evs : list Event) : list nat :=
  omap (fun e => match e with CallExtract _ i => Some i | _ => None end) evs.

(** The numbers of the iterations that call [app.scrapeUrl], in order. *)
Definition scrapeCalls (evs : list Event) : list nat :=
  omap (fun e => match e with CallScrape _ i => Some i | _ => None end) evs.

(** The time spent in the pauses of the [catch] clause, in ms. *)
Definition sleepTotal (evs : list Event) : nat :=
  foldr (fun e acc => match e with Sleep ms => ms + acc | _ => acc end) 0 evs.

(** The event is a call on [url], or a pause. *)
Definition onUrl (url : string) (e : Event) : bool :=
  match e with
  | CallExtract u _ | CallScrape u _ => String.eqb u url
  | Sleep _ => true
  end.

(** The extract call of iteration [i] resolved with an unsuccessful
    response. *)
Definition unsuccessful (w : Capabilities) (i : nat) : Prop :=
  exists result, extractReply w i = Resolved result /\ success result = false.

End Trace.


(* ================================================================== *)
(** ** Planner: [createAnalyzeAndPlan] (route.ts, lines 382-452) *)
(* ================================================================== *)

Module Planner.
Import JS Async Json State Analysis.

(** The function returned by [createAnalyzeAndPlan]: [reply] is the
    settlement of [generateText] and [timeRemainingMinutes] the number that
    lines 384-386 compute from the clock.  An error of the model is caught
    and replaced by the fallback analysis. *)
Definition analyzeAndPlan (reply : Outcome string) (findings : list Finding)
    (timeRemainingMinutes : Q) (question : string) : JValue :=
  match reply with
  | Resolved text => parseAnalysisResponse text findings timeRemainingMinutes question
  | Rejected error => createFallbackAnalysis findings timeRemainingMinutes question
  end.

End Planner.


(* ================================================================== *)
(** ** Key constraints (route.ts, lines 626-679 and 942-951) *)
(* ================================================================== *)

Module Constraints.
Import JS Regex Async Json State Terms Extractor.

Definition flag_s : flags := {| ignoreCase := false; dotAll := true |}.

(** [/\[(.*?)\]/s] *)
Definition bracketRe : regex :=
  Seq (Chr "[") (Seq (Grp 1 (lazy_star Dot)) (Chr "]")).

(** Lines 645-664: the value of [constraints] when the filters are
    reached, from the text of the model: the parsed text, else the parsed
    first bracketed part, else the quoted parts without their quotes, else
    the empty array. *)
Definition parseConstraints (text : string) : JValue :=
  match JSON_parse text with
  | Some parsed => parsed
  | None =>
      match exec flag_s bracketRe text with
      | Some arrayMatch =>
          match JSON_parse (m_text arrayMatch) with
          | Some parsed => parsed
          | None =>
              match match_g no_flags quotesRe text with
              | Some quotes =>
                  JArr (List.map
                          (fun q => JStr (replaceAll no_flags quoteRe EmptyString q))
                          quotes)
              | None => JArr []
              end
          end
      | None => JArr []
      end
  end.

(** [typeof c === 'string' && c.length > 2 && c.length < 50] *)
Definition plainConstraint (c : JValue) : option string :=
  match c with
  | JStr s =>
      if (2 <? String.length s) && (String.length s <? 50) then Some s else None
  | _ => None
  end.

(** Line 677, in the [catch] clause. *)
Definition fallbackConstraints (question : string) : list string :=
  take 5 (split " " (extractKeyTerms question)).

(** [extractConstraintsWithLLM] (lines 626-679); [reply] is the settlement
    of [generateText] with its text.  [constraints.filter] throws a
    [TypeError] when the value is not an array, and the [catch] clause of
    line 674 then answers with the key terms of the question. *)
Definition extractConstraintsWithLLM (question : string) (reply : Outcome string)
    : list string :=
  match reply with
  | Resolved text =>
      match parseConstraints text with
      | JArr constraints =>
          take 8
            (List.filter (fun c : string => negb (includes (toLowerCase c) "confidence"))
              (List.filter (fun c : string => negb (includes (toLowerCase c) "explanation"))
                (omap plainConstraint constraints)))
      | _ => fallbackConstraints question
      end
  | Rejected error => fallbackConstraints question
  end.

(** The array that the filters of lines 667-671 are applied to, when the
    model answered with one. *)
Definition modelConstraints (reply : Outcome string) : option (list JValue) :=
  match reply with
  | Resolved text =>
      match parseConstraints text with
      | JArr constraints => Some constraints
      | _ => None
      end
  | Rejected _ => None
  end.

(** What a constraint of the model satisfies when it is kept. *)
Definition wellFormedConstraint (c : string) : Prop :=
  2 < String.length c < 50 /\
  includes (toLowerCase c) "explanation" = false /\
  includes (toLowerCase c) "confidence" = false.

(** One item of [constraintCoverage]. *)
Record ConstraintCoverage := {
  constraint : string;
  coverage : nat;
  sources : list string
}.

(** [items.filter(f)] for a callback that may throw. *)
Fixpoint filterOutcome {A : Type} (f : A -> Outcome bool) (l : list A)
    : Outcome (list A) :=
  match l with
  | [] => Resolved []
  | x :: l' =>
      b ← f x;
      ys ← filterOutcome f l';
      Resolved (if (b : bool) then x :: ys else ys)
  end.

(** [f.text.toLowerCase().includes(constraint.toLowerCase())]: the method
    call throws on a finding whose text is [undefined]. *)
Definition mentions (constraint : string) (f : Finding) : Outcome bool :=
  match text f with
  | Some t => Resolved (includes (toLowerCase t) (toLowerCase constraint))
  | None =>
      Rejected (TypeError "Cannot read properties of undefined (reading 'toLowerCase')")
  end.

(** Lines 942-951. *)
Definition constraintCoverage (keyConstraints : list string) (findings : list Finding)
    : Outcome (list ConstraintCoverage) :=
  mapOutcome
    (fun constraint =>
       matchingFindings ← filterOutcome (mentions constraint) findings;
       Resolved {| constraint := constraint;
                   coverage := length matchingFindings;
                   sources := List.map source matchingFindings |})
    keyConstraints.

End Constraints.


(* ================================================================== *)
(** ** The eval-mode handler (route.ts, lines 588-600 and 927-1028) *)
(* ================================================================== *)

Module Handler.
Import JS Async Json State Formatter Constraints Loop.

(** A chat message; [content] is [None] when the property is absent. *)
Record Message := { role : string; content : option string }.

(** [messages[messages.length - 1]?.content || ''] *)
Definition lastContent (messages : list Message) : string :=
  match last messages with
  | Some m => default EmptyString (content m)
  | None => EmptyString
  end.

(** The response: its status and the [content] property of its JSON
    body. *)
Record Response := { status : nat; body_content : string }.

(** The replies of the model during the final synthesis: to the
    constraint prompt and to the synthesis prompt. *)
Record Synthesis := {
  constraintReply : Outcome string;
  synthesisReply : Outcome string
}.

(** Lines 927-1018: the content of the response after the loop, or the
    error thrown on the way. *)
Definition finalSynthesis (lastUserMessage : string) (st : ResearchState)
    (s : Synthesis) : Outcome string :=
  let keyConstraints := extractConstraintsWithLLM lastUserMessage (constraintReply s) in
  constraintCoverage ← constraintCoverage keyConstraints (findings st);
  finalAnalysis ← synthesisReply s;
  Resolved (responseContent finalAnalysis lastUserMessage).

(** [handleBrowseCompRequest]: the loop runs with the fuel that always
    suffices, and every error thrown between lines 601 and 1018 is answered
    by the [catch] clause of line 1020. *)
Definition handleBrowseCompRequest (parseURL : string -> option Urls.URL)
    (messages : list Message) (script : nat -> HopScript) (s : Synthesis) : Response :=
  let lastUserMessage := lastContent messages in
  if negb (nonEmpty lastUserMessage) then
    {| status := 200;
       body_content := ensureValidBrowseCompFormat EmptyString "No message provided" |}
  else
    match researchLoop parseURL lastUserMessage script (S maxDepth) 0 initialState with
    | Some (st, hops) =>
        match finalSynthesis lastUserMessage st s with
        | Resolved content => {| status := 200; body_content := content |}
        | Rejected error =>
            {| status := 200;
               body_content := ensureValidBrowseCompFormat EmptyString lastUserMessage |}
        end
    | None =>
        {| status := 200;
           body_content := ensureValidBrowseCompFormat EmptyString lastUserMessage |}
    end.

(** A run for the examples: the search finds one page, the extract call
    succeeds with a response that has no [data], and the analysis asks to
    stop; the model then fails on the constraint prompt and answers the
    synthesis prompt with a well-formed answer. *)
Definition stopping : Result.AnalysisResult :=
  {| Result.summary := "found"; Result.hasAnswer := true;
     Result.confidence := "high"; Result.gaps := []; Result.shouldContinue := false;
     Result.nextSearchTopic := None; Result.urlToSearch := None;
     Result.subquestions := None; Result.subAnswer := None; Result.lastQuery := None |}.

Definition bareHop : HopScript :=
  {| elapsed := 0;
     generated := Resolved [];
     searchReply := fun _ _ =>
       Resolved {| Searcher.success := true;
                   Searcher.data := [Ranker.hit "https://example.org/page"] |};
     extractionPrompt := "prompt";
     capabilities := fun _ =>
       {| Extractor.extractReply := fun _ =>
            Resolved {| Extractor.success := true; Extractor.data := None |};
          Extractor.scrapeReply := fun _ => Rejected {| message := "offline" |} |};
     analysisReply := Some stopping |}.

Definition goodSynthesis : Synthesis :=
  {| constraintReply := Rejected {| message := "model is down" |};
     synthesisReply :=
       Resolved ("Explanation: Acme was founded by Ann." +:+ nl +:+
                 "Exact Answer: Ann" +:+ nl +:+ "Confidence: 90%") |}.

Definition question : list Message :=
  [ {| role := "user"; content := Some "Who founded Acme Corp?" |} ].

End Handler.


(* ================================================================== *)
(** ** Notions used to state the invariants of the research loop *)
(* ================================================================== *)

Module Invariants.
Import JS Async Json State Ranker Tally Loop.

(** Nothing recorded in [st] is lost or reordered in [st']: the findings,
    the summaries, the subquestion answers and the answered subquestions of
    [st] are a prefix of those of [st'], every processed URL stays
    processed, and no frequency decreases. *)
Definition grows (st st' : ResearchState) : Prop :=
  findings st `prefix_of` findings st' /\
  summaries st `prefix_of` summaries st' /\
  subAnswers st `prefix_of` subAnswers st' /\
  answeredSubquestions st `prefix_of` answeredSubquestions st' /\
  processedUrls st ⊆ processedUrls st' /\
  forall u : string,
    frequencyOf u (urlFrequencyMap st) <= frequencyOf u (urlFrequencyMap st').

Section Provenance.
Variable parseURL : string -> option Urls.URL.

(** Every finding comes from a processed URL that the URL filter keeps,
    every processed URL has an entry in the frequency map, and every entry
    is stored under its own URL. *)
Definition provenance (st : ResearchState) : Prop :=
  Forall (fun f => source f ∈ processedUrls st /\
                   Urls.keepUrl parseURL (source f) = true) (findings st) /\
  (forall u : string,
     u ∈ processedUrls st -> is_Some (map_get u (urlFrequencyMap st))) /\
  Forall keyed (urlFrequencyMap st).

End Provenance.

(** The accounts of a run after [hops] hops: every hop is counted once,
    as a failed attempt or by its summary; at most three URLs are processed
    per hop; and the failure counter is within its bound. *)
Definition accounts (hops : nat) (st : ResearchState) : Prop :=
  currentDepth st = hops /\
  length (summaries st) + failedAttempts st = hops /\
  size (processedUrls st) <= 3 * hops /\
  failedAttempts st <= maxFailedAttempts st /\
  maxFailedAttempts st = 3.

End Invariants.


(* ================================================================== *)
(** ** The key terms as a list (route.ts, lines 286-336) *)
(* ================================================================== *)

Module KeyTerms.
Import JS Regex JSArray Terms.

(** [(a, b) => b.length - a.length] *)
Definition byLength (a b : string) : Z :=
  (Z.of_nat (String.length b) - Z.of_nat (String.length a))%Z.

(** The set [keywords] of lines 297-329, in insertion order, when line 331
    is reached. *)
Definition keywords (question : string) : list string :=
  let keywords : list string := [] in
  let keywords :=
    foldl (fun kw m =>
             let g := default EmptyString (group m 1) in
             if longer 2 g then set_add kw (trim g) else kw)
          keywords (matchAll no_flags quotesRe question) in
  let keywords :=
    foldl (fun kw m =>
             let phrase := trim (m_text m) in
             if longer 2 phrase && negb (set_has (toLowerCase phrase) stopwords)
             then set_add kw phrase else kw)
          keywords (matchAll no_flags capsRe question) in
  let keywords := foldl set_add keywords (orEmpty (match_g no_flags recentYearsRe question)) in
  let keywords := foldl set_add keywords (orEmpty (match_g no_flags percentRe question)) in
  foldl set_add keywords
    (take 8
      (List.filter (fun w =>
         longer 4 w &&
         negb (set_has w stopwords) &&
         negb (test no_flags allDigitsRe w) &&
         negb (includes w "explanation") &&
         negb (includes w "answer") &&
         negb (includes w "confidence"))
       (split_re no_flags spacesRe
          (replaceAll no_flags punctRe " " (toLowerCase question))))).

(** The array that line 334 joins: [extractKeyTerms] is the join of this
    list with single spaces. *)
Definition keyTerms (question : string) : list string :=
  take 8 (sort byLength (keywords question)).

End KeyTerms.


(* ================================================================== *)
(** ** Session management and the DELETE handler (route.ts, lines
       531-585 and 1566-1591) *)
(* ================================================================== *)

Module Auth.
Import JS Async.

(** [session.user] with the two properties that the code reads; [None] is
    an absent property. *)
Record User := { user_id : option string; user_email : option string }.

(** What [auth()] resolves to is a session or [null]. *)
Record Session := { session_user : option User }.

(** What [signIn] resolves to. *)
Record SignInResult := { signIn_error : option string }.

(** The scripted capabilities: [authReply i] is the settlement of the
    [i]-th call of [auth], [getUserReply i email] the settlement of the
    [i]-th call of [getUser], made with [email]. *)
Record AuthWorld := {
  authReply : nat -> Outcome (option Session);
  signInReply : Outcome (option SignInResult);
  getUserReply : nat -> option string -> Outcome (list User)
}.

Inductive AuthEvent : Type :=
| CallAuth (i : nat)
| CallSignIn
| CallGetUser (i : nat) (email : option string)
| Wait (ms : nat).

(** [session?.user] *)
Definition userOf (session : option Session) : option User :=
  match session with
  | Some s => session_user s
  | None => None
  end.

(** [!!session?.user] *)
Definition hasUser (session : option Session) : bool :=
  bool_decide (is_Some (userOf session)).

(** [!!session?.user?.id]: the identifier is a string that is not
    empty. *)
Definition hasId (session : option Session) : bool :=
  match userOf session with
  | Some u => match user_id u with Some i => nonEmpty i | None => false end
  | None => false
  end.

(** [session.user.email] *)
Definition emailOf (session : option Session) : option string :=
  match userOf session with
  | Some u => user_email u
  | None => None
  end.

(** [!!result?.error] *)
Definition signInFailed (result : option SignInResult) : bool :=
  match result with
  | Some r => match signIn_error r with Some e => nonEmpty e | None => false end
  | None => false
  end.

(** The [while] loop of lines 544-556 with [retries] rounds left, [a]
    calls of [auth] and [u] calls of [getUser] made so far: the session at
    the exit of the loop and the number of [getUser] calls, or the error
    that one of the calls threw. *)
Fixpoint awaitSession (w : AuthWorld) (retries a u : nat) (session : option Session)
    : Outcome (option Session * nat) * list AuthEvent :=
  match retries with
  | O => (Resolved (session, u), [])
  | S retries' =>
      match authReply w a with
      | Rejected e => (Rejected e, [CallAuth a])
      | Resolved session' =>
          if hasId session' then
            match getUserReply w u (emailOf session') with
            | Rejected e => (Rejected e, [CallAuth a; CallGetUser u (emailOf session')])
            | Resolved users =>
                if 0 <? length users
                then (Resolved (session', S u),
                      [CallAuth a; CallGetUser u (emailOf session')])
                else
                  let (r, evs) := awaitSession w retries' (S a) (S u) session' in
                  (r, [CallAuth a; CallGetUser u (emailOf session'); Wait 1000] ++ evs)
            end
          else
            let (r, evs) := awaitSession w retries' (S a) u session' in
            (r, [CallAuth a; Wait 1000] ++ evs)
      end
  end.

(** Lines 535-566: the anonymous sign-in when the first session has no
    user.  The [catch] clause of line 562 logs and throws the same error
    again. *)
Definition establish (w : AuthWorld) (session : option Session)
    : Outcome (option Session * nat) * list AuthEvent :=
  if hasUser session then (Resolved (session, 0), [])
  else
    match signInReply w with
    | Rejected e => (Rejected e, [CallSignIn])
    | Resolved result =>
        if signInFailed result
        then (Rejected {| message := "Failed to create anonymous session" |}, [CallSignIn])
        else
          match awaitSession w 3 1 0 session with
          | (Resolved (session', u), evs) =>
              if hasUser session' then (Resolved (session', u), CallSignIn :: evs)
              else (Rejected {| message := "Failed to create session" |},
                    CallSignIn :: evs)
          | (Rejected e, evs) => (Rejected e, CallSignIn :: evs)
          end
    end.

(** [ensureAuthenticatedSession] (lines 532-585): the settlement of the
    returned promise and the calls in order. *)
Definition ensureAuthenticatedSession (w : AuthWorld)
    : Outcome Session * list AuthEvent :=
  match authReply w 0 with
  | Rejected e => (Rejected e, [CallAuth 0])
  | Resolved session0 =>
      match establish w session0 with
      | (Rejected e, evs) => (Rejected e, CallAuth 0 :: evs)
      | (Resolved (session, u), evs) =>
          match session with
          | Some s =>
              if hasId session then
                match getUserReply w u (emailOf session) with
                | Resolved users =>
                    if length users =? 0
                    then (Rejected {| message := "Failed to verify user" |},
                          CallAuth 0 :: evs ++ [CallGetUser u (emailOf session)])
                    else (Resolved s,
                          CallAuth 0 :: evs ++ [CallGetUser u (emailOf session)])
                | Rejected e =>
                    (Rejected {| message := "Failed to verify user" |},
                     CallAuth 0 :: evs ++ [CallGetUser u (emailOf session)])
                end
              else (Rejected {| message := "Failed to create session" |},
                    CallAuth 0 :: evs)
          | None =>
              (Rejected {| message := "Failed to create session" |}, CallAuth 0 :: evs)
          end
      end
  end.

(** The calls of one kind among the events. *)
Definition authCalls (evs : list AuthEvent) : nat :=
  length (List.filter (fun e => match e with CallAuth _ => true | _ => false end) evs).
Definition signInCalls (evs : list AuthEvent) : nat :=
  length (List.filter (fun e => match e with CallSignIn => true | _ => false end) evs).
Definition getUserCalls (evs : list AuthEvent) : nat :=
  length (List.filter (fun e => match e with CallGetUser _ _ => true | _ => false end) evs).

(** The session carries a user whose identifier is a string that is not
    empty and who was found by the [i]-th call of [getUser]. *)
Definition verified (w : AuthWorld) (s : Session) (i : nat) : Prop :=
  exists (u : User) (ident : string) (users : list User),
    session_user s = Some u /\
    user_id u = Some ident /\ ident <> EmptyString /\
    getUserReply w i (user_email u) = Resolved users /\ users <> [].

End Auth.

Module Deletion.
Import JS Async Auth.

(** The chat that [getChatById] resolves to; [None] for the owner is an
    absent property. *)
Record Chat := { userId : option string }.

Record World := {
  auth_world : AuthWorld;
  getChatReply : Outcome (option Chat);
  deleteReply : Outcome unit
}.

Inductive Event : Type :=
| DuringSession (e : AuthEvent)
| GetChat (id : string)
| DeleteChat (id : string).

Record Response := { status : nat; body : string }.

Definition failure : Response :=
  {| status := 500; body := "An error occurred while processing your request" |}.

(** [DELETE] (lines 1566-1591); [idParam] is [searchParams.get('id')].
    Reading [chat.userId] of a chat that was not found throws inside the
    [try] block. *)
Definition DELETE (idParam : option string) (w : World) : Response * list Event :=
  match idParam with
  | Some (String c rest as id) =>
      match ensureAuthenticatedSession (auth_world w) with
      | (Rejected e, evs) => (failure, List.map DuringSession evs)
      | (Resolved session, evs) =>
          match getChatReply w with
          | Rejected e => (failure, List.map DuringSession evs ++ [GetChat id])
          | Resolved None => (failure, List.map DuringSession evs ++ [GetChat id])
          | Resolved (Some chat) =>
              if negb (bool_decide (userId chat = (session_user session ≫= user_id)))
              then ({| status := 401; body := "Unauthorized" |},
                    List.map DuringSession evs ++ [GetChat id])
              else
                match deleteReply w with
                | Resolved _ =>
                    ({| status := 200; body := "Chat deleted" |},
                     List.map DuringSession evs ++ [GetChat id; DeleteChat id])
                | Rejected e =>
                    (failure, List.map DuringSession evs ++ [GetChat id; DeleteChat id])
                end
          end
      end
  | _ => ({| status := 404; body := "Not Found" |}, [])
  end.

End Deletion.


(* ================================================================== *)
(** ** The search tool of the chat (route.ts, lines 1406-1444) *)
(* ================================================================== *)

Module Tools.
Import JS Async Urls Ranker.

(** What [app.search] resolves to, with the error text of an
    unsuccessful response; [None] is an absent property. *)
Record SearchToolResponse := {
  success : bool;
  error : option string;
  data : list SearchHit
}.

(** A result with the favicon that the tool adds. *)
Record Decorated := { result : SearchHit; favicon : string }.

(** What the tool returns: [{data, success: true}] or
    [{error, success: false}]. *)
Inductive ToolResult : Type :=
| Success (data : list Decorated)
| Failure (error : string).

Section SearchTool.
(** [new URL(url)] of the platform and the message of the [TypeError]
    that it throws on a text that is not a URL. *)
Variable parseURL : string -> option URL.
Variable invalidUrl : string.

(** The callback of [searchResult.data.map] (lines 1425-1432). *)
Definition withFavicon (r : SearchHit) : Outcome Decorated :=
  match parseURL (hit_url r) with
  | Some url =>
      Resolved {| result := r;
                  favicon := "https://www.google.com/s2/favicons?domain="
                               +:+ hostname url +:+ "&sz=32" |}
  | None => Rejected (TypeError invalidUrl)
  end.

(** The text of [error] inside a template literal. *)
Definition shown (o : option string) : string := default "undefined" o.

(** [execute] of the tool [search]: the argument [maxResults] is not
    read. *)
Definition searchTool (reply : Outcome SearchToolResponse) : ToolResult :=
  match reply with
  | Resolved searchResult =>
      if negb (success searchResult)
      then Failure ("Search failed: " +:+ shown (error searchResult))
      else
        match Extractor.mapOutcome withFavicon (data searchResult) with
        | Resolved resultsWithFavicons => Success resultsWithFavicons
        | Rejected err => Failure ("Search failed: " +:+ message err)
        end
  | Rejected err => Failure ("Search failed: " +:+ message err)
  end.

End SearchTool.

End Tools.


(* ================================================================== *)
(** ** What a successful match means

    [Matches fl r st st']: the pattern [r] can be matched from the state
    [st] and leaves the state [st'].  The matcher is sound for this
    relation: whenever [rmatch] succeeds, its continuation was called on
    such a state. *)
(* ================================================================== *)

Module RegexSpec.
Import JS Regex.

Inductive Matches (fl : flags) : regex -> mstate -> mstate -> Prop :=
| M_eps (st : mstate) : Matches fl Eps st st
| M_chr (c : ascii) (st : mstate) (a : ascii) (s' : string) :
    rest st = String a s' -> chr_eq fl a c = true ->
    Matches fl (Chr c) st (advance st a s')
| M_cls (invert : bool) (p : ascii -> bool) (st : mstate) (a : ascii) (s' : string) :
    rest st = String a s' -> xorb invert (cls_mem fl p a) = true ->
    Matches fl (Cls invert p) st (advance st a s')
| M_dot (st : mstate) (a : ascii) (s' : string) :
    rest st = String a s' -> dot_ok fl a = true ->
    Matches fl Dot st (advance st a s')
| M_seq (r1 r2 : regex) (st st1 st2 : mstate) :
    Matches fl r1 st st1 -> Matches fl r2 st1 st2 ->
    Matches fl (Seq r1 r2) st st2
| M_alt_l (r1 r2 : regex) (st st' : mstate) :
    Matches fl r1 st st' -> Matches fl (Alt r1 r2) st st'
| M_alt_r (r1 r2 : regex) (st st' : mstate) :
    Matches fl r2 st st' -> Matches fl (Alt r1 r2) st st'
| M_rep_stop (max : option nat) (greedy : bool) (r : regex) (st : mstate) :
    Matches fl (Rep 0 max greedy r) st st
| M_rep_full (min : nat) (greedy : bool) (r : regex) (st : mstate) :
    Matches fl (Rep min (Some 0) greedy r) st st
| M_rep_more (min : nat) (max : option nat) (greedy : bool) (r : regex)
    (st st1 st2 : mstate) :
    max <> Some 0 ->
    Matches fl r (clear_caps (groups r) st) st1 ->
    Matches fl (Rep (Nat.pred min) (pred_max max) greedy r) st1 st2 ->
    Matches fl (Rep min max greedy r) st st2
| M_grp (i : nat) (r : regex) (st st1 : mstate) :
    Matches fl r st st1 ->
    Matches fl (Grp i r) st (set_cap i (pos st, pos st1) st1)
| M_look (r : regex) (st st1 : mstate) :
    Matches fl r st st1 ->
    Matches fl (Look r) st (with_caps st (caps st1))
| M_bol (st : mstate) : pos st = 0 -> Matches fl Bol st st
| M_eol (st : mstate) : rest st = EmptyString -> Matches fl Eol st st
| M_wordb (st : mstate) :
    xorb (is_word_opt (prev st)) (is_word_opt (next_char st)) = true ->
    Matches fl WordB st st.

(** [Lang fl r w]: the text [w] is what a match of [r] can consume; an
    assertion (look-ahead, [^], [$], [\b]) consumes nothing. *)
Inductive Lang (fl : flags) : regex -> string -> Prop :=
| L_eps : Lang fl Eps EmptyString
| L_chr (c a : ascii) :
    chr_eq fl a c = true -> Lang fl (Chr c) (String a EmptyString)
| L_cls (invert : bool) (p : ascii -> bool) (a : ascii) :
    xorb invert (cls_mem fl p a) = true ->
    Lang fl (Cls invert p) (String a EmptyString)
| L_dot (a : ascii) : dot_ok fl a = true -> Lang fl Dot (String a EmptyString)
| L_seq (r1 r2 : regex) (w1 w2 : string) :
    Lang fl r1 w1 -> Lang fl r2 w2 -> Lang fl (Seq r1 r2) (w1 +:+ w2)
| L_alt_l (r1 r2 : regex) (w : string) : Lang fl r1 w -> Lang fl (Alt r1 r2) w
| L_alt_r (r1 r2 : regex) (w : string) : Lang fl r2 w -> Lang fl (Alt r1 r2) w
| L_rep_stop (max : option nat) (greedy : bool) (r : regex) :
    Lang fl (Rep 0 max greedy r) EmptyString
| L_rep_full (min : nat) (greedy : bool) (r : regex) :
    Lang fl (Rep min (Some 0) greedy r) EmptyString
| L_rep_more (min : nat) (max : option nat) (greedy : bool) (r : regex)
    (w1 w2 : string) :
    max <> Some 0 ->
    Lang fl r w1 ->
    Lang fl (Rep (Nat.pred min) (pred_max max) greedy r) w2 ->
    Lang fl (Rep min max greedy r) (w1 +:+ w2)
| L_grp (i : nat) (r : regex) (w : string) : Lang fl r w -> Lang fl (Grp i r) w
| L_look (r : regex) : Lang fl (Look r) EmptyString
| L_bol : Lang fl Bol EmptyString
| L_eol : Lang fl Eol EmptyString
| L_wordb : Lang fl WordB EmptyString.

(** A lower bound of the length of the texts of the language. *)
Fixpoint minLen (r : regex) : nat :=
  match r with
  | Chr _ | Cls _ _ | Dot => 1
  | Seq r1 r2 => minLen r1 + minLen r2
  | Alt r1 r2 => Nat.min (minLen r1) (minLen r2)
  | Rep min max _ r1 =>
      match max with
      | Some m => Nat.min min m
      | None => min
      end * minLen r1
  | Grp _ r1 => minLen r1
  | Eps | Look _ | Bol | Eol | WordB => 0
  end.

(** The text without the occurrences of the code unit [c]. *)
Fixpoint removeAll (c : ascii) (s : string) : string :=
  match s with
  | EmptyString => EmptyString
  | String a s' => if Ascii.eqb a c then removeAll c s' else String a (removeAll c s')
  end.

(** The matches of the pattern of one code unit [c] in the rest [s] of
    [input] at position [p]: one match per occurrence. *)
Fixpoint hitsFrom (input : string) (c : ascii) (p : nat) (s : string)
    : list rmatch_result :=
  match s with
  | EmptyString => []
  | String a s' =>
      if Ascii.eqb a c
      then {| m_index := p; m_end := S p;
              m_text := substring p (S p) input; m_groups := [] |}
             :: hitsFrom input c (S p) s'
      else hitsFrom input c (S p) s'
  end.

(** The state is a position of [input]: its rest is the text of [input]
    from its position on. *)
Definition positioned (input : string) (st : mstate) : Prop :=
  rest st = substring_from (pos st) input /\ pos st <= String.length input.

(** Every code unit of the text satisfies [f]. *)
Fixpoint allOf (f : ascii -> bool) (s : string) : bool :=
  match s with
  | EmptyString => true
  | String c s' => f c && allOf f s'
  end.

(** The text is made of one to three decimal digits. *)
Definition shortNumber (s : string) : Prop :=
  allOf isDigit s = true /\ 1 <= String.length s <= 3.

(** The text ends with one to three decimal digits and a percent sign. *)
Definition endsWithPercentage (s : string) : Prop :=
  exists before digits : string,
    s = before +:+ digits +:+ "%" /\ shortNumber digits.

End RegexSpec.


(* ================================================================== *)
(** * Properties *)
(* ================================================================== *)

(** ** Facts about [trim] *)

Section TrimFacts.
Import JS.

Lemma trimStart_length s : String.length (trimStart s) <= String.length s.
Proof.
  induction s as [|c s IH]; simpl; [lia|].
  destruct (isWhiteSpace c); simpl; lia.
Qed.

Lemma trimStart_head c s : isWhiteSpace c = false -> trimStart (String c s) = String c s.
Proof. intros H. simpl. by rewrite H. Qed.

Lemma trimStart_cases s :
  trimStart s = EmptyString \/
  exists c r, trimStart s = String c r /\ isWhiteSpace c = false.
Proof.
  induction s as [|c s IH]; simpl; [by left|].
  destruct (isWhiteSpace c) eqn:E; [exact IH|].
  right. by exists c, s.
Qed.

Lemma trimEnd_idem s : trimEnd (trimEnd s) = trimEnd s.
Proof.
  induction s as [|c s IH]; simpl; [done|].
  destruct (trimEnd s) as [|d r] eqn:E.
  - destruct (isWhiteSpace c) eqn:W; simpl; [done|]. by rewrite W.
  - change (trimEnd (String c (String d r))) with
      (match trimEnd (String d r) with
       | EmptyString => if isWhiteSpace c then EmptyString else String c EmptyString
       | r' => String c r'
       end).
    by rewrite IH.
Qed.

Lemma trimEnd_head c s :
  isWhiteSpace c = false -> exists r, trimEnd (String c s) = String c r.
Proof.
  intros W. simpl. destruct (trimEnd s); rewrite ?W; eauto.
Qed.

(** A string that [trim] gives back starts and ends with a code unit that
    is not white space. *)
Lemma trim_head s c r : trim s = String c r -> isWhiteSpace c = false.
Proof.
  unfold trim. destruct (trimStart_cases s) as [E|(d & t & E & W)]; rewrite E.
  - simpl. discriminate.
  - destruct (trimEnd_head d t W) as [r' Hr]. rewrite Hr. by intros [= <- _].
Qed.

Lemma trim_idem s : trim (trim s) = trim s.
Proof.
  unfold trim.
  destruct (trimStart_cases s) as [E|(d & t & E & W)]; rewrite E; [done|].
  destruct (trimEnd_head d t W) as [r' Hr]. rewrite Hr.
  rewrite (trimStart_head _ _ W). rewrite <- Hr. apply trimEnd_idem.
Qed.

Lemma endsClean_app a b : endsClean b -> endsClean (a +:+ b).
Proof.
  intros [Hne Hb]. induction a as [|c a [IHne IH]]; [done|].
  split; [done|].
  change (String c a +:+ b) with (String c (a +:+ b)).
  cbn [trimEnd]. rewrite IH. by destruct (a +:+ b).
Qed.

Lemma endsClean_trim s : trim s <> EmptyString -> endsClean (trim s).
Proof. intros H. split; [done|]. unfold trim. apply trimEnd_idem. Qed.

Lemma trim_fixed c a b :
  isWhiteSpace c = false -> endsClean b -> trim (String c a +:+ b) = String c a +:+ b.
Proof.
  intros W Hb. unfold trim.
  change (String c a +:+ b) with (String c (a +:+ b)).
  rewrite (trimStart_head _ _ W).
  by destruct (endsClean_app (String c a) b Hb) as [_ ?].
Qed.

End TrimFacts.

(** ** Formatter *)

Section FormatterFacts.
Import JS Regex Formatter.

Lemma trim_clean a b : startsClean a -> endsClean b -> trim (a +:+ b) = a +:+ b.
Proof. intros (c & r & -> & W) Hb. by apply trim_fixed. Qed.

Lemma startsClean_trim s : nonEmpty (trim s) = true -> startsClean (trim s).
Proof.
  destruct (trim s) as [|c r] eqn:E; [done|]. intros _.
  exists c, r. split; [done|]. by apply (trim_head s c r).
Qed.

Lemma nonEmpty_ne s : nonEmpty s = true -> s <> EmptyString.
Proof. by destruct s. Qed.

Lemma section1_trim m : exists s, section1 m = trim s.
Proof.
  destruct m as [r|]; simpl; [by eexists|].
  by exists EmptyString.
Qed.

Lemma noAnswer_trim q : trim (noAnswer q) = noAnswer q.
Proof.
  unfold noAnswer. apply trim_clean.
  - eexists _, _. split; [reflexivity|reflexivity].
  - do 7 apply endsClean_app. split; [done|reflexivity].
Qed.

Lemma labelled_startsClean label lower s :
  startsClean label -> startsClean s -> startsClean (labelled label lower s).
Proof.
  intros (c & r & -> & W) Hs. unfold labelled.
  destruct (negb _); [|done]. by exists c, (r +:+ " " +:+ s).
Qed.

Lemma labelled_endsClean label lower s :
  endsClean s -> endsClean (labelled label lower s).
Proof.
  intros Hs. unfold labelled. destruct (negb _); [|done].
  by do 2 apply endsClean_app.
Qed.

Lemma orElse_section_startsClean m d :
  startsClean d -> startsClean (orElse (section1 m) d).
Proof.
  intros Hd. unfold orElse. destruct (section1_trim m) as [s ->].
  destruct (nonEmpty (trim s)) eqn:E; [|done]. by apply startsClean_trim.
Qed.

Lemma orElse_section_endsClean m d :
  endsClean d -> endsClean (orElse (section1 m) d).
Proof.
  intros Hd. unfold orElse. destruct (section1_trim m) as [s ->].
  destruct (nonEmpty (trim s)) eqn:E; [|done].
  by apply endsClean_trim, nonEmpty_ne.
Qed.

(** Whatever the formatter returns has no leading or trailing white space. *)
Lemma ensureValid_trimmed text q :
  trim (ensureValidBrowseCompFormat text q) = ensureValidBrowseCompFormat text q.
Proof.
  unfold ensureValidBrowseCompFormat.
  destruct (negb (nonEmpty text)); [apply noAnswer_trim|].
  destruct (acceptable (linesOf text)); [apply trim_idem|].
  destruct (_ || _); [|apply noAnswer_trim].
  apply trim_clean.
  - apply labelled_startsClean; [by eexists _, _|].
    apply orElse_section_startsClean. by eexists _, _.
  - do 3 apply endsClean_app. apply labelled_endsClean.
    apply orElse_section_endsClean. split; [done|reflexivity].
Qed.

Lemma acceptable_nonEmpty y : acceptable (linesOf y) = true -> nonEmpty y = true.
Proof. by destruct y. Qed.

(** C1 (code defect).  On the model reply [Confidence: 999%] the formatter
    salvages the confidence section with the pattern [\d{1,3}%] and returns
    a third line [Confidence: 999%]: the result is not a three-line answer
    with a confidence between 0 and 100, it is rejected by the formatter's
    own acceptance test of lines 89-92, and it is the content of the
    response of the handler. *)
Theorem C1_formatter_keeps_out_of_range_confidence (q : string) :
  ensureValidBrowseCompFormat "Confidence: 999%" q =
    "Explanation: The research could not find a definitive answer." +:+ nl
      +:+ "Exact Answer: Unknown" +:+ nl +:+ "Confidence: 999%"
  /\ threeLineAnswer (ensureValidBrowseCompFormat "Confidence: 999%" q) = false
  /\ acceptable (linesOf (ensureValidBrowseCompFormat "Confidence: 999%" q)) = false
  /\ Loop.responseContent "Confidence: 999%" q
      = ensureValidBrowseCompFormat "Confidence: 999%" q.
Proof. repeat split; vm_compute; reflexivity. Qed.

(** A reply whose explanation runs over two lines is returned with four
    lines. *)
Lemma formatter_keeps_line_breaks (q : string) :
  split LF (ensureValidBrowseCompFormat ("Explanation: a" +:+ nl +:+ "b") q) =
    ["Explanation: a"; "b"; "Exact Answer: Unknown"; "Confidence: 30%"].
Proof. vm_compute. reflexivity. Qed.

(** The fallback answer repeats the question, line breaks included. *)
Lemma fallback_keeps_line_breaks_of_question :
  length (split LF (ensureValidBrowseCompFormat EmptyString ("a" +:+ nl +:+ "b"))) = 4.
Proof. vm_compute. reflexivity. Qed.




End FormatterFacts.

(** ** Analyzer *)

Section AnalysisFacts.
Import JS Regex Async Json State Terms Analysis.

Lemma settleDirect_not_null (v : JValue) :
  isNull v = false -> settleDirect v = Resolved (directRuleTruthy v).
Proof.
  intros Hv. unfold settleDirect, directRuleTruthy, withoutAnalysis.
  destruct v as [|b|n|s|items|fields]; try discriminate; try reflexivity.
  cbn [getProp keyValue hasKey mbind outcome_bind bind].
  destruct (lookup_field "analysis" fields) as [a|] eqn:Ea; cbn [truthyOpt default].
  - destruct (truthy a); [reflexivity|].
    destruct (lookup_field "summary" fields) as [sm|] eqn:Es.
    + rewrite !bool_decide_eq_true_2 by eauto. reflexivity.
    + rewrite !bool_decide_eq_false_2 by (intros [? [=]]).
      destruct (lookup_field "subquestions" fields) as [[| | | |qs|]|]; reflexivity.
  - destruct (lookup_field "summary" fields) as [sm|] eqn:Es.
    + rewrite !bool_decide_eq_true_2 by eauto. reflexivity.
    + rewrite !bool_decide_eq_false_2 by (intros [? [=]]).
      destruct (lookup_field "subquestions" fields) as [[| | | |qs|]|]; reflexivity.
Qed.


(** The reply [null] is accepted by [JSON.parse], the property read of
    line 134 then throws inside the [try] block, and the result is settled by
    the textual tier. *)
Lemma null_reply_falls_through :
  JSON_parse "null" = Some JNull /\
  fst (parseAnalysisResponseTier "null" [] 0 "Q?") = Textual.
Proof. split; vm_compute; reflexivity. Qed.



(** The fourth scenario of the specification: prose around an object. *)
Lemma garbage_reply_is_salvaged :
  parseAnalysisResponseTier
    ("here is my analysis ... {" +:+ dq +:+ "summary" +:+ dq +:+ ":" +:+ dq +:+ "ok" +:+ dq
       +:+ "," +:+ dq +:+ "hasAnswer" +:+ dq +:+ ":false}") [] 0 "Q?"
  = (ObjectText, JObj [("summary", JStr "ok"); ("hasAnswer", JBool false)]).
Proof. vm_compute. reflexivity. Qed.

End AnalysisFacts.

(** ** URL filter *)

Section UrlFacts.
Import JS Regex Urls.

Ltac lower_case_of a c :=
  let E := fresh "E" in
  destruct (Ascii.eqb (toLowerChar a) c) eqn:E;
  [apply Ascii.eqb_eq in E; rewrite ?E in * | ];
  cbn -[toLowerChar].

Ltac fold_literals :=
  repeat match goal with
         | |- context [toLowerChar (Ascii ?b0 ?b1 ?b2 ?b3 ?b4 ?b5 ?b6 ?b7)] =>
             let c := constr:(Ascii b0 b1 b2 b3 b4 b5 b6 b7) in
             let v := eval vm_compute in (toLowerChar c) in
             change (toLowerChar c) with v
         end.

(** At one position, the pattern [\.(pdf|doc|docx)$] matches exactly when
    the rest of the text is one of the three extensions, in any case. *)
Lemma docRe_here pv p s :
  matched (match_here flag_i docRe {| prev := pv; pos := p; rest := s; caps := [] |})
  = isDocExtension s.
Proof.
  unfold match_here, docRe, isDocExtension, with_caps.
  destruct s as [|a1 [|a2 [|a3 [|a4 [|a5 [|a6 s]]]]]];
    cbn -[toLowerChar Ascii.eqb]; fold_literals; try reflexivity.
  all: repeat match goal with
              | |- context [Ascii.eqb (toLowerChar ?a) ?c] => lower_case_of a c
              end; reflexivity.
Qed.

Lemma docSuffix_cons a s :
  docSuffix (String a s) = isDocExtension (String a s) || docSuffix s.
Proof.
  unfold docSuffix, isDocExtension.
  cbn [toLowerCase endsWith].
  destruct (String.eqb _ ".pdf"), (String.eqb _ ".doc"), (String.eqb _ ".docx"),
    (endsWith _ ".pdf"), (endsWith _ ".doc"), (endsWith _ ".docx"); reflexivity.
Qed.

Lemma docRe_search pv p s :
  match search_from flag_i docRe pv p s with Some _ => true | None => false end
  = docSuffix s.
Proof.
  revert pv p. induction s as [|a s IH]; intros pv p.
  - cbn [search_from]. pose proof (docRe_here pv p EmptyString) as H.
    destruct (match_here _ _ _); [discriminate H|reflexivity].
  - rewrite docSuffix_cons. cbn [search_from].
    pose proof (docRe_here pv p (String a s)) as H.
    destruct (match_here _ _ _); cbn [matched] in H; rewrite <- H; [reflexivity|].
    apply IH.
Qed.

(** [url.match(/\.(pdf|doc|docx)$/i)] is not [null] exactly when the text
    of the URL ends in one of the three extensions, in any case. *)
Lemma docRe_test url : test flag_i docRe url = docSuffix url.
Proof. apply docRe_search. Qed.

Lemma keepUrl_text parse url : keepUrl parse url = keptByText parse url.
Proof.
  unfold keepUrl, keptByText. destruct (parse url) as [u|]; [|reflexivity].
  rewrite docRe_test. by destruct (docSuffix url), (isBlocked _).
Qed.

Lemma filter_sublist {A : Type} (f : A -> bool) (l : list A) :
  List.filter f l `sublist_of` l.
Proof.
  induction l as [|x l IH]; cbn [List.filter]; [constructor|].
  destruct (f x); by constructor.
Qed.

Lemma filter_occurrences (f : string -> bool) (u : string) (l : list string) :
  occurrences u (List.filter f l) <= occurrences u l.
Proof.
  unfold occurrences. induction l as [|x l IH]; cbn [List.filter]; [lia|].
  destruct (f x), (String.eqb u x) eqn:E; cbn [List.filter length]; rewrite ?E;
    cbn [length]; lia.
Qed.

(** C7, as stated, fails: the suffix test of line 347 reads the whole text
    of the URL, so that a document path followed by a query is kept, and a
    page whose query ends in [.pdf] is dropped. *)
Lemma C7_suffix_test_reads_whole_url :
  filterUrls simpleURL
    ["https://example.com/paper.pdf?download=1"; "https://example.com/view?file=a.pdf"]
    = ["https://example.com/paper.pdf?download=1"]
  /\ List.filter (keptBySpec simpleURL)
    ["https://example.com/paper.pdf?download=1"; "https://example.com/view?file=a.pdf"]
    = ["https://example.com/view?file=a.pdf"]
  /\ filterUrls simpleURL
       ["https://example.com/paper.pdf?download=1"; "https://example.com/view?file=a.pdf"]
     <> List.filter (keptBySpec simpleURL)
       ["https://example.com/paper.pdf?download=1"; "https://example.com/view?file=a.pdf"].
Proof. repeat split; vm_compute; (reflexivity || discriminate). Qed.

(** C7 (amended).  [filterUrls] keeps exactly the URLs that can be parsed,
    whose host name contains none of the blocked domains, and whose text
    (path, query and fragment included) does not end in [.pdf], [.doc] or
    [.docx], whatever the case of the letters. *)
Theorem C7_filter_keeps_exactly (parse : string -> option URL) (urls : list string) :
  filterUrls parse urls = List.filter (keptByText parse) urls
  /\ forall u : string,
       u ∈ filterUrls parse urls <->
       u ∈ urls /\
       exists parsed, parse u = Some parsed
                      /\ isBlocked (hostname parsed) = false
                      /\ docSuffix u = false.
Proof.
  assert (Heq : filterUrls parse urls = List.filter (keptByText parse) urls).
  { unfold filterUrls. induction urls as [|x l IH]; cbn [List.filter]; [done|].
    by rewrite keepUrl_text, IH. }
  split; [exact Heq|]. intros u. rewrite Heq.
  rewrite !list_elem_of_In, filter_In. unfold keptByText.
  split.
  - intros [Hin Hk]. split; [done|].
    destruct (parse u) as [parsed|]; [|discriminate].
    exists parsed. split; [done|].
    by destruct (isBlocked _), (docSuffix u).
  - intros [Hin (parsed & -> & -> & ->)]. done.
Qed.

(** C10.  The output of [filterUrls] is a subsequence of its input: its
    elements are elements of the input in the same relative order, and no
    URL occurs more often in the output than in the input. *)
Theorem C10_filter_is_subsequence (parse : string -> option URL) (urls : list string) :
  filterUrls parse urls `sublist_of` urls
  /\ (forall u : string, u ∈ filterUrls parse urls -> u ∈ urls)
  /\ (forall u : string,
        occurrences u (filterUrls parse urls) <= occurrences u urls).
Proof.
  split; [apply filter_sublist|]. split.
  - intros u Hu. eapply elem_of_sublist; [exact Hu|apply filter_sublist].
  - intros u. apply filter_occurrences.
Qed.

End UrlFacts.

(** ** URL frequency ranker *)

Section RankerFacts.
Import JS JSArray State Ranker.

Lemma insert_sorted_perm (x : UrlEntry) (l : list UrlEntry) :
  insert_sorted byFrequency x l ≡ₚ x :: l.
Proof.
  induction l as [|y l IH]; cbn [insert_sorted]; [done|].
  destruct (byFrequency x y <=? 0)%Z; [done|].
  rewrite IH. apply Permutation_swap.
Qed.

Lemma sort_perm (l : list UrlEntry) : sort byFrequency l ≡ₚ l.
Proof.
  unfold sort. induction l as [|x l IH]; cbn [foldr]; [done|].
  by rewrite insert_sorted_perm, IH.
Qed.

Lemma insert_sorted_descending (x : UrlEntry) (l : list UrlEntry) :
  StronglySorted (fun a b => frequency b <= frequency a) l ->
  StronglySorted (fun a b => frequency b <= frequency a) (insert_sorted byFrequency x l).
Proof.
  induction 1 as [|y l Hs IH Hy]; cbn [insert_sorted].
  - repeat constructor.
  - destruct (byFrequency x y <=? 0)%Z eqn:E.
    + apply Z.leb_le in E. unfold byFrequency in E.
      constructor; [by constructor|].
      constructor; [lia|].
      eapply Forall_impl; [exact Hy|]. cbn. intros; lia.
    + apply Z.leb_gt in E. unfold byFrequency in E.
      constructor; [exact IH|].
      rewrite insert_sorted_perm. constructor; [lia|exact Hy].
Qed.

Lemma sort_descending (l : list UrlEntry) :
  StronglySorted (fun a b => frequency b <= frequency a) (sort byFrequency l).
Proof.
  unfold sort. induction l as [|x l IH]; cbn [foldr]; [constructor|].
  by apply insert_sorted_descending.
Qed.

Lemma insert_sorted_stable (f : nat) (x : UrlEntry) (l : list UrlEntry) :
  withFrequency f (insert_sorted byFrequency x l) = withFrequency f (x :: l).
Proof.
  unfold withFrequency.
  induction l as [|y l IH]; cbn [insert_sorted]; [done|].
  destruct (byFrequency x y <=? 0)%Z eqn:E; [done|].
  apply Z.leb_gt in E. unfold byFrequency in E.
  cbn [List.filter] in *. rewrite IH.
  destruct (frequency x =? f) eqn:Ex, (frequency y =? f) eqn:Ey; try done.
  apply Nat.eqb_eq in Ex, Ey. lia.
Qed.

Lemma sort_stable (f : nat) (l : list UrlEntry) :
  withFrequency f (sort byFrequency l) = withFrequency f l.
Proof.
  unfold sort. induction l as [|x l IH]; cbn [foldr]; [done|].
  rewrite insert_sorted_stable. unfold withFrequency in *. cbn [List.filter].
  by rewrite IH.
Qed.

Lemma sort_stableDescending (l : list UrlEntry) :
  stableDescending l (sort byFrequency l).
Proof.
  split; [apply sort_perm|]. split; [apply sort_descending|].
  intros f. apply sort_stable.
Qed.

(** The stable descending sort of a list is unique. *)
Lemma withFrequency_nil (l : list UrlEntry) :
  (forall f, withFrequency f l = []) -> l = [].
Proof.
  destruct l as [|y l]; [done|]. intros H. specialize (H (frequency y)).
  unfold withFrequency in H. cbn [List.filter] in H.
  by rewrite Nat.eqb_refl in H.
Qed.

Lemma withFrequency_In (f : nat) (x : UrlEntry) (l : list UrlEntry) :
  In x (withFrequency f l) <-> In x l /\ frequency x = f.
Proof. unfold withFrequency. rewrite filter_In, Nat.eqb_eq. done. Qed.

Lemma stableDescending_unique (s1 s2 : list UrlEntry) :
  StronglySorted (fun a b => frequency b <= frequency a) s1 ->
  StronglySorted (fun a b => frequency b <= frequency a) s2 ->
  (forall f, withFrequency f s1 = withFrequency f s2) ->
  s1 = s2.
Proof.
  intros H1. revert s2. induction H1 as [|x s1 Hs1 IH Hx]; intros s2 H2 Heq.
  - symmetry. apply withFrequency_nil. intros f. by rewrite <- Heq.
  - destruct H2 as [|y s2 Hs2 Hy].
    { specialize (Heq (frequency x)). unfold withFrequency in Heq.
      cbn [List.filter] in Heq. by rewrite Nat.eqb_refl in Heq. }
    assert (Hxy : frequency x = frequency y).
    { assert (In x (y :: s2)) as Hin1.
      { apply (withFrequency_In (frequency x)). rewrite <- Heq.
        apply withFrequency_In. split; [by left|done]. }
      assert (In y (x :: s1)) as Hin2.
      { apply (withFrequency_In (frequency y)). rewrite Heq.
        apply withFrequency_In. split; [by left|done]. }
      rewrite Forall_forall in Hx, Hy.
      destruct Hin1 as [->|Hin1]; [done|].
      destruct Hin2 as [->|Hin2]; [done|].
      apply list_elem_of_In in Hin1, Hin2.
      specialize (Hy _ Hin1). specialize (Hx _ Hin2). cbn in Hx, Hy. lia. }
    assert (x = y) as <-.
    { specialize (Heq (frequency x)). unfold withFrequency in Heq.
      cbn [List.filter] in Heq. rewrite <- Hxy, !Nat.eqb_refl in Heq.
      congruence. }
    f_equal. apply IH; [done|]. intros f. specialize (Heq f).
    unfold withFrequency in *. cbn [List.filter] in Heq.
    destruct (frequency x =? f); congruence.
Qed.

End RankerFacts.

Section RankerScenario.
Import JS JSArray State Ranker.

Lemma bool_decide_not_in_empty (u : string) :
  bool_decide (u ∈ (∅ : gset string)) = false.
Proof. apply bool_decide_eq_false_2. set_solver. Qed.

Lemma filter_unseen_empty (l : list string) :
  List.filter (fun u => negb (bool_decide (u ∈ (∅ : gset string)))) l = l.
Proof.
  induction l as [|x l IH]; cbn [List.filter]; [done|].
  by rewrite bool_decide_not_in_empty, IH.
Qed.

(** After the two responses [A, B, C] and [B, C, D], with nothing processed,
    the ranker returns [B, C, A]. *)
Lemma two_responses_ranking (A B C D : string) (r1 r2 : list SearchHit) :
  NoDup [A; B; C; D] ->
  List.map hit_url r1 = [A; B; C] ->
  List.map hit_url r2 = [B; C; D] ->
  getUrlsToProcess (recordResponse (recordResponse [] r1) r2) ∅ = [B; C; A].
Proof.
  intros Hnd H1 H2.
  destruct r1 as [|[a ta da] [|[b tb db] [|[c tc dc] [|? ?]]]]; try discriminate H1.
  destruct r2 as [|[b' tb' db'] [|[c' tc' dc'] [|[d td dd] [|? ?]]]]; try discriminate H2.
  cbn in H1, H2. injection H1 as -> -> ->. injection H2 as -> -> ->.
  apply NoDup_cons in Hnd as [HA Hnd]. apply NoDup_cons in Hnd as [HB Hnd].
  apply NoDup_cons in Hnd as [HC _].
  assert (A <> B /\ A <> C /\ A <> D /\ B <> C /\ B <> D /\ C <> D) as (?&?&?&?&?&?).
  { set_solver. }
  unfold getUrlsToProcess. rewrite filter_unseen_empty.
  unfold recordResponse, recordHit. cbn [foldl hit_url map_get].
  repeat (cbn [map_get bump app hit_url hit_title];
          rewrite ?String.eqb_refl;
          rewrite ?(proj2 (String.eqb_neq _ _)) by (done || by apply not_eq_sym)).
  reflexivity.
Qed.

(** C5.  [getUrlsToProcess] returns the first three URLs of the entries
    sorted by descending frequency, ties in insertion order, after the
    processed URLs are dropped; after the two responses [A, B, C] and
    [B, C, D] with nothing processed it returns [B, C, A]. *)
Theorem C5_ranker_selects_top_unseen (A B C D : string) (r1 r2 : list SearchHit)
    (urlFrequencyMap : FrequencyMap) (processedUrls : gset string) :
  NoDup [A; B; C; D] ->
  List.map hit_url r1 = [A; B; C] ->
  List.map hit_url r2 = [B; C; D] ->
  (exists sorted : list UrlEntry,
      stableDescending (values urlFrequencyMap) sorted) /\
  (forall sorted : list UrlEntry,
      stableDescending (values urlFrequencyMap) sorted ->
      getUrlsToProcess urlFrequencyMap processedUrls =
        take 3 (List.filter (fun u => negb (bool_decide (u ∈ processedUrls)))
                            (List.map url sorted))) /\
  (getUrlsToProcess (recordResponse (recordResponse [] r1) r2) ∅ = [B; C; A] \/
   getUrlsToProcess (recordResponse (recordResponse [] r1) r2) ∅ = [B; C; D]).
Proof.
  intros Hnd H1 H2. split; [|split].
  - eexists. apply sort_stableDescending.
  - intros sorted (Hp & Hs & Hf). unfold getUrlsToProcess.
    destruct (sort_stableDescending (values urlFrequencyMap)) as (_ & Hs' & Hf').
    rewrite (stableDescending_unique sorted (sort byFrequency (values urlFrequencyMap)));
      [done|done|done|].
    intros f. by rewrite Hf, Hf'.
  - left. by apply (two_responses_ranking A B C D).
Qed.

Lemma C5_ranker_selects_top_unseen_witness :
  NoDup ["a.org"; "b.org"; "c.org"; "d.org"] /\
  (getUrlsToProcess
     (recordResponse (recordResponse [] [hit "a.org"; hit "b.org"; hit "c.org"])
                     [hit "b.org"; hit "c.org"; hit "d.org"]) ∅
   = ["b.org"; "c.org"; "a.org"] \/
   getUrlsToProcess
     (recordResponse (recordResponse [] [hit "a.org"; hit "b.org"; hit "c.org"])
                     [hit "b.org"; hit "c.org"; hit "d.org"]) ∅
   = ["b.org"; "c.org"; "d.org"]).
Proof.
  assert (Hnd : NoDup ["a.org"; "b.org"; "c.org"; "d.org"]).
  { apply (bool_decide_unpack (NoDup _)). vm_compute. exact I. }
  split; [exact Hnd|].
  apply (C5_ranker_selects_top_unseen "a.org" "b.org" "c.org" "d.org"
           [hit "a.org"; hit "b.org"; hit "c.org"]
           [hit "b.org"; hit "c.org"; hit "d.org"] [] ∅ Hnd);
    reflexivity.
Defined.

End RankerScenario.

(** ** Extraction with retry *)

Section ExtractFacts.
Import JS Async Json State Extractor.

Lemma mapOutcome_Forall {A B : Type} (P : B -> Prop) (f : A -> Outcome B)
    (l : list A) (ys : list B) :
  (forall x y, f x = Resolved y -> P y) ->
  mapOutcome f l = Resolved ys -> Forall P ys.
Proof.
  intros Hf. revert ys. induction l as [|x l IH]; intros ys; cbn [mapOutcome].
  - intros [= <-]. constructor.
  - unfold mbind, outcome_bind. destruct (f x) as [y|e] eqn:Ex; cbn [bind]; [|discriminate].
    destruct (mapOutcome f l) as [ys'|e]; cbn [bind]; [|discriminate].
    intros [= <-]. constructor; [by eapply Hf|]. by apply IH.
Qed.

Lemma normalize_source (url : string) (result : ExtractResponse) (fs : list Finding) :
  normalize url result = Resolved fs -> Forall (fun f => source f = url) fs.
Proof.
  unfold normalize.
  destruct (data result) as [[| | | |items|]|];
    try (intros [= <-]; repeat constructor).
  apply mapOutcome_Forall. intros item y.
  unfold mbind, outcome_bind. destruct (getProp item "data"); cbn [bind]; [|discriminate].
  by intros [= <-].
Qed.

Lemma scrapeFallback_source (url : string) (reply : Outcome ScrapeResponse)
    (fs : list Finding) :
  scrapeFallback url reply = Some fs -> Forall (fun f => source f = url) fs.
Proof.
  unfold scrapeFallback. destruct reply as [sr|e]; [|discriminate].
  destruct (_ && _); [|discriminate]. intros [= <-]. repeat constructor.
Qed.

Lemma attempt_source (w : Capabilities) (url : string) (i : nat)
    (fs : list Finding) (evs : list Event) :
  attempt w url i = (Return fs, evs) -> Forall (fun f => source f = url) fs.
Proof.
  unfold attempt, tryBody, mbind, outcome_bind.
  destruct (extractReply w i) as [result|e]; cbn [bind]; [|discriminate].
  destruct (success result).
  - destruct (normalize url result) as [fs'|e] eqn:En; cbn [bind]; [|discriminate].
    intros [= <- _]. by eapply normalize_source.
  - destruct (looksEmpty result); [|discriminate].
    destruct (scrapeFallback url (scrapeReply w i)) as [fs'|] eqn:Es; [|discriminate].
    intros [= <- _]. by eapply scrapeFallback_source.
Qed.

Lemma attemptsFrom_settles (w : Capabilities) (url : string) (n i : nat) :
  exists fs evs,
    attemptsFrom w url n i = (Resolved fs, evs)
    /\ Forall (fun f => source f = url) fs
    /\ ((forall j, i <= j < i + n -> fst (attempt w url j) = Next) -> fs = []).
Proof.
  revert i. induction n as [|n IH]; intros i; cbn [attemptsFrom].
  - exists [], []. repeat split; constructor.
  - destruct (attempt w url i) as [[fs|] evs] eqn:Ea.
    + exists fs, evs. split; [done|]. split; [by eapply attempt_source|].
      intros Hall. specialize (Hall i ltac:(lia)). rewrite Ea in Hall. discriminate.
    + destruct (IH (S i)) as (fs & evs' & -> & Hsrc & Hnil).
      exists fs, (evs ++ evs'). split; [done|]. split; [done|].
      intros Hall. apply Hnil. intros j Hj. apply Hall. lia.
Qed.


(** C3 (code defect).  When the extract call succeeds with the payload
    [{names: []}], whose serialization contains the sentinel, the function
    returns at line 470 with the serialized payload as the text of its
    single finding: the scrape fallback of lines 473-487 is not attempted,
    whatever the scrape capability would have answered. *)
Theorem C3_sentinel_payload_is_returned (w : Capabilities) (url prompt : string) :
  extractReply w 0
    = Resolved {| success := true; data := Some (JObj [("names", JArr [])]) |} ->
  includes (stringify (JObj [("names", JArr [])])) sentinel = true
  /\ extractWithRetry w url prompt
      = (Resolved [ {| text := Some ("{" +:+ dq +:+ "names" +:+ dq +:+ ":[]}");
                       source := url |} ],
         [CallExtract url 0])
  /\ existsb isScrape (snd (extractWithRetry w url prompt)) = false.
Proof.
  intros Hw. split; [vm_compute; reflexivity|].
  assert (H : extractWithRetry w url prompt
      = (Resolved [ {| text := Some ("{" +:+ dq +:+ "names" +:+ dq +:+ ":[]}");
                       source := url |} ],
         [CallExtract url 0])).
  { unfold extractWithRetry. cbn [attemptsFrom Nat.add]. unfold attempt, tryBody.
    rewrite Hw. reflexivity. }
  split; [exact H|]. rewrite H. reflexivity.
Qed.

(** The capabilities of the example: the extract call succeeds with the
    sentinel payload and a scrape would succeed. *)
Lemma C3_sentinel_payload_is_returned_witness :
  extractReply Loop.sentinelPage 0
    = Resolved {| success := true; data := Some (JObj [("names", JArr [])]) |} /\
  scrapeReply Loop.sentinelPage 0
    = Resolved {| scrape_success := true; markdown := Some "# Page" |} /\
  extractWithRetry Loop.sentinelPage "https://example.com/people" "prompt"
  = (Resolved [ {| text := Some ("{" +:+ dq +:+ "names" +:+ dq +:+ ":[]}");
                   source := "https://example.com/people" |} ],
     [CallExtract "https://example.com/people" 0]).
Proof.
  split; [reflexivity|]. split; [reflexivity|].
  apply (C3_sentinel_payload_is_returned Loop.sentinelPage
           "https://example.com/people" "prompt").
  reflexivity.
Defined.

(** The fallback is reached when the response is not successful: a scrape
    that succeeds then gives one finding with the first 2000 code units of
    the markdown. *)
Lemma scrape_fallback_after_unsuccessful_extract (w : Capabilities)
    (url prompt md : string) (d : option JValue) :
  extractReply w 0 = Resolved {| success := false; data := d |} ->
  scrapeReply w 0 = Resolved {| scrape_success := true; markdown := Some md |} ->
  nonEmpty md = true ->
  extractWithRetry w url prompt
  = (Resolved [ {| text := Some (substring_to 2000 md); source := url |} ],
     [CallExtract url 0; CallScrape url 0]).
Proof.
  intros He Hs Hmd. unfold extractWithRetry. cbn [attemptsFrom Nat.add].
  unfold attempt, tryBody. rewrite He. cbn [mbind outcome_bind bind success].
  unfold looksEmpty. cbn [success negb orb]. rewrite Hs.
  unfold scrapeFallback. cbn [scrape_success markdown truthyText andb]. rewrite Hmd.
  reflexivity.
Qed.


End ExtractFacts.

(** ** The research loop *)

Section LoopFacts.
Import JS Async Json State Terms Ranker Loop.

Variable parseURL : string -> option Urls.URL.
Variable lastUserMessage : string.

(** The topic selection leaves the counters, the findings, the frequency
    map and the processed URLs as they are. *)
Lemma selectTopic_frame (h : HopScript) (st : ResearchState) :
  sameCore st (snd (selectTopic lastUserMessage h st)).
Proof.
  unfold selectTopic, sameCore.
  repeat match goal with
         | |- context [if ?b then _ else _] => destruct b
         | |- context [match ?x with _ => _ end] => destruct x
         end; cbn; done.
Qed.

Lemma chooseTopic_frame (h : HopScript) (st : ResearchState) :
  sameCore st (snd (chooseTopic lastUserMessage h st)).
Proof.
  unfold chooseTopic. pose proof (selectTopic_frame h st) as H.
  destruct (selectTopic lastUserMessage h st) as [topic st1]. cbn [snd] in H.
  by destruct (_ && _).
Qed.

Lemma failAttempt_spec (st : ResearchState) :
  let r := failAttempt st in
  currentDepth (snd r) = currentDepth st /\
  failedAttempts (snd r) = failedAttempts st + 1 /\
  maxFailedAttempts (snd r) = maxFailedAttempts st /\
  (maxFailedAttempts st <= failedAttempts st + 1 <-> fst r = Break).
Proof.
  unfold failAttempt. cbn.
  destruct (maxFailedAttempts st <=? failedAttempts st + 1) eqn:E; cbn.
  - apply Nat.leb_le in E. done.
  - apply Nat.leb_gt in E. repeat split; try done. lia.
Qed.

Lemma analyse_spec (h : HopScript) (topic : string) (st : ResearchState) :
  let r := analyse h topic st in
  currentDepth (snd r) = currentDepth st /\
  maxFailedAttempts (snd r) = maxFailedAttempts st /\
  match analysisReply h with
  | None =>
      failedAttempts (snd r) = failedAttempts st + 1 /\
      (maxFailedAttempts st <= failedAttempts st + 1 <-> fst r = Break)
  | Some _ => failedAttempts (snd r) = failedAttempts st
  end.
Proof.
  unfold analyse. destruct (analysisReply h) as [analysis|].
  - repeat match goal with
           | |- context [if ?b then _ else _] => destruct b
           | |- context [match ?x with _ => _ end] => destruct x
           end; cbn; done.
  - pose proof (failAttempt_spec st) as (? & ? & ? & ?). done.
Qed.

(** What one hop does to the depth and to the failure counter. *)
Lemma hop_spec (h : HopScript) (st : ResearchState) :
  currentDepth (snd (hop parseURL lastUserMessage h st)) = currentDepth st /\
  maxFailedAttempts (snd (hop parseURL lastUserMessage h st)) = maxFailedAttempts st /\
  if noNewUrls h st || nullAnalysis h st then
    failedAttempts (snd (hop parseURL lastUserMessage h st)) = failedAttempts st + 1 /\
    (maxFailedAttempts st <= failedAttempts st + 1 <->
     fst (hop parseURL lastUserMessage h st) = Break)
  else
    failedAttempts (snd (hop parseURL lastUserMessage h st)) = failedAttempts st.
Proof.
  unfold hop, noNewUrls, nullAnalysis, topUrlsOf.
  pose proof (chooseTopic_frame h st) as (Hd & Hf & Hm & _ & Hu & Hp).
  destruct (chooseTopic lastUserMessage h st) as [topic st1]. cbn [snd] in *.
  cbn [urlFrequencyMap processedUrls withUrlFrequencyMap].
  rewrite Hu, Hp.
  set (m := runSearches h (urlFrequencyMap st)).
  set (topUrls := getUrlsToProcess m (processedUrls st)).
  destruct (length topUrls =? 0) eqn:Et; cbn [orb negb andb].
  - pose proof (failAttempt_spec (withUrlFrequencyMap st1 m)) as (H1 & H2 & H3 & H4).
    cbn [currentDepth failedAttempts maxFailedAttempts withUrlFrequencyMap] in *.
    rewrite H1, H2, H3, Hd, Hf, Hm. rewrite Hf, Hm in H4. done.
  - match goal with
    | |- context [analyse h topic ?s] =>
        pose proof (analyse_spec h topic s) as (H1 & H2 & H3)
    end.
    cbn [currentDepth failedAttempts maxFailedAttempts withUrlFrequencyMap
         withProcessedUrls withFindings] in *.
    rewrite H1, H2, Hd, Hm.
    destruct (analysisReply h); rewrite <- ?Hf, <- ?Hm; done.
Qed.

Lemma hop_depth (h : HopScript) (st : ResearchState) :
  currentDepth (snd (hop parseURL lastUserMessage h st)) = currentDepth st.
Proof. apply hop_spec. Qed.

Section Run.
Variable script : nat -> HopScript.

(** With enough fuel the loop exits, after as many hops as the depth grew,
    and the depth stays within [maxDepth]. *)
Lemma researchLoop_exits (fuel k : nat) (st : ResearchState) :
  currentDepth st <= maxDepth ->
  maxDepth - currentDepth st < fuel ->
  exists final hops,
    researchLoop parseURL lastUserMessage script fuel k st = Some (final, hops)
    /\ currentDepth final = currentDepth st + hops
    /\ currentDepth final <= maxDepth.
Proof.
  revert k st. induction fuel as [|fuel IH]; intros k st Hle Hfuel; [lia|].
  cbn [researchLoop].
  destruct (currentDepth st <? maxDepth) eqn:Ed.
  - apply Nat.ltb_lt in Ed.
    destruct (timeLimit <=? elapsed (script k))%Z.
    { exists st, 0. split; [done|]. lia. }
    pose proof (hop_depth (script k) (withCurrentDepth st (currentDepth st + 1))) as Hd.
    destruct (hop parseURL lastUserMessage (script k) _) as [[|] st'];
      cbn [snd currentDepth withCurrentDepth] in Hd.
    + destruct (IH (S k) st') as (final & hops & -> & H1 & H2); [lia|lia|].
      exists final, (S hops). split; [done|]. lia.
    + exists st', 1. split; [done|]. lia.
  - exists st, 0. split; [done|]. lia.
Qed.

(** At the top of the [k]-th iteration the depth is [k]. *)
Lemma AtTop_depth (k : nat) (st : ResearchState) :
  AtTop parseURL lastUserMessage script k st ->
  currentDepth st = k /\ k <= maxDepth.
Proof.
  induction 1 as [|k st st' Hat [IH1 IH2] Hlt Ht Hhop].
  - split; [reflexivity|]. unfold maxDepth. lia.
  - pose proof (hop_depth (script k) (withCurrentDepth st (currentDepth st + 1))) as Hd.
    rewrite Hhop in Hd. cbn [snd currentDepth withCurrentDepth] in Hd. lia.
Qed.

(** The states that the loop goes through are the states [AtTop]. *)
Lemma loopTops_AtTop (fuel k : nat) (st : ResearchState) :
  AtTop parseURL lastUserMessage script k st ->
  forall (i : nat) (st' : ResearchState),
    loopTops parseURL lastUserMessage script fuel k st !! i = Some st' ->
    AtTop parseURL lastUserMessage script (k + i) st'.
Proof.
  revert k st. induction fuel as [|fuel IH]; intros k st Hat i st'; [done|].
  cbn [loopTops]. destruct i as [|i].
  - cbn. intros [= <-]. by rewrite Nat.add_0_r.
  - cbn [lookup list_lookup].
    destruct (currentDepth st <? maxDepth) eqn:Ed; [|done].
    destruct (timeLimit <=? elapsed (script k))%Z eqn:Et; [done|].
    destruct (hop parseURL lastUserMessage (script k) _) as [[|] st1] eqn:Eh; [|done].
    intros Hi. replace (k + S i) with (S k + i) by lia.
    apply (IH (S k) st1); [|exact Hi].
    eapply at_next; [exact Hat| |  |exact Eh].
    + by apply Nat.ltb_lt.
    + by apply Z.leb_gt.
Qed.

End Run.



End LoopFacts.

Section LoopExamples.
Import JS Async Json State Terms Ranker Loop.




End LoopExamples.

(* ================================================================== *)
(** * Further properties of the code *)
(* ================================================================== *)

(** ** Formatter: the shape of every output *)

Section FormatterShape.
Import JS Regex Formatter Shape.

Lemma split_nonempty (sep : ascii) (s : string) : split sep s <> [].
Proof.
  induction s as [|c s IH]; cbn [split]; [done|].
  destruct (Ascii.eqb c sep); [done|]. by destruct (split sep s).
Qed.

(** Joining the lines of a text with line feeds gives the text back. *)
Lemma join_split (s : string) : join nl (split LF s) = s.
Proof.
  induction s as [|c s IH]; cbn [split]; [done|].
  pose proof (split_nonempty LF s) as Hne.
  destruct (Ascii.eqb c LF) eqn:E.
  - apply Ascii.eqb_eq in E. subst c.
    destruct (split LF s) as [|w ws]; [done|].
    change (join nl (EmptyString :: w :: ws)) with (nl +:+ join nl (w :: ws)).
    by rewrite IH.
  - destruct (split LF s) as [|w ws]; [done|].
    destruct ws as [|w' ws].
    + cbn [join] in *. by rewrite IH.
    + change (join nl (String c w :: w' :: ws))
        with (String c (w +:+ nl +:+ join nl (w' :: ws))).
      change (join nl (w :: w' :: ws)) with (w +:+ nl +:+ join nl (w' :: ws)) in IH.
      by rewrite IH.
Qed.

Lemma rmatch_lit_prefix (fl : flags) (w : string) (st : mstate)
    (k : mstate -> option mstate) (e : mstate) :
  rmatch fl (lit w) st k = Some e -> ci_prefix fl w (rest st) = true.
Proof.
  revert st k. induction w as [|c w IH]; intros st k; [done|].
  destruct w as [|c' w].
  - cbn [lit rmatch ci_prefix]. unfold step_char.
    destruct (rest st) as [|a s]; [done|]. destruct (chr_eq fl a c); [|done].
    by destruct s.
  - change (lit (String c (String c' w))) with (Seq (Chr c) (lit (String c' w))).
    cbn [rmatch]. unfold step_char.
    destruct (rest st) as [|a s] eqn:Er; [done|].
    change (ci_prefix fl (String c (String c' w)) (String a s))
      with (chr_eq fl a c && ci_prefix fl (String c' w) s).
    destruct (chr_eq fl a c); [|done].
    intros H. apply IH in H. exact H.
Qed.

Lemma ci_prefix_lower (w s : string) :
  toLowerCase w = w -> ci_prefix flag_i w s = startsWith (toLowerCase s) w.
Proof.
  revert s. induction w as [|c w IH]; intros s Hw; [by destruct s|].
  cbn [toLowerCase] in Hw. injection Hw as Hc Hw.
  destruct s as [|a s]; [done|].
  cbn [ci_prefix toLowerCase startsWith]. unfold chr_eq. cbn [ignoreCase flag_i].
  rewrite Hc. destruct (Ascii.eqb (toLowerChar a) c); [|done]. by apply IH.
Qed.

(** A pattern that starts with [^] only matches at position 0. *)
Lemma search_Bol_later (fl : flags) (r : regex) (pv : option ascii) (p : nat) (s : string) :
  0 < p -> search_from fl (Seq Bol r) pv p s = None.
Proof.
  revert pv p. induction s as [|a s IH]; intros pv p Hp; cbn [search_from].
  - unfold match_here. cbn [rmatch pos with_caps].
    destruct p; [lia|]. done.
  - unfold match_here. cbn [rmatch pos with_caps].
    destruct p; [lia|]. cbn. apply IH. lia.
Qed.

Lemma test_Bol_lit (w : string) (r : regex) (s : string) :
  toLowerCase w = w ->
  test flag_i (Seq Bol (Seq (lit w) r)) s = true ->
  startsWith (toLowerCase s) w = true.
Proof.
  intros Hw. unfold test.
  destruct (search_from _ _ _ _ _) as [[b e]|] eqn:E; [|done]. intros _.
  destruct s as [|a s]; cbn [search_from] in E.
  - unfold match_here in E. cbn [rmatch pos with_caps Nat.eqb] in E.
    destruct (rmatch flag_i (lit w) _ _) eqn:Em; [|done].
    apply rmatch_lit_prefix in Em. cbn [rest] in Em.
    by rewrite <- (ci_prefix_lower w _ Hw).
  - unfold match_here in E. cbn [rmatch pos with_caps Nat.eqb] in E.
    destruct (rmatch flag_i (lit w) _ _) eqn:Em.
    + apply rmatch_lit_prefix in Em. cbn [rest] in Em.
      by rewrite <- (ci_prefix_lower w _ Hw).
    + rewrite search_Bol_later in E by lia. done.
Qed.

Lemma append_assoc (a b c : string) : (a +:+ b) +:+ c = a +:+ (b +:+ c).
Proof.
  induction a as [|x a IH]; [done|].
  change (String x ((a +:+ b) +:+ c) = String x (a +:+ (b +:+ c))). by rewrite IH.
Qed.

Lemma clean_trim (s : string) : startsClean s -> endsClean s -> trim s = s.
Proof.
  intros (c & r & -> & W) [_ He]. unfold trim. by rewrite (trimStart_head _ _ W).
Qed.

Lemma labelled_sectionStarts (label lower s : string) :
  startsClean label -> startsClean s -> endsClean s ->
  startsWith (toLowerCase (label +:+ " " +:+ s)) lower = true ->
  sectionStarts lower (labelled label lower s) = true.
Proof.
  intros Hl Hs He Hp. unfold sectionStarts.
  rewrite clean_trim;
    [|by apply labelled_startsClean|by apply labelled_endsClean].
  unfold labelled. by destruct (startsWith (toLowerCase s) lower) eqn:E.
Qed.

Lemma noAnswer_threeSections (q : string) : threeSections (noAnswer q).
Proof.
  exists ("Explanation: The research could not find a definitive answer to: "
            +:+ dq +:+ q +:+ dq +:+ "."),
         "Exact Answer: Unknown", "Confidence: 10%".
  split; [|split; [|done]].
  - unfold noAnswer. by rewrite !append_assoc.
  - unfold sectionStarts. rewrite clean_trim; [done|by eexists _, _|].
    do 4 apply endsClean_app. split; [done|reflexivity].
Qed.

Lemma accepted_threeSections (text : string) :
  acceptable (linesOf text) = true -> threeSections (trim text).
Proof.
  unfold linesOf. intros H.
  rewrite <- (join_split (trim text)).
  destruct (split LF (trim text)) as [|l0 [|l1 [|l2 [|l3 ls]]]]; try done.
  cbn [map acceptable] in H.
  apply andb_prop in H as [H H2]. apply andb_prop in H as [H0 H1].
  exists l0, l1, l2. repeat split; try done.
  unfold sectionStarts. by apply (test_Bol_lit "confidence:" _ _ eq_refl) in H2.
Qed.

Lemma ensureValid_threeSections (text q : string) :
  threeSections (ensureValidBrowseCompFormat text q).
Proof.
  unfold ensureValidBrowseCompFormat.
  destruct (negb (nonEmpty text)); [apply noAnswer_threeSections|].
  destruct (acceptable (linesOf text)) eqn:Ha; [by apply accepted_threeSections|].
  destruct (_ || _); [|apply noAnswer_threeSections].
  eexists _, _, _. split; [reflexivity|].
  repeat split; apply labelled_sectionStarts;
    try (by eexists _, _);
    try (apply orElse_section_startsClean; by eexists _, _);
    try (apply orElse_section_endsClean; split; [done|reflexivity]);
    reflexivity.
Qed.

(** X1.  Whatever text the model wrote and whatever the question is, the
    formatter returns three sections separated by line feeds that start,
    once trimmed and in any case, with [explanation:], [exact answer:] and
    [confidence:], and the whole answer has no white space around it. *)
Theorem X1_formatter_output_has_three_labelled_sections (text q : string) :
  threeSections (ensureValidBrowseCompFormat text q) /\
  trim (ensureValidBrowseCompFormat text q) = ensureValidBrowseCompFormat text q.
Proof. split; [apply ensureValid_threeSections|apply ensureValid_trimmed]. Qed.

Lemma whiteSpace_not_letter (fl : flags) (a : ascii) :
  isWhiteSpace a = true ->
  chr_eq fl a "e" = false /\ chr_eq fl a "c" = false.
Proof.
  destruct fl as [[] ds];
    destruct a as [[] [] [] [] [] [] [] []]; vm_compute; intros H;
    first [discriminate H | done].
Qed.

(** A pattern that starts with a letter which no white space equals
    matches nowhere in a text of white space. *)
Lemma search_whiteSpace (fl : flags) (c : ascii) (w r : regex)
    (pv : option ascii) (p : nat) (s : string) :
  (forall a, isWhiteSpace a = true -> chr_eq fl a c = false) ->
  allWhiteSpace s = true ->
  search_from fl (Seq (Seq (Chr c) w) r) pv p s = None.
Proof.
  intros Hc. revert pv p. induction s as [|a s IH]; intros pv p Hs.
  - reflexivity.
  - cbn [allWhiteSpace] in Hs. apply andb_prop in Hs as [Ha Hs].
    cbn [search_from]. unfold match_here. cbn [rmatch]. unfold step_char.
    cbn [rest with_caps]. rewrite (Hc a Ha). by apply IH.
Qed.

Lemma exec_whiteSpace (fl : flags) (c : ascii) (w r : regex) (s : string) :
  (forall a, isWhiteSpace a = true -> chr_eq fl a c = false) ->
  allWhiteSpace s = true ->
  exec fl (Seq (Seq (Chr c) w) r) s = None.
Proof. intros Hc Hs. unfold exec. by rewrite search_whiteSpace. Qed.

Lemma allWhiteSpace_trimStart (s : string) :
  allWhiteSpace s = true -> trimStart s = EmptyString.
Proof.
  induction s as [|a s IH]; [done|]. cbn [allWhiteSpace trimStart].
  intros H. apply andb_prop in H as [-> H]. by apply IH.
Qed.

Lemma allWhiteSpace_split (s : string) :
  allWhiteSpace s = true -> acceptable (linesOf s) = false.
Proof.
  intros H. unfold linesOf, trim. by rewrite (allWhiteSpace_trimStart s H).
Qed.

(** X2.  A text made of white space only (the empty text included) carries
    no section: the formatter answers with the not-found explanation that
    quotes the question, [Unknown] and a confidence of 10%. *)
Theorem X2_formatter_blank_text_gives_not_found (text q : string) :
  allWhiteSpace text = true ->
  ensureValidBrowseCompFormat text q = noAnswer q.
Proof.
  intros H. unfold ensureValidBrowseCompFormat.
  destruct (negb (nonEmpty text)); [done|].
  rewrite (allWhiteSpace_split text H).
  unfold explanationSection, exactAnswerSection, confidenceSection.
  change (lit "explanation:") with (Seq (Chr "e") (lit "xplanation:")).
  change (lit "exact answer:") with (Seq (Chr "e") (lit "xact answer:")).
  change (lit "confidence:") with (Seq (Chr "c") (lit "onfidence:")).
  rewrite !exec_whiteSpace; try done;
    intros a Ha;
    match goal with
    | |- chr_eq ?fl _ _ = _ => by destruct (whiteSpace_not_letter fl a Ha)
    end.
Qed.

Lemma X2_formatter_blank_text_gives_not_found_witness :
  allWhiteSpace (" " +:+ nl +:+ " ") = true /\
  ensureValidBrowseCompFormat (" " +:+ nl +:+ " ") "Who?" = noAnswer "Who?".
Proof.
  split; [reflexivity|].
  apply (X2_formatter_blank_text_gives_not_found (" " +:+ nl +:+ " ") "Who?").
  reflexivity.
Defined.

End FormatterShape.

(** ** Analysis parser: what the result can be *)

Section AnalysisShape.
Import JS Regex Async Json State Terms Analysis Shape.

Lemma firstSettled_Some {A : Type} (f : A -> option JValue) (l : list A) (v : JValue) :
  firstSettled f l = Some v -> exists x, In x l /\ f x = Some v.
Proof.
  induction l as [|x l IH]; [done|]. cbn [firstSettled].
  destruct (f x) as [w|] eqn:E.
  - intros [= <-]. exists x. split; [by left|done].
  - intros H. destruct (IH H) as (y & Hy & Hf). exists y. split; [by right|done].
Qed.

(** A value left by the direct tier is truthy, or it is the parsed value
    itself and one of [false], [0] and the empty string. *)
Lemma settleDirect_cases (parsed v : JValue) :
  settleDirect parsed = Resolved v ->
  truthy v = true \/ (v = parsed /\ falsyLiteral parsed = true).
Proof.
  destruct (isNull parsed) eqn:Hn; [by destruct parsed|].
  rewrite (settleDirect_not_null parsed Hn). intros [= <-].
  unfold directRuleTruthy, withoutAnalysis.
  destruct parsed as [|[]|n|[|c s]|items|fields]; try done; cbn; eauto.
  - destruct n; cbn; eauto.
  - destruct (lookup_field "analysis" fields) as [a|].
    + destruct (truthy a) eqn:Ea; [by left|].
      destruct (bool_decide _); [by left|].
      destruct (lookup_field "subquestions" fields) as [[| | | |qs|]|]; by left.
    + destruct (bool_decide _); [by left|].
      destruct (lookup_field "subquestions" fields) as [[| | | |qs|]|]; by left.
Qed.

Lemma settleBlock_truthy (inner : string) (v : JValue) :
  settleBlock inner = Some v -> truthy v = true.
Proof.
  unfold settleBlock. destruct (JSON_parse inner) as [parsed|]; [|done].
  destruct parsed as [|b|n|s|items|fields]; cbn; try done.
  destruct (lookup_field "analysis" fields) as [a|]; cbn.
  - destruct (truthy a) eqn:Ea; [by intros [= <-]|].
    destruct (bool_decide _); [by intros [= <-]|done].
  - destruct (bool_decide _); [by intros [= <-]|done].
Qed.

Lemma settleObject_truthy (jsonMatch : string) (v : JValue) :
  settleObject jsonMatch = Some v -> truthy v = true.
Proof.
  unfold settleObject. destruct (JSON_parse jsonMatch) as [parsed|]; [|done].
  destruct parsed as [|b|n|s|items|fields]; cbn; try done.
  destruct (lookup_field "analysis" fields) as [a|]; cbn.
  - destruct (truthy a) eqn:Ea; [by intros [= <-]|].
    destruct (_ || _); [by intros [= <-]|done].
  - destruct (_ || _); [by intros [= <-]|done].
Qed.

Lemma truthy_not_null (v : JValue) : truthy v = true -> isNull v = false.
Proof. by destruct v. Qed.

Lemma falsyLiteral_spec (v : JValue) :
  falsyLiteral v = true -> truthy v = false /\ isNull v = false.
Proof. by destruct v as [|[]|[]|[]| |]. Qed.

(** The analysis parser never returns [null], and its result is falsy in
    one case only: the reply is itself the JSON text of [false], [0] or the
    empty string, which the direct tier hands back unchanged. *)
Lemma parseAnalysisResponse_falsy (responseText : string)
    (findings : list Finding) (minutes : Q) (question : string) :
  isNull (parseAnalysisResponse responseText findings minutes question) = false /\
  (truthy (parseAnalysisResponse responseText findings minutes question) = false <->
   exists v, JSON_parse responseText = Some v /\ falsyLiteral v = true /\
             parseAnalysisResponseTier responseText findings minutes question
               = (Direct, v)).
Proof.
  unfold parseAnalysisResponse, parseAnalysisResponseTier, directParse.
  destruct (JSON_parse responseText) as [parsed|] eqn:Hp.
  - destruct (settleDirect parsed) as [v|e] eqn:Hs.
    + destruct (settleDirect_cases parsed v Hs) as [Ht|[-> Hf]]; cbn [snd].
      * split; [by apply truthy_not_null|]. rewrite Ht. split; [done|].
        intros (w & [= <-] & Hw & [= ->]).
        apply falsyLiteral_spec in Hw as [Hw _]. congruence.
      * destruct (falsyLiteral_spec parsed Hf) as [Hw Hn].
        split; [done|]. split; [|done]. intros _. by exists parsed.
    + assert (Hnull : parsed = JNull).
      { destruct parsed; try done; by rewrite settleDirect_not_null in Hs. }
      subst parsed.
      assert (Ht : truthy (snd
        match fromCodeBlocks responseText with
        | Some v => (CodeBlock, v)
        | None =>
            match fromObjects responseText with
            | Some v => (ObjectText, v)
            | None =>
                (Textual, parseAnalysisFromText responseText findings minutes question)
            end
        end) = true).
      { destruct (fromCodeBlocks responseText) as [v|] eqn:E2.
        - apply firstSettled_Some in E2 as (r & _ & E2).
          apply firstSettled_Some in E2 as (m & _ & E2).
          by apply settleBlock_truthy in E2.
        - destruct (fromObjects responseText) as [v|] eqn:E3; [|done].
          unfold fromObjects in E3. destruct (match_g _ _ _); [|done].
          apply firstSettled_Some in E3 as (m & _ & E3).
          by apply settleObject_truthy in E3. }
      split; [by apply truthy_not_null|]. rewrite Ht. split; [done|].
      intros (w & [= <-] & Hw & _). done.
  - assert (Ht : truthy (snd
        match fromCodeBlocks responseText with
        | Some v => (CodeBlock, v)
        | None =>
            match fromObjects responseText with
            | Some v => (ObjectText, v)
            | None =>
                (Textual, parseAnalysisFromText responseText findings minutes question)
            end
        end) = true).
    { destruct (fromCodeBlocks responseText) as [v|] eqn:E2.
      - apply firstSettled_Some in E2 as (r & _ & E2).
        apply firstSettled_Some in E2 as (m & _ & E2).
        by apply settleBlock_truthy in E2.
      - destruct (fromObjects responseText) as [v|] eqn:E3; [|done].
        unfold fromObjects in E3. destruct (match_g _ _ _); [|done].
        apply firstSettled_Some in E3 as (m & _ & E3).
        by apply settleObject_truthy in E3. }
    split; [by apply truthy_not_null|]. rewrite Ht. split; [done|].
    by intros (w & [=] & _).
Qed.


Lemma createFallbackAnalysis_truthy (findings : list Finding) (minutes : Q)
    (question : string) :
  truthy (createFallbackAnalysis findings minutes question) = true.
Proof. reflexivity. Qed.


End AnalysisShape.

(** ** Ranker: what the frequency map records *)

Section TallyFacts.
Import JS JSArray State Urls Ranker Tally.

Lemma map_get_app (u k : string) (e : UrlEntry) (m : FrequencyMap) :
  map_get u (m ++ [(k, e)]) =
  match map_get u m with
  | Some x => Some x
  | None => if String.eqb k u then Some e else None
  end.
Proof.
  induction m as [|[k' e'] m IH]; [done|]. cbn [app map_get].
  by destruct (String.eqb k' u).
Qed.

Lemma frequencyOf_bump (u k : string) (m : FrequencyMap) :
  is_Some (map_get k m) ->
  frequencyOf u (bump k m) = frequencyOf u m + (if String.eqb u k then 1 else 0).
Proof.
  unfold frequencyOf. induction m as [|[k' e'] m IH]; [by intros [? [=]]|].
  cbn [map_get bump].
  destruct (String.eqb_spec k' k) as [->|Hk]; cbn [map_get].
  - intros _. rewrite (String.eqb_sym u k).
    destruct (String.eqb k u); cbn [frequency]; lia.
  - intros H. destruct (String.eqb_spec k' u) as [->|Hu].
    + destruct (String.eqb_spec u k); [done|lia].
    + by apply IH.
Qed.

Lemma frequencyOf_recordHit (u : string) (m : FrequencyMap) (h : SearchHit) :
  frequencyOf u (recordHit m h) =
  frequencyOf u m + (if String.eqb u (hit_url h) then 1 else 0).
Proof.
  unfold recordHit. destruct (map_get (hit_url h) m) as [e|] eqn:E.
  - apply frequencyOf_bump. by rewrite E.
  - unfold frequencyOf. rewrite map_get_app.
    destruct (map_get u m) as [x|] eqn:Eu.
    + destruct (String.eqb u (hit_url h)) eqn:Eh; [|lia].
      apply String.eqb_eq in Eh as ->. congruence.
    + rewrite String.eqb_sym. by destruct (String.eqb u (hit_url h)).
Qed.

Lemma frequencyOf_hits (u : string) (hits : list SearchHit) (m : FrequencyMap) :
  frequencyOf u (foldl recordHit m hits) =
  frequencyOf u m + occurrences u (List.map hit_url hits).
Proof.
  revert m. induction hits as [|h hits IH]; intros m; cbn [foldl].
  - unfold occurrences. cbn. lia.
  - rewrite IH, frequencyOf_recordHit. unfold occurrences.
    cbn [List.map List.filter]. destruct (String.eqb u (hit_url h)); cbn [length]; lia.
Qed.

Lemma foldl_recordResponse (responses : list (list SearchHit)) (m : FrequencyMap) :
  foldl recordResponse m responses = foldl recordHit m (concat responses).
Proof.
  revert m. induction responses as [|r rs IH]; intros m; [done|].
  cbn [foldl concat]. rewrite IH. unfold recordResponse. by rewrite foldl_app.
Qed.

Lemma is_Some_bump (u k : string) (m : FrequencyMap) :
  is_Some (map_get u (bump k m)) <-> is_Some (map_get u m).
Proof.
  induction m as [|[k' e'] m IH]; [done|]. cbn [bump map_get].
  destruct (String.eqb k' k); cbn [map_get];
    destruct (String.eqb k' u); first [done | by split; eauto].
Qed.

Lemma is_Some_recordHit (u : string) (m : FrequencyMap) (h : SearchHit) :
  is_Some (map_get u (recordHit m h)) <->
  is_Some (map_get u m) \/ u = hit_url h.
Proof.
  unfold recordHit. destruct (map_get (hit_url h) m) as [e|] eqn:E.
  - rewrite is_Some_bump. split; [tauto|]. intros [H| ->]; [done|]. by rewrite E.
  - rewrite map_get_app. destruct (map_get u m) as [x|] eqn:Eu.
    + split; eauto.
    + destruct (String.eqb_spec (hit_url h) u) as [<-|Hn].
      * split; eauto.
      * split; [by intros [? [=]]|]. intros [[? [=]]|H]. by subst.
Qed.

Lemma is_Some_hits (u : string) (hits : list SearchHit) (m : FrequencyMap) :
  is_Some (map_get u (foldl recordHit m hits)) <->
  is_Some (map_get u m) \/ In u (List.map hit_url hits).
Proof.
  revert m. induction hits as [|h hits IH]; intros m; cbn [foldl List.map In].
  - tauto.
  - rewrite IH, is_Some_recordHit. split; [intros [[H|H]|H]|intros [H|[H|H]]]; eauto.
Qed.

(** X4.  The frequency that the map records for a URL, after any sequence
    of successful search responses recorded from an empty map, is the
    number of hits with that URL among all the responses; a URL that no hit
    carries has no entry. *)
Theorem X4_frequency_counts_the_hits (responses : list (list SearchHit)) (u : string) :
  frequencyOf u (recorded responses) = occurrences u (hitUrls responses) /\
  (is_Some (map_get u (recorded responses)) <-> In u (hitUrls responses)).
Proof.
  unfold recorded, hitUrls. rewrite foldl_recordResponse.
  split; [by rewrite frequencyOf_hits|].
  rewrite is_Some_hits. cbn [map_get]. split; [intros [[? [=]]|H]; done|eauto].
Qed.

Lemma keys_bump (k : string) (m : FrequencyMap) :
  List.map fst (bump k m) = List.map fst m.
Proof.
  induction m as [|[k' e'] m IH]; [done|]. cbn [bump].
  destruct (String.eqb k' k); cbn [List.map fst]; by rewrite ?IH.
Qed.

Lemma set_has_keys (k : string) (m : FrequencyMap) :
  set_has k (List.map fst m) = bool_decide (is_Some (map_get k m)).
Proof.
  unfold set_has. induction m as [|[k' e'] m IH]; cbn [List.map fst existsb map_get].
  - rewrite bool_decide_eq_false_2; [done|by intros [? [=]]].
  - rewrite (String.eqb_sym k k'). destruct (String.eqb k' k); cbn [orb]; [|done].
    by rewrite bool_decide_eq_true_2.
Qed.

Lemma keys_recordHit (m : FrequencyMap) (h : SearchHit) :
  List.map fst (recordHit m h) = set_add (List.map fst m) (hit_url h).
Proof.
  unfold recordHit, set_add. rewrite set_has_keys.
  destruct (map_get (hit_url h) m) as [e|].
  - rewrite bool_decide_eq_true_2 by eauto. apply keys_bump.
  - rewrite bool_decide_eq_false_2 by (intros [? [=]]).
    by rewrite List.map_app.
Qed.

Lemma keys_hits (hits : list SearchHit) (m : FrequencyMap) :
  List.map fst (foldl recordHit m hits) =
  foldl set_add (List.map fst m) (List.map hit_url hits).
Proof.
  revert m. induction hits as [|h hits IH]; intros m; [done|].
  cbn [foldl List.map]. by rewrite IH, keys_recordHit.
Qed.

Lemma set_has_false (x : string) (l : list string) : set_has x l = false -> x ∉ l.
Proof.
  unfold set_has. induction l as [|y l IH]; cbn [existsb]; [by intros _ ?%elem_of_nil|].
  destruct (String.eqb_spec x y) as [->|Hn]; [done|]. cbn [orb].
  intros H [->|Hin]%elem_of_cons; [done|]. by apply IH.
Qed.

Lemma set_add_NoDup (l : list string) (x : string) : NoDup l -> NoDup (set_add l x).
Proof.
  intros Hl. unfold set_add. destruct (set_has x l) eqn:E; [done|].
  apply NoDup_app. split; [done|]. split; [|apply NoDup_singleton].
  intros y Hy ->%list_elem_of_singleton. by apply (set_has_false _ _ E).
Qed.

Lemma foldl_set_add_NoDup (xs l : list string) : NoDup l -> NoDup (foldl set_add l xs).
Proof.
  revert l. induction xs as [|x xs IH]; intros l Hl; [done|].
  cbn [foldl]. by apply IH, set_add_NoDup.
Qed.

Lemma keyed_bump (k : string) (m : FrequencyMap) :
  Forall keyed m -> Forall keyed (bump k m).
Proof.
  induction 1 as [|[k' e'] m Hk Hm IH]; [constructor|]. cbn [bump].
  destruct (String.eqb k' k); by constructor.
Qed.

Lemma keyed_hits (hits : list SearchHit) (m : FrequencyMap) :
  Forall keyed m -> Forall keyed (foldl recordHit m hits).
Proof.
  revert m. induction hits as [|h hits IH]; intros m Hm; [done|].
  cbn [foldl]. apply IH. unfold recordHit.
  destruct (map_get (hit_url h) m); [by apply keyed_bump|].
  apply Forall_app. split; [done|]. by repeat constructor.
Qed.

Lemma keyed_urls (m : FrequencyMap) :
  Forall keyed m -> List.map url (values m) = List.map fst m.
Proof.
  unfold values. induction 1 as [|[k e] m Hk Hm IH]; [done|].
  cbn [List.map snd fst]. unfold keyed in Hk. cbn in Hk. by rewrite Hk, IH.
Qed.

(** X5.  After any sequence of successful search responses recorded from
    an empty map, the map has one entry for each distinct URL, the entries
    are in the order in which the URLs were first seen, and each entry
    carries the URL under which it is stored. *)
Theorem X5_map_has_one_entry_per_url (responses : list (list SearchHit)) :
  List.map fst (recorded responses) = firstOccurrences (hitUrls responses) /\
  NoDup (List.map fst (recorded responses)) /\
  Forall keyed (recorded responses).
Proof.
  unfold recorded, hitUrls, firstOccurrences. rewrite foldl_recordResponse.
  rewrite keys_hits. split; [done|]. split.
  - apply foldl_set_add_NoDup. constructor.
  - apply keyed_hits. constructor.
Qed.

Lemma filter_Permutation_bool {A : Type} (f : A -> bool) (l k : list A) :
  l ≡ₚ k -> List.filter f l ≡ₚ List.filter f k.
Proof.
  induction 1 as [|x l k H IH|x y l|l k j H1 IH1 H2 IH2]; cbn [List.filter].
  - done.
  - destruct (f x); by rewrite IH.
  - destruct (f x), (f y); try done. apply Permutation_swap.
  - by rewrite IH1.
Qed.

Lemma sorted_unprocessed (m : FrequencyMap) (processedUrls : gset string) :
  List.filter (fun u => negb (bool_decide (u ∈ processedUrls)))
    (List.map url (sort byFrequency (values m)))
  ≡ₚ unprocessed m processedUrls.
Proof.
  unfold unprocessed. apply filter_Permutation_bool.
  apply Permutation_map, sort_perm.
Qed.

Lemma elem_of_filter_bool {A : Type} (f : A -> bool) (l : list A) (x : A) :
  x ∈ List.filter f l <-> x ∈ l /\ f x = true.
Proof. rewrite !list_elem_of_In. apply List.filter_In. Qed.

Lemma elem_of_set_add (u x : string) (l : list string) :
  u ∈ set_add l x <-> u ∈ l \/ u = x.
Proof.
  unfold set_add. destruct (set_has x l) eqn:E.
  - split; [by left|]. intros [H| ->]; [done|].
    unfold set_has in E. apply existsb_exists in E as (y & Hy & ->%String.eqb_eq).
    by apply list_elem_of_In.
  - rewrite elem_of_app, list_elem_of_singleton. done.
Qed.

Lemma elem_of_foldl_set_add (u : string) (xs l : list string) :
  u ∈ foldl set_add l xs <-> u ∈ l \/ u ∈ xs.
Proof.
  revert l. induction xs as [|x xs IH]; intros l; cbn [foldl].
  - split; [by left|]. by intros [H|H%elem_of_nil].
  - rewrite IH, elem_of_set_add, elem_of_cons. tauto.
Qed.

Lemma getUrlsToProcess_spec (m : FrequencyMap) (p : gset string) :
  length (getUrlsToProcess m p) = Nat.min 3 (length (unprocessed m p)) /\
  Forall (fun u => (u ∉ p) /\ (u ∈ List.map url (values m))) (getUrlsToProcess m p).
Proof.
  unfold getUrlsToProcess. split.
  - by rewrite length_take, (Permutation_length (sorted_unprocessed m p)).
  - apply Forall_forall. intros u Hu.
    pose proof (elem_of_sublist _ _ _ Hu (sublist_take _ _)) as Hu'.
    rewrite (sorted_unprocessed m p) in Hu'.
    apply elem_of_filter_bool in Hu' as [Hin Hp]. split; [|done].
    apply negb_true_iff, bool_decide_eq_false in Hp. done.
Qed.

Lemma getUrlsToProcess_NoDup (m : FrequencyMap) (p : gset string) :
  NoDup (List.map url (values m)) -> NoDup (getUrlsToProcess m p).
Proof.
  intros Hn. unfold getUrlsToProcess.
  eapply sublist_NoDup; [|apply sublist_take].
  rewrite (sorted_unprocessed m p). unfold unprocessed.
  eapply sublist_NoDup; [|apply filter_sublist]. done.
Qed.

(** X6.  The selection of the URLs to process returns three URLs, or all
    the unprocessed URLs of the map when there are fewer; none of them is
    processed already and each is the URL of an entry.  On a map built by
    recording search responses the selected URLs are pairwise distinct and
    each was returned by a search. *)
Theorem X6_selection_is_fresh_and_bounded :
  (forall (m : FrequencyMap) (processedUrls : gset string),
     length (getUrlsToProcess m processedUrls)
       = Nat.min 3 (length (unprocessed m processedUrls)) /\
     Forall (fun u => (u ∉ processedUrls) /\ (u ∈ List.map url (values m)))
            (getUrlsToProcess m processedUrls)) /\
  (forall (responses : list (list SearchHit)) (processedUrls : gset string),
     NoDup (getUrlsToProcess (recorded responses) processedUrls) /\
     Forall (fun u => u ∈ hitUrls responses)
            (getUrlsToProcess (recorded responses) processedUrls)).
Proof.
  split; [exact getUrlsToProcess_spec|]. intros responses p.
  assert (Hy : Forall keyed (recorded responses)).
  { unfold recorded. rewrite foldl_recordResponse. apply keyed_hits. constructor. }
  assert (Hk : List.map fst (recorded responses)
               = foldl set_add [] (hitUrls responses)).
  { unfold recorded, hitUrls. rewrite foldl_recordResponse. apply keys_hits. }
  split.
  - apply getUrlsToProcess_NoDup.
    rewrite (keyed_urls _ Hy), Hk. apply foldl_set_add_NoDup. constructor.
  - destruct (getUrlsToProcess_spec (recorded responses) p) as [_ Hall].
    eapply Forall_impl; [exact Hall|]. intros u [_ Hu]. cbn beta in Hu.
    rewrite (keyed_urls _ Hy), Hk in Hu.
    apply elem_of_foldl_set_add in Hu as [Hu%elem_of_nil|Hu]; done.
Qed.

Lemma keys_is_Some (u : string) (m : FrequencyMap) :
  u ∈ List.map fst m <-> is_Some (map_get u m).
Proof.
  induction m as [|[k e] m IH]; cbn [List.map fst map_get].
  - split; [by intros ?%elem_of_nil|by intros [? [=]]].
  - rewrite elem_of_cons, IH. destruct (String.eqb_spec k u) as [->|Hn].
    + split; eauto.
    + split; [intros [->|H]; done|by right].
Qed.

End TallyFacts.

(** ** Searcher and extractor: what the retries do *)

Section SearcherFacts.
Import JS Async Ranker Searcher.


End SearcherFacts.

Section TraceFacts.
Import JS Async Json State Extractor Trace.

(** The events of one iteration: the extract call alone, the extract call
    followed by the scrape call when the response was unsuccessful, or the
    extract call followed by the pause when the [try] block threw. *)
Lemma attempt_events (w : Capabilities) (url : string) (i : nat) :
  snd (attempt w url i) = [CallExtract url i] \/
  (snd (attempt w url i) = [CallExtract url i; CallScrape url i] /\ unsuccessful w i) \/
  (snd (attempt w url i) = [CallExtract url i; Sleep (1000 * 2 ^ i)] /\
   fst (attempt w url i) = Next).
Proof.
  unfold attempt, tryBody, mbind, outcome_bind, unsuccessful.
  destruct (extractReply w i) as [result|e]; cbn [bind]; [|by right; right].
  destruct (success result) eqn:Es.
  - destruct (normalize url result); cbn [bind snd fst]; [by left|by right; right].
  - destruct (looksEmpty result); [|by left].
    destruct (scrapeFallback url (scrapeReply w i)); cbn [snd]; right; left; eauto.
Qed.

(** X8.  One call of [extractWithRetry] calls [app.extract] at least once
    and at most three times, in the iterations 0, 1, 2 in order; it calls
    [app.scrapeUrl] at most once per iteration and only after an extract
    response that resolved unsuccessfully; its pauses add up to at most
    7000 ms; and every call is made on the URL it was given. *)
Theorem X8_extract_calls_are_bounded (w : Capabilities) (url prompt : string) :
  exists n : nat,
    1 <= n <= 3 /\
    extractCalls (snd (extractWithRetry w url prompt)) = seq 0 n /\
    scrapeCalls (snd (extractWithRetry w url prompt)) `sublist_of` seq 0 n /\
    Forall (unsuccessful w) (scrapeCalls (snd (extractWithRetry w url prompt))) /\
    sleepTotal (snd (extractWithRetry w url prompt)) <= 7 * 1000 /\
    forallb (onUrl url) (snd (extractWithRetry w url prompt)) = true.
Proof.
  unfold extractWithRetry. cbn [attemptsFrom Nat.add].
  pose proof (attempt_events w url 0) as H0.
  pose proof (attempt_events w url 1) as H1.
  pose proof (attempt_events w url 2) as H2.
  destruct (attempt w url 0) as [[fs0|] e0]; cbn [fst snd] in H0.
  - exists 1. destruct H0 as [->|[[-> Hu]|[-> [=]]]];
      cbn; rewrite ?String.eqb_refl;
      repeat split; try lia; try done; repeat constructor; done.
  - destruct (attempt w url 1) as [[fs1|] e1]; cbn [fst snd] in H1.
    + exists 2.
      destruct H0 as [->|[[-> Hu0]|[-> _]]];
        destruct H1 as [->|[[-> Hu1]|[-> [=]]]];
        cbn; rewrite ?String.eqb_refl;
        repeat split; try lia; try done; repeat constructor; done.
    + destruct (attempt w url 2) as [[fs2|] e2]; cbn [fst snd] in H2.
      * exists 3.
        destruct H0 as [->|[[-> Hu0]|[-> _]]];
          destruct H1 as [->|[[-> Hu1]|[-> _]]];
          destruct H2 as [->|[[-> Hu2]|[-> [=]]]];
          cbn; rewrite ?String.eqb_refl;
          repeat split; try lia; try done; repeat constructor; done.
      * exists 3.
        destruct H0 as [->|[[-> Hu0]|[-> _]]];
          destruct H1 as [->|[[-> Hu1]|[-> _]]];
          destruct H2 as [->|[[-> Hu2]|[-> _]]];
          cbn; rewrite ?String.eqb_refl;
          repeat split; try lia; try done; repeat constructor; done.
Qed.

End TraceFacts.

(** ** Key constraints and the eval-mode handler *)

Section ConstraintFacts.
Import JS Regex Async Json State Terms Extractor Constraints.

Lemma plainConstraint_sublist (items : list JValue) :
  List.map JStr (omap plainConstraint items) `sublist_of` items.
Proof.
  induction items as [|c items IH]; cbn [omap list_omap]; [constructor|].
  destruct (plainConstraint c) as [s|] eqn:E; cbn [List.map].
  - destruct c as [| | |t| |]; try discriminate. cbn [plainConstraint] in E.
    destruct (_ && _); [|discriminate]. injection E as <-. by constructor.
  - by constructor.
Qed.

Lemma plainConstraint_length (items : list JValue) :
  Forall (fun c => 2 < String.length c < 50) (omap plainConstraint items).
Proof.
  induction items as [|c items IH]; cbn [omap list_omap]; [constructor|].
  destruct (plainConstraint c) as [s|] eqn:E; [|done].
  constructor; [|done].
  destruct c as [| | |t| |]; try discriminate. cbn [plainConstraint] in E.
  destruct (2 <? String.length t) eqn:E1; [|discriminate].
  destruct (String.length t <? 50) eqn:E2; [|discriminate].
  injection E as <-. apply Nat.ltb_lt in E1, E2. lia.
Qed.

Lemma Forall_filter_bool {A : Type} (P : A -> Prop) (f : A -> bool) (l : list A) :
  Forall P l -> Forall (fun x => P x /\ f x = true) (List.filter f l).
Proof.
  induction 1 as [|x l Hx Hl IH]; cbn [List.filter]; [constructor|].
  destruct (f x) eqn:E; [by constructor|done].
Qed.

Lemma split_length_pos (sep : ascii) (s : string) : 1 <= length (split sep s).
Proof.
  pose proof (split_nonempty sep s). destruct (split sep s); [done|cbn; lia].
Qed.

Lemma Forall_sublist {A : Type} (P : A -> Prop) (l k : list A) :
  l `sublist_of` k -> Forall P k -> Forall P l.
Proof.
  intros Hs Hk. apply Forall_forall. intros x Hx.
  rewrite Forall_forall in Hk. apply Hk. by eapply elem_of_sublist.
Qed.

Lemma map_sublist {A B : Type} (f : A -> B) (l k : list A) :
  l `sublist_of` k -> List.map f l `sublist_of` List.map f k.
Proof. induction 1; cbn [List.map]; by constructor. Qed.


(** The question of the example has no key term. *)
Lemma fallback_of_empty_question :
  extractConstraintsWithLLM EmptyString (Rejected {| message := "model is down" |})
  = [EmptyString].
Proof. vm_compute. reflexivity. Qed.

Lemma filterOutcome_sublist {A : Type} (f : A -> Outcome bool) (l ys : list A) :
  filterOutcome f l = Resolved ys -> ys `sublist_of` l.
Proof.
  revert ys. induction l as [|x l IH]; intros ys; cbn [filterOutcome].
  - intros [= <-]. constructor.
  - unfold mbind, outcome_bind. destruct (f x) as [b|e]; cbn [bind]; [|discriminate].
    destruct (filterOutcome f l) as [zs|e]; cbn [bind]; [|discriminate].
    intros [= <-]. destruct b; constructor; by apply IH.
Qed.

Lemma filterOutcome_mentions (c : string) (fs : list Finding) :
  match filterOutcome (mentions c) fs with
  | Resolved ys => Forall (fun f => is_Some (text f)) fs
  | Rejected e =>
      Exists (fun f => text f = None) fs /\
      e = TypeError "Cannot read properties of undefined (reading 'toLowerCase')"
  end.
Proof.
  induction fs as [|f fs IH]; cbn [filterOutcome]; [constructor|].
  unfold mbind, outcome_bind, mentions at 1.
  destruct (text f) as [t|] eqn:Et; cbn [bind].
  - destruct (filterOutcome (mentions c) fs) as [zs|e]; cbn [bind].
    + constructor; [by rewrite Et|done].
    + destruct IH as [IH ->]. split; [by right|done].
  - split; [by left|done].
Qed.

(** X10.  The coverage analysis of the final synthesis throws exactly
    when there is at least one constraint and some finding has no text
    (the extract response had no data): the method call on the absent text
    raises a [TypeError].  Otherwise it yields one item per constraint, in
    order, whose coverage is the number of its sources, and whose sources
    are sources of findings in the order of the findings. *)
Theorem X10_coverage_throws_on_a_finding_without_text (keyConstraints : list string)
    (findings : list Finding) :
  match constraintCoverage keyConstraints findings with
  | Resolved items =>
      (keyConstraints = [] \/ Forall (fun f => is_Some (text f)) findings) /\
      List.map constraint items = keyConstraints /\
      Forall (fun cc => coverage cc = length (sources cc) /\
                        sources cc `sublist_of` List.map source findings) items
  | Rejected e =>
      keyConstraints <> [] /\
      Exists (fun f => text f = None) findings /\
      e = TypeError "Cannot read properties of undefined (reading 'toLowerCase')"
  end.
Proof.
  unfold constraintCoverage.
  induction keyConstraints as [|c cs IH]; cbn [mapOutcome].
  - split; [by left|]. split; [done|constructor].
  - unfold mbind, outcome_bind.
    pose proof (filterOutcome_mentions c findings) as Hm.
    destruct (filterOutcome (mentions c) findings) as [ys|e] eqn:Ef; cbn [bind].
    + destruct (mapOutcome _ cs) as [items|e]; cbn [bind].
      * destruct IH as (_ & IH1 & IH2). split; [by right|].
        split; [cbn [List.map constraint]; by rewrite IH1|].
        constructor; [|done]. cbn [coverage sources].
        split; [by rewrite length_map|].
        apply map_sublist. by eapply filterOutcome_sublist.
      * destruct IH as (_ & IH1 & IH2). done.
    + destruct Hm as [Hm ->]. done.
Qed.

End ConstraintFacts.

Section HandlerFacts.
Import JS Regex Async Json State Formatter Shape Constraints Loop Handler.

Lemma includes_app_r (a b w : string) :
  includes b w = true -> includes (a +:+ b) w = true.
Proof.
  intros H. induction a as [|c a IH]; [done|].
  change (String c a +:+ b) with (String c (a +:+ b)).
  cbn [includes]. rewrite IH. apply orb_true_r.
Qed.

Lemma noAnswer_includes (q : string) : includes (noAnswer q) "Exact Answer:" = true.
Proof. unfold noAnswer. do 6 apply includes_app_r. reflexivity. Qed.

Lemma hardFallback_threeSections : threeSections hardFallback.
Proof.
  exists "Explanation: The research did not produce a specific match for the requested constraints.",
         "Exact Answer: Unknown", "Confidence: 0%".
  repeat split; reflexivity.
Qed.

Lemma responseContent_shape (finalText q : string) :
  threeSections (responseContent finalText q) /\
  includes (responseContent finalText q) "Exact Answer:" = true /\
  trim (responseContent finalText q) = responseContent finalText q.
Proof.
  unfold responseContent.
  destruct (includes (ensureValidBrowseCompFormat finalText q) "Exact Answer:") eqn:E;
    cbn [negb].
  - split; [apply ensureValid_threeSections|]. split; [done|apply ensureValid_trimmed].
  - split; [apply hardFallback_threeSections|]. split; reflexivity.
Qed.

Lemma blank_shape (q : string) :
  threeSections (ensureValidBrowseCompFormat EmptyString q) /\
  includes (ensureValidBrowseCompFormat EmptyString q) "Exact Answer:" = true /\
  trim (ensureValidBrowseCompFormat EmptyString q)
    = ensureValidBrowseCompFormat EmptyString q.
Proof.
  change (ensureValidBrowseCompFormat EmptyString q) with (noAnswer q).
  split; [apply noAnswer_threeSections|].
  split; [apply noAnswer_includes|apply noAnswer_trim].
Qed.


Lemma coverage_rejects (keyConstraints : list string) (findings : list Finding) :
  keyConstraints <> [] ->
  Exists (fun f => text f = None) findings ->
  exists e, constraintCoverage keyConstraints findings = Rejected e.
Proof.
  intros Hc Hf. destruct keyConstraints as [|c cs]; [done|].
  unfold constraintCoverage. cbn [Extractor.mapOutcome]. unfold mbind, outcome_bind.
  pose proof (filterOutcome_mentions c findings) as H.
  destruct (filterOutcome (mentions c) findings) as [ys|e]; cbn [bind]; [|by eexists].
  exfalso. apply Exists_exists in Hf as (f & Hin & Hnone).
  rewrite Forall_forall in H. specialize (H f Hin). rewrite Hnone in H.
  by destruct H.
Qed.



End HandlerFacts.

(** ** Research loop: what a run keeps *)

Section LoopInvariants.
Import JS Async Json State Terms Ranker Tally Loop Invariants.

Variable parseURL : string -> option Urls.URL.
Variable lastUserMessage : string.

(** What the topic selection leaves as it is, beyond [sameCore]. *)
Lemma selectTopic_keeps (h : HopScript) (st : ResearchState) :
  summaries (snd (selectTopic lastUserMessage h st)) = summaries st /\
  subAnswers (snd (selectTopic lastUserMessage h st)) = subAnswers st /\
  answeredSubquestions st
    `prefix_of` answeredSubquestions (snd (selectTopic lastUserMessage h st)).
Proof.
  unfold selectTopic.
  repeat match goal with
         | |- context [if ?b then _ else _] => destruct b
         | |- context [match ?x with _ => _ end] => destruct x
         end; cbn; repeat split; try done; by apply prefix_app_r.
Qed.

Lemma chooseTopic_keeps (h : HopScript) (st : ResearchState) :
  summaries (snd (chooseTopic lastUserMessage h st)) = summaries st /\
  subAnswers (snd (chooseTopic lastUserMessage h st)) = subAnswers st /\
  answeredSubquestions st
    `prefix_of` answeredSubquestions (snd (chooseTopic lastUserMessage h st)).
Proof.
  unfold chooseTopic. pose proof (selectTopic_keeps h st) as H.
  destruct (selectTopic lastUserMessage h st) as [topic st1]. cbn [snd] in H.
  by destruct (_ && _).
Qed.

Lemma failAttempt_keeps (st : ResearchState) :
  findings (snd (failAttempt st)) = findings st /\
  summaries (snd (failAttempt st)) = summaries st /\
  subAnswers (snd (failAttempt st)) = subAnswers st /\
  answeredSubquestions (snd (failAttempt st)) = answeredSubquestions st /\
  processedUrls (snd (failAttempt st)) = processedUrls st /\
  urlFrequencyMap (snd (failAttempt st)) = urlFrequencyMap st.
Proof. unfold failAttempt. cbn. by destruct (_ <=? _). Qed.

Lemma analyse_keeps (h : HopScript) (topic : string) (st : ResearchState) :
  findings (snd (analyse h topic st)) = findings st /\
  summaries st `prefix_of` summaries (snd (analyse h topic st)) /\
  subAnswers st `prefix_of` subAnswers (snd (analyse h topic st)) /\
  answeredSubquestions (snd (analyse h topic st)) = answeredSubquestions st /\
  processedUrls (snd (analyse h topic st)) = processedUrls st /\
  urlFrequencyMap (snd (analyse h topic st)) = urlFrequencyMap st /\
  length (summaries (snd (analyse h topic st))) + failedAttempts (snd (analyse h topic st))
    = length (summaries st) + failedAttempts st + 1.
Proof.
  unfold analyse. destruct (analysisReply h) as [analysis|].
  - repeat match goal with
           | |- context [if ?b then _ else _] => destruct b
           | |- context [match ?x with _ => _ end] => destruct x
           end; cbn; rewrite ?length_app; cbn;
      repeat split; try done; try (by apply prefix_app_r); lia.
  - pose proof (failAttempt_keeps st) as (-> & -> & -> & -> & -> & ->).
    pose proof (failAttempt_spec st) as (_ & -> & _).
    repeat split; try done. lia.
Qed.

Lemma extractFromUrls_nil (caps : string -> Extractor.Capabilities) (prompt : string) :
  extractFromUrls parseURL caps [] prompt = [].
Proof. reflexivity. Qed.

(** What one hop does to the state. *)
Lemma hop_effect (h : HopScript) (st : ResearchState) :
  urlFrequencyMap (snd (hop parseURL lastUserMessage h st))
    = runSearches h (urlFrequencyMap st) /\
  processedUrls (snd (hop parseURL lastUserMessage h st))
    = list_to_set (topUrlsOf h st) ∪ processedUrls st /\
  findings (snd (hop parseURL lastUserMessage h st))
    = findings st ++
      extractFromUrls parseURL (capabilities h) (topUrlsOf h st) (extractionPrompt h) /\
  summaries st `prefix_of` summaries (snd (hop parseURL lastUserMessage h st)) /\
  subAnswers st `prefix_of` subAnswers (snd (hop parseURL lastUserMessage h st)) /\
  answeredSubquestions st
    `prefix_of` answeredSubquestions (snd (hop parseURL lastUserMessage h st)) /\
  length (summaries (snd (hop parseURL lastUserMessage h st)))
    + failedAttempts (snd (hop parseURL lastUserMessage h st))
    = length (summaries st) + failedAttempts st + 1.
Proof.
  unfold hop, topUrlsOf.
  pose proof (chooseTopic_frame lastUserMessage h st) as (Hd & Hf & Hm & Hfi & Hu & Hp).
  pose proof (chooseTopic_keeps h st) as (Hs & Ha & Hq).
  destruct (chooseTopic lastUserMessage h st) as [topic st1]. cbn [snd] in *.
  cbn [urlFrequencyMap processedUrls withUrlFrequencyMap].
  rewrite Hu, Hp.
  set (m := runSearches h (urlFrequencyMap st)).
  set (topUrls := getUrlsToProcess m (processedUrls st)).
  destruct (length topUrls =? 0) eqn:Et.
  - apply Nat.eqb_eq in Et. destruct topUrls; [|done].
    pose proof (failAttempt_keeps (withUrlFrequencyMap st1 m))
      as (-> & -> & -> & -> & -> & ->).
    pose proof (failAttempt_spec (withUrlFrequencyMap st1 m)) as (_ & -> & _).
    cbn. rewrite Hfi, Hs, Ha, Hf, Hp, app_nil_r, (left_id_L ∅ (∪)).
    repeat split; try done. lia.
  - match goal with
    | |- context [analyse h topic ?s] =>
        pose proof (analyse_keeps h topic s) as (-> & H2 & H3 & -> & -> & -> & ->)
    end.
    cbn [findings summaries subAnswers answeredSubquestions processedUrls
         urlFrequencyMap failedAttempts withFindings withProcessedUrls
         withUrlFrequencyMap] in *.
    rewrite ?Hfi, ?Hp, ?Hs, ?Hf. rewrite ?Hfi, ?Hp, ?Hs in H2.
    rewrite ?Hfi, ?Hp, ?Ha in H3.
    repeat split; try done.
Qed.

(** The five searches of a hop record a list of hits that does not depend
    on the map. *)
Lemma runSearches_hits (h : HopScript) :
  exists hits, forall m, runSearches h m = foldl recordHit m hits.
Proof.
  assert (G : forall qs, exists hits,
            forall m, foldl (recordSearch h) m qs = foldl recordHit m hits).
  { induction qs as [|q qs [hits IH]].
    - by exists [].
    - assert (exists hs, forall m, recordSearch h m q = foldl recordHit m hs)
        as [hs Hhs].
      { unfold recordSearch.
        destruct (Searcher.searchWithRetry (searchReply h q)) as [r|e];
          [|by exists []].
        destruct (Searcher.success r); [|by exists []].
        by exists (Searcher.data r). }
      exists (hs ++ hits). intros m. cbn [foldl].
      by rewrite IH, Hhs, foldl_app. }
  apply G.
Qed.

Lemma extract_sources (caps : string -> Extractor.Capabilities)
    (urls : list string) (prompt : string) :
  Forall (fun f => (source f ∈ urls) /\ Urls.keepUrl parseURL (source f) = true)
         (extractFromUrls parseURL caps urls prompt).
Proof.
  unfold extractFromUrls, Urls.filterUrls.
  assert (G : forall (l : list string) (acc : list Finding) (Q : string -> Prop),
    (forall u, u ∈ l -> Q u) ->
    Forall (fun f => Q (source f)) acc ->
    Forall (fun f => Q (source f))
      (foldl (fun results url =>
           match fst (Extractor.extractWithRetry (caps url) url prompt) with
           | Resolved extractResults =>
               if 0 <? length extractResults then results ++ extractResults
               else results
           | Rejected error => results
           end) acc l)).
  { induction l as [|u l IH]; intros acc Q HQ Hacc; [done|].
    cbn [foldl]. apply IH; [intros v Hv; apply HQ; by right|].
    unfold Extractor.extractWithRetry.
    destruct (attemptsFrom_settles (caps u) u (2 + 1) 0) as (fs & evs & -> & Hsrc & _).
    cbn [fst]. destruct (0 <? length fs); [|done].
    apply Forall_app. split; [done|].
    eapply Forall_impl; [exact Hsrc|]. intros f ->. apply HQ. by left. }
  apply (G _ [] (fun u => (u ∈ urls) /\ Urls.keepUrl parseURL u = true));
    [|constructor].
  intros u Hu. by apply elem_of_filter_bool in Hu.
Qed.

Lemma grows_refl (st : ResearchState) : grows st st.
Proof. by repeat split. Qed.

Lemma grows_trans (a b c : ResearchState) : grows a b -> grows b c -> grows a c.
Proof.
  intros (H1 & H2 & H3 & H4 & H5 & H6) (G1 & G2 & G3 & G4 & G5 & G6).
  repeat split; try (by etrans). intros u. specialize (H6 u). specialize (G6 u). lia.
Qed.

Lemma hop_grows (h : HopScript) (st : ResearchState) :
  grows st (snd (hop parseURL lastUserMessage h st)).
Proof.
  destruct (hop_effect h st) as (Hu & Hp & Hf & Hs & Ha & Hq & _).
  repeat split; try done.
  - rewrite Hf. by apply prefix_app_r.
  - rewrite Hp. apply union_subseteq_r.
  - intros u. rewrite Hu. destruct (runSearches_hits h) as [hits ->].
    rewrite frequencyOf_hits. lia.
Qed.

Lemma depth_grows (st : ResearchState) (d : nat) : grows st (withCurrentDepth st d).
Proof. by repeat split. Qed.

Section Runs.
Variable script : nat -> HopScript.

(** How an invariant of the tops of the iterations reaches the exit of
    the loop. *)
Lemma researchLoop_invariant (Top Exit : ResearchState -> Prop) :
  (forall st, Top st -> Exit st) ->
  (forall k st, Top st -> currentDepth st < maxDepth ->
     Exit (snd (hop parseURL lastUserMessage (script k)
                  (withCurrentDepth st (currentDepth st + 1)))) /\
     (fst (hop parseURL lastUserMessage (script k)
             (withCurrentDepth st (currentDepth st + 1))) = Continue ->
      Top (snd (hop parseURL lastUserMessage (script k)
                  (withCurrentDepth st (currentDepth st + 1)))))) ->
  forall fuel k st final n,
    researchLoop parseURL lastUserMessage script fuel k st = Some (final, n) ->
    Top st -> Exit final.
Proof.
  intros Hexit Hstep. induction fuel as [|fuel IH]; intros k st final n; [done|].
  cbn [researchLoop]. destruct (currentDepth st <? maxDepth) eqn:Ed.
  - apply Nat.ltb_lt in Ed.
    destruct (timeLimit <=? elapsed (script k))%Z.
    { intros [= <- <-] Ht. by apply Hexit. }
    intros Hrun Ht. destruct (Hstep k st Ht Ed) as [He Hc].
    destruct (hop parseURL lastUserMessage (script k) _) as [[|] st'];
      cbn [fst snd] in *.
    + destruct (researchLoop _ _ _ fuel (S k) st') as [[f m]|] eqn:Er; [|done].
      injection Hrun as <- <-. eapply IH; [exact Er|]. by apply Hc.
    + by injection Hrun as <- <-.
  - intros [= <- <-] Ht. by apply Hexit.
Qed.

End Runs.


Lemma size_union_le (X Y : gset string) : size (X ∪ Y) <= size X + size Y.
Proof.
  rewrite size_union_alt.
  assert (size (Y ∖ X) <= size Y); [|lia].
  apply subseteq_size. by apply subseteq_difference_l.
Qed.

Lemma size_list_to_set_le (l : list string) :
  size (list_to_set l : gset string) <= length l.
Proof.
  induction l as [|x l IH]; cbn [list_to_set length].
  - by rewrite size_empty.
  - etrans; [apply size_union_le|]. rewrite size_singleton. lia.
Qed.

Lemma topUrlsOf_spec (h : HopScript) (st : ResearchState) :
  length (topUrlsOf h st) <= 3 /\
  Forall (fun u => (u ∉ processedUrls st) /\
                   (u ∈ List.map url (values (runSearches h (urlFrequencyMap st)))))
         (topUrlsOf h st).
Proof.
  unfold topUrlsOf.
  destruct (getUrlsToProcess_spec (runSearches h (urlFrequencyMap st)) (processedUrls st))
    as [Hl Hall].
  split; [lia|done].
Qed.

Lemma hop_provenance (h : HopScript) (st : ResearchState) :
  provenance parseURL st ->
  provenance parseURL (snd (hop parseURL lastUserMessage h st)).
Proof.
  intros (Hf & Hp & Hk). unfold provenance.
  destruct (hop_effect h st) as (-> & -> & -> & _).
  destruct (topUrlsOf_spec h st) as [_ Htop].
  destruct (runSearches_hits h) as [hits Hhits]. rewrite Hhits in *.
  assert (Hk' : Forall keyed (foldl recordHit (urlFrequencyMap st) hits))
    by by apply keyed_hits.
  split; [|split; [|done]].
  - apply Forall_app. split.
    + eapply Forall_impl; [exact Hf|]. intros f [H1 H2]. split; [|done].
      apply elem_of_union. by right.
    + eapply Forall_impl; [apply extract_sources|]. intros f [H1 H2]. split; [|done].
      apply elem_of_union. left. by apply elem_of_list_to_set.
  - intros u [Hu|Hu]%elem_of_union.
    + apply elem_of_list_to_set in Hu.
      rewrite Forall_forall in Htop. destruct (Htop u Hu) as [_ Hin].
      rewrite (keyed_urls _ Hk') in Hin. by apply keys_is_Some.
    + apply is_Some_hits. left. by apply Hp.
Qed.

Lemma initial_provenance : provenance parseURL initialState.
Proof.
  split; [constructor|]. split; [|constructor].
  intros u Hu. by apply elem_of_empty in Hu.
Qed.


Lemma hop_accounts (h : HopScript) (st : ResearchState) :
  accounts (currentDepth st) st ->
  failedAttempts st < 3 ->
  accounts (currentDepth st + 1)
    (snd (hop parseURL lastUserMessage h (withCurrentDepth st (currentDepth st + 1)))) /\
  (fst (hop parseURL lastUserMessage h (withCurrentDepth st (currentDepth st + 1)))
     = Continue ->
   failedAttempts
     (snd (hop parseURL lastUserMessage h (withCurrentDepth st (currentDepth st + 1))))
   < 3).
Proof.
  intros (_ & Hsum & Hsize & Hle & Hmax) Hlt.
  set (st1 := withCurrentDepth st (currentDepth st + 1)).
  destruct (hop_effect h st1) as (_ & Hp & _ & _ & _ & _ & Hacc).
  pose proof (hop_spec parseURL lastUserMessage h st1) as (Hd & Hm & Hf).
  destruct (topUrlsOf_spec h st1) as [Hlen _].
  cbn [currentDepth failedAttempts maxFailedAttempts summaries processedUrls
       withCurrentDepth st1] in *.
  assert (Hfail : failedAttempts (snd (hop parseURL lastUserMessage h st1))
                  <= failedAttempts st + 1)
    by (destruct (_ || _); [destruct Hf as [-> _]|rewrite Hf]; lia).
  split; [repeat split|].
  - exact Hd.
  - fold st1. lia.
  - fold st1. rewrite Hp. etrans; [apply size_union_le|].
    pose proof (size_list_to_set_le (topUrlsOf h st1)). lia.
  - fold st1. lia.
  - fold st1. lia.
  - fold st1. intros Hc. destruct (_ || _); [|lia].
    destruct Hf as [-> Hb].
    destruct (decide (maxFailedAttempts st <= failedAttempts st + 1)) as [H|H]; [|lia].
    apply Hb in H. congruence.
Qed.


Section Tops.
Variable script : nat -> HopScript.

Lemma loopTops_head (fuel k : nat) (st a : ResearchState) :
  loopTops parseURL lastUserMessage script fuel k st !! 0 = Some a -> a = st.
Proof. destruct fuel; [done|]. cbn. by intros [= <-]. Qed.

(** Two consecutive tops are related by a hop that ends with
    [continue]. *)
Lemma loopTops_step (fuel k i : nat) (st a b : ResearchState) :
  loopTops parseURL lastUserMessage script fuel k st !! i = Some a ->
  loopTops parseURL lastUserMessage script fuel k st !! S i = Some b ->
  hop parseURL lastUserMessage (script (k + i))
    (withCurrentDepth a (currentDepth a + 1)) = (Continue, b).
Proof.
  revert k i st. induction fuel as [|fuel IH]; intros k i st; [done|].
  cbn [loopTops]. destruct i as [|i].
  - cbn [lookup list_lookup]. intros [= <-].
    destruct (currentDepth st <? maxDepth); [|done].
    destruct (timeLimit <=? elapsed (script k))%Z; [done|].
    rewrite Nat.add_0_r.
    destruct (hop parseURL lastUserMessage (script k) _) as [[|] st1]; [|done].
    intros H. by apply loopTops_head in H as ->.
  - cbn [lookup list_lookup].
    destruct (currentDepth st <? maxDepth); [|done].
    destruct (timeLimit <=? elapsed (script k))%Z; [done|].
    destruct (hop parseURL lastUserMessage (script k) _) as [[|] st1]; [|done].
    intros Ha Hb. replace (k + S i) with (S k + i) by lia. by eapply IH.
Qed.

Lemma loopTops_grows (fuel k i j : nat) (st a b : ResearchState) :
  i <= j ->
  loopTops parseURL lastUserMessage script fuel k st !! i = Some a ->
  loopTops parseURL lastUserMessage script fuel k st !! j = Some b ->
  grows a b.
Proof.
  intros Hij Ha. revert b. induction Hij as [|j Hij IH]; intros b Hb.
  - rewrite Ha in Hb. injection Hb as <-. apply grows_refl.
  - assert (is_Some (loopTops parseURL lastUserMessage script fuel k st !! j))
      as [c Hc].
    { apply lookup_lt_is_Some. apply lookup_lt_Some in Hb. lia. }
    eapply grows_trans; [by apply IH|].
    pose proof (loopTops_step _ _ _ _ _ _ Hc Hb) as Hhop.
    eapply grows_trans; [apply (depth_grows c (currentDepth c + 1))|].
    pose proof (hop_grows (script (k + j)) (withCurrentDepth c (currentDepth c + 1))) as G.
    by rewrite Hhop in G.
Qed.

End Tops.


End LoopInvariants.

Section LoopInvariantExamples.
Import JS Async Json State Terms Ranker Tally Loop Invariants Handler.



End LoopInvariantExamples.

(** ** Key terms *)

Section KeyTermFacts.
Import JS Regex JSArray Terms KeyTerms.

Lemma insert_sorted_Permutation {A : Type} (cmp : A -> A -> Z) (x : A) (l : list A) :
  insert_sorted cmp x l ≡ₚ x :: l.
Proof.
  induction l as [|y l IH]; cbn [insert_sorted]; [done|].
  destruct (cmp x y <=? 0)%Z; [done|].
  rewrite IH. apply Permutation_swap.
Qed.

Lemma sort_Permutation {A : Type} (cmp : A -> A -> Z) (l : list A) :
  sort cmp l ≡ₚ l.
Proof.
  unfold sort. induction l as [|x l IH]; cbn [foldr]; [done|].
  by rewrite insert_sorted_Permutation, IH.
Qed.

Lemma insert_sorted_byLength (x : string) (l : list string) :
  StronglySorted (fun a b => String.length b <= String.length a) l ->
  StronglySorted (fun a b => String.length b <= String.length a)
    (insert_sorted byLength x l).
Proof.
  induction 1 as [|y l Hl IH Hy]; cbn [insert_sorted]; [repeat constructor|].
  destruct (byLength x y <=? 0)%Z eqn:E.
  - apply Z.leb_le in E. unfold byLength in E.
    constructor; [by constructor|]. constructor; [lia|].
    eapply Forall_impl; [exact Hy|]. intros z Hz. cbn beta in Hz. lia.
  - apply Z.leb_gt in E. unfold byLength in E. constructor; [done|].
    rewrite insert_sorted_Permutation. constructor; [lia|done].
Qed.

Lemma sort_byLength (l : list string) :
  StronglySorted (fun a b => String.length b <= String.length a) (sort byLength l).
Proof.
  unfold sort. induction l as [|x l IH]; cbn [foldr]; [constructor|].
  by apply insert_sorted_byLength.
Qed.

Lemma StronglySorted_take {A : Type} (R : A -> A -> Prop) (n : nat) (l : list A) :
  StronglySorted R l -> StronglySorted R (take n l).
Proof.
  intros H. revert n. induction H as [|x l Hl IH Hx]; intros [|n]; cbn [take];
    try constructor; [by apply IH|].
  eapply Forall_sublist; [apply sublist_take|done].
Qed.

Lemma foldl_cond_set_add_NoDup {A : Type} (f : A -> option string) (xs : list A)
    (l : list string) :
  NoDup l ->
  NoDup (foldl (fun kw m => match f m with Some w => set_add kw w | None => kw end) l xs).
Proof.
  revert l. induction xs as [|x xs IH]; intros l Hl; [done|].
  cbn [foldl]. apply IH. destruct (f x); [by apply set_add_NoDup|done].
Qed.

Lemma keywords_NoDup (question : string) : NoDup (keywords question).
Proof.
  unfold keywords. do 3 apply foldl_set_add_NoDup.
  set (f2 := fun m : rmatch_result =>
               if longer 2 (trim (m_text m)) &&
                  negb (set_has (toLowerCase (trim (m_text m))) stopwords)
               then Some (trim (m_text m)) else None).
  set (f1 := fun m : rmatch_result =>
               if longer 2 (default EmptyString (group m 1))
               then Some (trim (default EmptyString (group m 1))) else None).
  match goal with
  | |- NoDup (foldl ?g2 (foldl ?g1 [] ?l1) ?l2) =>
      assert (E2 : forall kw m, g2 kw m
                 = match f2 m with Some w => set_add kw w | None => kw end)
        by (intros kw m; unfold f2; cbv zeta; by destruct (_ && _));
      assert (E1 : forall kw m, g1 kw m
                 = match f1 m with Some w => set_add kw w | None => kw end)
        by (intros kw m; unfold f1; cbv zeta; by destruct (longer _ _));
      assert (G : forall (g g' : list string -> rmatch_result -> list string) l acc,
                 (forall kw m, g kw m = g' kw m) -> foldl g acc l = foldl g' acc l)
        by (intros g g' l; induction l as [|y l IHl]; intros acc Hg; cbn [foldl];
            [done|by rewrite Hg, IHl]);
      rewrite (G _ _ l2 _ E2), (G _ _ l1 _ E1)
  end.
  apply foldl_cond_set_add_NoDup, foldl_cond_set_add_NoDup. constructor.
Qed.

(** X17.  The key terms of a question are joined from a list of at most
    eight terms that are pairwise distinct and ordered by decreasing length,
    each of them one of the keywords collected from the question. *)
Theorem X17_key_terms_are_few_distinct_and_longest_first (question : string) :
  extractKeyTerms question = join " " (keyTerms question) /\
  length (keyTerms question) <= 8 /\
  NoDup (keyTerms question) /\
  StronglySorted (fun a b => String.length b <= String.length a) (keyTerms question) /\
  (forall w, w ∈ keyTerms question -> w ∈ keywords question).
Proof.
  split; [reflexivity|]. unfold keyTerms.
  split; [rewrite length_take; lia|]. split; [|split].
  - eapply sublist_NoDup; [|apply sublist_take].
    rewrite sort_Permutation. apply keywords_NoDup.
  - apply StronglySorted_take, sort_byLength.
  - intros w Hw. rewrite <- (sort_Permutation byLength).
    by eapply elem_of_sublist; [|apply sublist_take].
Qed.

End KeyTermFacts.

(** ** Session management and the DELETE handler *)

Section AuthFacts.
Import JS Async Auth.

Lemma hasId_user (session : option Session) :
  hasId session = true ->
  exists (s : Session) (u : User) (ident : string),
    session = Some s /\ session_user s = Some u /\
    user_id u = Some ident /\ ident <> EmptyString /\
    emailOf session = user_email u.
Proof.
  unfold hasId, emailOf, userOf. destruct session as [s|]; [|done].
  destruct (session_user s) as [u|] eqn:Eu; [|done].
  destruct (user_id u) as [ident|] eqn:Ei; [|done].
  intros H. exists s, u, ident. repeat split; try done. by destruct ident.
Qed.

(** The loop makes at most one call of [auth] and one call of [getUser]
    per round and no call of [signIn]; the number of [getUser] calls that
    it reports is the number made. *)
Lemma awaitSession_calls (w : AuthWorld) (retries a u : nat) (session : option Session) :
  authCalls (snd (awaitSession w retries a u session)) <= retries /\
  getUserCalls (snd (awaitSession w retries a u session)) <= retries /\
  signInCalls (snd (awaitSession w retries a u session)) = 0 /\
  forall s' u', fst (awaitSession w retries a u session) = Resolved (s', u') ->
    u' = u + getUserCalls (snd (awaitSession w retries a u session)).
Proof.
  revert a u session. induction retries as [|r IH]; intros a u session.
  - cbn. repeat split; try lia. intros s' u' [= _ <-]. lia.
  - cbn [awaitSession]. destruct (authReply w a) as [session'|e].
    2: { cbn. repeat split; try lia. done. }
    destruct (hasId session').
    + destruct (getUserReply w u (emailOf session')) as [users|e].
      2: { cbn. repeat split; try lia. done. }
      destruct (0 <? length users).
      { cbn. repeat split; try lia. intros s' u' [= _ <-]. lia. }
      specialize (IH (S a) (S u) session').
      destruct (awaitSession w r (S a) (S u) session') as [res evs].
      cbn [fst snd] in *. destruct IH as (H1 & H2 & H3 & H4).
      unfold authCalls, getUserCalls, signInCalls in *. cbn [List.filter app length].
      repeat split; try lia. intros s' u' Hr. specialize (H4 s' u' Hr). lia.
    + specialize (IH (S a) u session').
      destruct (awaitSession w r (S a) u session') as [res evs].
      cbn [fst snd] in *. destruct IH as (H1 & H2 & H3 & H4).
      unfold authCalls, getUserCalls, signInCalls in *. cbn [List.filter app length].
      repeat split; try lia. intros s' u' Hr. specialize (H4 s' u' Hr). lia.
Qed.

Lemma establish_calls (w : AuthWorld) (session : option Session) :
  authCalls (snd (establish w session)) <= 3 /\
  getUserCalls (snd (establish w session)) <= 3 /\
  signInCalls (snd (establish w session)) <= 1 /\
  (hasUser session = true -> snd (establish w session) = []) /\
  forall s' u', fst (establish w session) = Resolved (s', u') ->
    u' = getUserCalls (snd (establish w session)).
Proof.
  unfold establish. destruct (hasUser session).
  { cbn. repeat split; try lia; try done. by intros s' u' [= _ <-]. }
  destruct (signInReply w) as [result|e].
  2: { cbn. repeat split; try lia; done. }
  destruct (signInFailed result).
  { cbn. repeat split; try lia; done. }
  pose proof (awaitSession_calls w 3 1 0 session) as (H1 & H2 & H3 & H4).
  destruct (awaitSession w 3 1 0 session) as [[[s1 u1]|e] evs]; cbn [fst snd] in *.
  - destruct (hasUser s1); cbn [fst snd]; unfold authCalls, getUserCalls, signInCalls in *;
      cbn [List.filter length]; repeat split; try lia; try done.
  - unfold authCalls, getUserCalls, signInCalls in *;
      cbn [List.filter length]; repeat split; try lia; done.
Qed.

Lemma filter_length_snoc {A : Type} (f : A -> bool) (l : list A) (x : A) :
  length (List.filter f (l ++ [x])) = length (List.filter f l) + (if f x then 1 else 0).
Proof.
  rewrite List.filter_app, length_app. cbn [List.filter].
  destruct (f x); cbn [length]; lia.
Qed.

Lemma ensure_spec (w : AuthWorld) :
  authCalls (snd (ensureAuthenticatedSession w)) <= 4 /\
  signInCalls (snd (ensureAuthenticatedSession w)) <= 1 /\
  getUserCalls (snd (ensureAuthenticatedSession w)) <= 4 /\
  forall s, fst (ensureAuthenticatedSession w) = Resolved s ->
    verified w s (Nat.pred (getUserCalls (snd (ensureAuthenticatedSession w)))).
Proof.
  unfold ensureAuthenticatedSession. destruct (authReply w 0) as [session0|e].
  2: { cbn. repeat split; try lia. by intros ? [=]. }
  pose proof (establish_calls w session0) as (H1 & H2 & H3 & _ & H5).
  destruct (establish w session0) as [[[session u]|e] evs]; cbn [fst snd] in *.
  2: { unfold authCalls, getUserCalls, signInCalls in *. cbn [fst snd List.filter length].
       repeat split; try lia. by intros ? [=]. }
  specialize (H5 session u eq_refl).
  destruct session as [s|].
  2: { unfold authCalls, getUserCalls, signInCalls in *. cbn [fst snd List.filter length].
       repeat split; try lia. by intros ? [=]. }
  destruct (hasId (Some s)) eqn:Hid.
  2: { unfold authCalls, getUserCalls, signInCalls in *. cbn [fst snd List.filter length].
       repeat split; try lia. by intros ? [=]. }
  destruct (hasId_user _ Hid) as (s0 & usr & ident & [= <-] & Hu & Hi & Hne & Hem).
  destruct (getUserReply w u (emailOf (Some s))) as [users|e] eqn:Eg.
  - destruct (length users =? 0) eqn:El; cbn [fst snd];
      unfold authCalls, getUserCalls, signInCalls in *; cbn [fst snd List.filter length];
      rewrite !filter_length_snoc; repeat split; try lia; try done.
    intros s' [= <-]. exists usr, ident, users.
    replace (Nat.pred _) with u by lia. rewrite <- Hem, Eg.
    repeat split; try done. apply Nat.eqb_neq in El. by destruct users.
  - cbn [fst snd]. unfold authCalls, getUserCalls, signInCalls in *.
    cbn [fst snd List.filter length]. rewrite !filter_length_snoc.
    repeat split; try lia. by intros ? [=].
Qed.

(** X18.  [ensureAuthenticatedSession] makes at most four calls of
    [auth], one call of [signIn] and four calls of [getUser].  A session
    that it returns carries a user whose identifier is a string that is not
    empty, and its last call of [getUser], made with the email of that
    user, found at least one user.  When the first session already has a
    user, [signIn] is not called. *)
Theorem X18_session_is_verified_within_bounded_calls (w : AuthWorld) :
  authCalls (snd (ensureAuthenticatedSession w)) <= 4 /\
  signInCalls (snd (ensureAuthenticatedSession w)) <= 1 /\
  getUserCalls (snd (ensureAuthenticatedSession w)) <= 4 /\
  match fst (ensureAuthenticatedSession w) with
  | Resolved s =>
      verified w s (Nat.pred (getUserCalls (snd (ensureAuthenticatedSession w))))
  | Rejected _ => True
  end /\
  match authReply w 0 with
  | Resolved session0 =>
      if hasUser session0
      then signInCalls (snd (ensureAuthenticatedSession w)) = 0
      else True
  | Rejected _ => True
  end.
Proof.
  destruct (ensure_spec w) as (H1 & H2 & H3 & H4).
  split; [done|]. split; [done|]. split; [done|]. split.
  { destruct (fst (ensureAuthenticatedSession w)) as [s|e] eqn:E; [|done]. by apply H4. }
  destruct (authReply w 0) as [session0|e] eqn:Ha; [|done].
  destruct (hasUser session0) eqn:Hu; [|done].
  unfold ensureAuthenticatedSession. rewrite Ha.
  pose proof (establish_calls w session0) as (_ & _ & _ & Hnil & _).
  specialize (Hnil Hu).
  destruct (establish w session0) as [[[session u]|e] evs]; cbn [snd] in Hnil; subst evs.
  - destruct session as [s|]; [|done]. destruct (hasId (Some s)); [|done].
    destruct (getUserReply w u _) as [users|e]; [destruct (length users =? 0)|]; done.
  - done.
Qed.

(** A world in which the first session is anonymous and the sign-in
    gives a user at the second round. *)
Lemma anonymous_session_is_established :
  ensureAuthenticatedSession
    {| authReply := fun i =>
         if i <? 2 then Resolved None
         else Resolved (Some {| session_user :=
                 Some {| user_id := Some "u1"; user_email := Some "a@b.c" |} |});
       signInReply := Resolved None;
       getUserReply := fun _ _ =>
         Resolved [ {| user_id := Some "u1"; user_email := Some "a@b.c" |} ] |}
  = (Resolved {| session_user :=
                 Some {| user_id := Some "u1"; user_email := Some "a@b.c" |} |},
     [CallAuth 0; CallSignIn; CallAuth 1; Wait 1000; CallAuth 2;
      CallGetUser 0 (Some "a@b.c"); CallGetUser 1 (Some "a@b.c")]).
Proof. reflexivity. Qed.

End AuthFacts.

Section DeletionFacts.
Import JS Async Auth Deletion.

(** X19.  The DELETE handler asks for the deletion of a chat only when
    the request names a chat, the session is verified, the chat exists and
    its owner is the user of the session; it answers 200 exactly when that
    deletion was asked for and succeeded; and it answers 404 exactly when
    the request names no chat, in which case nothing is called. *)
Theorem X19_only_the_owner_deletes (idParam : option string) (w : World) :
  (forall id, In (DeleteChat id) (snd (DELETE idParam w)) ->
     idParam = Some id /\ id <> EmptyString /\
     exists (session : Session) (u : User) (ident : string) (chat : Chat),
       fst (ensureAuthenticatedSession (auth_world w)) = Resolved session /\
       session_user session = Some u /\ user_id u = Some ident /\
       ident <> EmptyString /\
       getChatReply w = Resolved (Some chat) /\ userId chat = Some ident) /\
  (status (fst (DELETE idParam w)) = 200 <->
     (exists id, In (DeleteChat id) (snd (DELETE idParam w))) /\
     deleteReply w = Resolved tt) /\
  (status (fst (DELETE idParam w)) = 404 <->
     (idParam = None \/ idParam = Some EmptyString)) /\
  (status (fst (DELETE idParam w)) = 404 -> snd (DELETE idParam w) = []) /\
  (status (fst (DELETE idParam w)) = 200 \/ status (fst (DELETE idParam w)) = 401 \/
   status (fst (DELETE idParam w)) = 404 \/ status (fst (DELETE idParam w)) = 500).
Proof.
  assert (Hno : forall (evs : list AuthEvent) (l : list Event) id,
            In (DeleteChat id) (List.map DuringSession evs ++ l) -> In (DeleteChat id) l).
  { intros evs l id [H|H]%in_app_or; [|done].
    apply in_map_iff in H as (e & [=] & _). }
  assert (Hmap : forall (evs : list AuthEvent) id,
            ~ In (DeleteChat id) (List.map DuringSession evs)).
  { intros evs id (e & [=] & _)%in_map_iff. }
  unfold DELETE. destruct idParam as [[|c rest]|].
  { cbn. split; [by intros id []|]. split; [split; [done|by intros [[? []] _]]|].
    split; [split; [by right|done]|]. split; [done|]. right; right; by left. }
  2: { cbn. split; [by intros id []|]. split; [split; [done|by intros [[? []] _]]|].
       split; [split; [by left|done]|]. split; [done|]. right; right; by left. }
  pose proof (ensure_spec (auth_world w)) as (_ & _ & _ & Hv).
  destruct (ensureAuthenticatedSession (auth_world w)) as [[session|e] evs];
    cbn [fst snd] in *.
  2: { cbn [status failure].
       split; [intros id H; by apply Hmap in H|].
       split; [split; [done|intros [[id H] _]; by apply Hmap in H]|].
       split; [split; [done|by intros [[=]|[=]]]|]. split; [done|].
       right; right; by right. }
  destruct (Hv session eq_refl) as (u & ident & users & Hu & Hi & Hne & _).
  destruct (getChatReply w) as [[chat|]|e] eqn:Ec; cbn [fst snd].
  2,3: cbn [status failure];
       (split; [intros id H%Hno; by destruct H as [[=]|[]]|]);
       (split; [split; [done|intros [[id H%Hno] _]; by destruct H as [[=]|[]]]|]);
       (split; [split; [done|by intros [[=]|[=]]]|]); (split; [done|]);
       right; right; by right.
  rewrite Hu. cbn [mbind option_bind]. rewrite Hi.
  destruct (bool_decide (userId chat = Some ident)) eqn:Eo; cbn [negb fst snd].
  - apply bool_decide_eq_true in Eo.
    assert (Hdel : forall id, In (DeleteChat id)
                     (List.map DuringSession evs ++ [GetChat (String c rest);
                                                    DeleteChat (String c rest)]) ->
              id = String c rest).
    { intros id H%Hno. by destruct H as [[=]|[[= <-]|[]]]. }
    destruct (deleteReply w) as [[]|e] eqn:Ed; cbn [fst snd status failure].
    + split.
      { intros id H. apply Hdel in H as ->. split; [done|]. split; [done|].
        by exists session, u, ident, chat. }
      split.
      { split; [|done]. intros _. split; [|done].
        exists (String c rest). apply in_or_app. right. right. by left. }
      split; [split; [done|by intros [[=]|[=]]]|]. split; [done|]. by left.
    + split.
      { intros id H. apply Hdel in H as ->. split; [done|]. split; [done|].
        by exists session, u, ident, chat. }
      split; [split; [done|by intros [_ [=]]]|].
      split; [split; [done|by intros [[=]|[=]]]|]. split; [done|].
      right; right; by right.
  - cbn [status].
    split; [intros id H%Hno; by destruct H as [[=]|[]]|].
    split; [split; [done|intros [[id H%Hno] _]; by destruct H as [[=]|[]]]|].
    split; [split; [done|by intros [[=]|[=]]]|]. split; [done|].
    right; by left.
Qed.

(** A world in which the owner deletes a chat: the session is signed in,
    the chat belongs to its user, and the deletion succeeds. *)
Lemma owner_deletes_chat :
  DELETE (Some "chat-1")
    {| auth_world :=
         {| authReply := fun _ =>
              Resolved (Some {| session_user :=
                 Some {| user_id := Some "u1"; user_email := Some "a@b.c" |} |});
            signInReply := Resolved None;
            getUserReply := fun _ _ =>
              Resolved [ {| user_id := Some "u1"; user_email := Some "a@b.c" |} ] |};
       getChatReply := Resolved (Some {| userId := Some "u1" |});
       deleteReply := Resolved tt |}
  = ({| status := 200; body := "Chat deleted" |},
     [DuringSession (CallAuth 0); DuringSession (CallGetUser 0 (Some "a@b.c"));
      GetChat "chat-1"; DeleteChat "chat-1"]).
Proof. vm_compute. reflexivity. Qed.

End DeletionFacts.

(** ** The search tool of the chat *)

Section ToolFacts.
Import JS Async Urls Ranker Tools.

Variable parseURL : string -> option URL.
Variable invalidUrl : string.

Lemma mapOutcome_withFavicon (hits : list SearchHit) :
  match Extractor.mapOutcome (withFavicon parseURL invalidUrl) hits with
  | Resolved ds =>
      List.map result ds = hits /\
      Forall (fun d => exists url, parseURL (hit_url (result d)) = Some url /\
                favicon d = "https://www.google.com/s2/favicons?domain="
                              +:+ hostname url +:+ "&sz=32") ds
  | Rejected e =>
      Exists (fun h => parseURL (hit_url h) = None) hits /\ e = TypeError invalidUrl
  end.
Proof.
  induction hits as [|h hits IH]; cbn [Extractor.mapOutcome]; [by split|].
  unfold mbind, outcome_bind, withFavicon at 1.
  destruct (parseURL (hit_url h)) as [url|] eqn:Eu; cbn [bind].
  - destruct (Extractor.mapOutcome _ hits) as [ds|e]; cbn [bind].
    + destruct IH as [IH1 IH2]. split; [cbn; by rewrite IH1|].
      constructor; [|done]. exists url. by split.
    + destruct IH as [IH ->]. split; [by right|done].
  - split; [by left|done].
Qed.


End ToolFacts.

(** ** The matcher is sound *)

Section MatcherSoundness.
Import JS Regex RegexSpec.

Variable fl : flags.

(** Whenever the matcher succeeds, the continuation was called, with the
    same result, on a state that the pattern can reach. *)
Lemma rmatch_sound (r : regex) :
  forall (st : mstate) (k : mstate -> option mstate) (e : mstate),
    rmatch fl r st k = Some e ->
    exists st', Matches fl r st st' /\ k st' = Some e.
Proof.
  induction r as [|c|invert p| |r1 IH1 r2 IH2|r1 IH1 r2 IH2|min max greedy r1 IH1
                  |i r1 IH1|r1 IH1| | |]; intros st k e; cbn [rmatch].
  - intros H. exists st. split; [constructor|done].
  - unfold step_char. destruct (rest st) as [|a s'] eqn:Er; [done|].
    destruct (chr_eq fl a c) eqn:Ec; [|done].
    intros H. exists (advance st a s'). split; [by constructor|done].
  - unfold step_char. destruct (rest st) as [|a s'] eqn:Er; [done|].
    destruct (xorb invert (cls_mem fl p a)) eqn:Ec; [|done].
    intros H. exists (advance st a s'). split; [by constructor|done].
  - unfold step_char. destruct (rest st) as [|a s'] eqn:Er; [done|].
    destruct (dot_ok fl a) eqn:Ec; [|done].
    intros H. exists (advance st a s'). split; [by constructor|done].
  - intros H. apply IH1 in H as (st1 & H1 & H). apply IH2 in H as (st2 & H2 & H).
    exists st2. split; [by econstructor|done].
  - destruct (rmatch fl r1 st k) as [z|] eqn:E1.
    + intros [= <-]. apply IH1 in E1 as (st' & H1 & H).
      exists st'. split; [by apply M_alt_l|done].
    + intros H. apply IH2 in H as (st' & H2 & H).
      exists st'. split; [by apply M_alt_r|done].
  - generalize (min + String.length (rest st) + 1). intros fuel.
    revert min max st. induction fuel as [|fuel IHf]; intros min max st; [done|].
    destruct max as [[|m]|].
    + intros H. exists st. split; [apply M_rep_full|done].
    + destruct min as [|min]; cbn [Nat.eqb negb andb].
      * destruct greedy.
        -- destruct (rmatch fl r1 _ _) as [z|] eqn:E1.
           ++ intros [= <-]. apply IH1 in E1 as (y & Hy & Hd).
              destruct (pos y =? pos st); [done|].
              apply IHf in Hd as (st' & Hs & Hk).
              exists st'. split; [|done]. by eapply M_rep_more.
           ++ intros H. exists st. split; [apply M_rep_stop|done].
        -- destruct (k st) as [z|] eqn:Ek.
           ++ intros [= <-]. exists st. split; [apply M_rep_stop|done].
           ++ intros E1. apply IH1 in E1 as (y & Hy & Hd).
              destruct (pos y =? pos st); [done|].
              apply IHf in Hd as (st' & Hs & Hk).
              exists st'. split; [|done]. by eapply M_rep_more.
      * intros E1. apply IH1 in E1 as (y & Hy & Hd).
        apply IHf in Hd as (st' & Hs & Hk).
        exists st'. split; [|done]. by eapply M_rep_more.
    + destruct min as [|min]; cbn [Nat.eqb negb andb].
      * destruct greedy.
        -- destruct (rmatch fl r1 _ _) as [z|] eqn:E1.
           ++ intros [= <-]. apply IH1 in E1 as (y & Hy & Hd).
              destruct (pos y =? pos st); [done|].
              apply IHf in Hd as (st' & Hs & Hk).
              exists st'. split; [|done]. by eapply M_rep_more.
           ++ intros H. exists st. split; [apply M_rep_stop|done].
        -- destruct (k st) as [z|] eqn:Ek.
           ++ intros [= <-]. exists st. split; [apply M_rep_stop|done].
           ++ intros E1. apply IH1 in E1 as (y & Hy & Hd).
              destruct (pos y =? pos st); [done|].
              apply IHf in Hd as (st' & Hs & Hk).
              exists st'. split; [|done]. by eapply M_rep_more.
      * intros E1. apply IH1 in E1 as (y & Hy & Hd).
        apply IHf in Hd as (st' & Hs & Hk).
        exists st'. split; [|done]. by eapply M_rep_more.
  - intros H. apply IH1 in H as (st1 & H1 & H).
    exists (set_cap i (pos st, pos st1) st1). split; [by constructor|done].
  - destruct (rmatch fl r1 st Some) as [st1|] eqn:E1; [|done].
    intros H. apply IH1 in E1 as (st' & H1 & [= ->]).
    exists (with_caps st (caps st1)). split; [by constructor|done].
  - destruct (pos st =? 0) eqn:E; [|done]. apply Nat.eqb_eq in E.
    intros H. exists st. split; [by constructor|done].
  - destruct (rest st) eqn:E; [|done].
    intros H. exists st. split; [by constructor|done].
  - destruct (xorb _ _) eqn:E; [|done].
    intros H. exists st. split; [by constructor|done].
Qed.

Lemma append_nil_r (w : string) : w +:+ EmptyString = w.
Proof.
  induction w as [|c w IH]; [done|].
  change (String c (w +:+ EmptyString) = String c w). by rewrite IH.
Qed.

Lemma length_append (a b : string) :
  String.length (a +:+ b) = String.length a + String.length b.
Proof.
  induction a as [|c a IH]; [done|].
  change (S (String.length (a +:+ b)) = S (String.length a) + String.length b).
  by rewrite IH.
Qed.

(** A match consumes a text of the language of the pattern. *)
Lemma Matches_consumes (r : regex) (st st' : mstate) :
  Matches fl r st st' ->
  exists w, Lang fl r w /\ rest st = w +:+ rest st' /\
            pos st' = pos st + String.length w.
Proof.
  induction 1 as [st|c st a s' Hr Hc|invert p st a s' Hr Hc|st a s' Hr Hc
                  |r1 r2 st st1 st2 H1 IH1 H2 IH2|r1 r2 st st' H IH|r1 r2 st st' H IH
                  |max greedy r st|min greedy r st
                  |min max greedy r st st1 st2 Hmax H1 IH1 H2 IH2
                  |i r st st1 H IH|r st st1 H IH|st Hp|st Hr|st Hw].
  - exists EmptyString. split; [constructor|]. split; [done|cbn; lia].
  - exists (String a EmptyString). split; [by constructor|]. cbn. split; [done|cbn; lia].
  - exists (String a EmptyString). split; [by constructor|]. cbn. split; [done|cbn; lia].
  - exists (String a EmptyString). split; [by constructor|]. cbn. split; [done|cbn; lia].
  - destruct IH1 as (w1 & L1 & R1 & P1). destruct IH2 as (w2 & L2 & R2 & P2).
    exists (w1 +:+ w2). split; [by constructor|].
    rewrite append_assoc, <- R2, length_append. split; [done|cbn; lia].
  - destruct IH as (w & L & R & P). exists w. split; [by apply L_alt_l|done].
  - destruct IH as (w & L & R & P). exists w. split; [by apply L_alt_r|done].
  - exists EmptyString. split; [constructor|]. split; [done|cbn; lia].
  - exists EmptyString. split; [constructor|]. split; [done|cbn; lia].
  - destruct IH1 as (w1 & L1 & R1 & P1). destruct IH2 as (w2 & L2 & R2 & P2).
    cbn [rest pos clear_caps with_caps] in *.
    exists (w1 +:+ w2). split; [by eapply L_rep_more|].
    rewrite append_assoc, <- R2, length_append. split; [done|cbn; lia].
  - destruct IH as (w & L & R & P). exists w. split; [by constructor|done].
  - exists EmptyString. split; [constructor|]. cbn. split; [done|cbn; lia].
  - exists EmptyString. split; [constructor|]. split; [done|cbn; lia].
  - exists EmptyString. split; [constructor|]. split; [done|cbn; lia].
  - exists EmptyString. split; [constructor|]. split; [done|cbn; lia].
Qed.

Lemma substring_from_app (w t : string) :
  substring_from (String.length w) (w +:+ t) = t.
Proof.
  induction w as [|c w IH]; [by destruct t|].
  change (substring_from (String.length w) (w +:+ t) = t). exact IH.
Qed.

Lemma substring_from_add (i j : nat) (s : string) :
  substring_from (i + j) s = substring_from j (substring_from i s).
Proof.
  revert s. induction i as [|i IH]; intros s; cbn [Nat.add substring_from].
  - by destruct s.
  - destruct s as [|c s]; [by destruct j|]. apply IH.
Qed.

Lemma substring_to_app (w t : string) :
  substring_to (String.length w) (w +:+ t) = w.
Proof.
  induction w as [|c w IH]; [by destruct t|].
  change (String c (substring_to (String.length w) (w +:+ t)) = String c w).
  by rewrite IH.
Qed.

Lemma substring_from_length (i : nat) (s : string) :
  String.length (substring_from i s) = String.length s - i.
Proof.
  revert s. induction i as [|i IH]; intros s; cbn [substring_from].
  - destruct s; cbn; lia.
  - destruct s as [|c s]; [done|]. cbn. apply IH.
Qed.

(** Between two positions of the input lies the text that was consumed. *)
Lemma positioned_step (input : string) (st st' : mstate) (w : string) :
  positioned input st ->
  rest st = w +:+ rest st' ->
  pos st' = pos st + String.length w ->
  positioned input st' /\ substring (pos st) (pos st') input = w.
Proof.
  intros [Hr Hp] Hw Hpos. unfold positioned.
  assert (Hlen : String.length (rest st) = String.length input - pos st)
    by (rewrite Hr; apply substring_from_length).
  rewrite Hw, length_append in Hlen.
  split; [split|].
  - rewrite Hpos, substring_from_add, <- Hr, Hw. by rewrite substring_from_app.
  - lia.
  - unfold substring. rewrite <- Hr, Hw, Hpos.
    replace (pos st + String.length w - pos st) with (String.length w) by lia.
    apply substring_to_app.
Qed.

Lemma Matches_positioned (input : string) (r : regex) (st st' : mstate) :
  positioned input st -> Matches fl r st st' ->
  positioned input st' /\
  Lang fl r (substring (pos st) (pos st') input) /\
  pos st <= pos st'.
Proof.
  intros Hp Hm. destruct (Matches_consumes r st st' Hm) as (w & L & R & P).
  destruct (positioned_step input st st' w Hp R P) as [H1 H2].
  rewrite H2. split; [done|]. split; [done|lia].
Qed.

(** The search starts the match at a position of the input. *)
Lemma search_from_sound (input : string) (r : regex) (s : string)
    (pv : option ascii) (p : nat) (b e : mstate) :
  s = substring_from p input -> p <= String.length input ->
  search_from fl r pv p s = Some (b, e) ->
  positioned input b /\ caps b = [] /\ p <= pos b /\ Matches fl r b e.
Proof.
  revert pv p. induction s as [|a s IH]; intros pv p Hs Hp; cbn [search_from].
  - unfold match_here.
    destruct (rmatch fl r _ Some) as [z|] eqn:E; [|done].
    intros [= <- <-]. apply rmatch_sound in E as (st' & Hm & [= ->]).
    repeat split; try done; cbn; lia.
  - unfold match_here.
    destruct (rmatch fl r _ Some) as [z|] eqn:E.
    + intros [= <- <-]. apply rmatch_sound in E as (st' & Hm & [= ->]).
      repeat split; try done; cbn; lia.
    + intros H.
      assert (Hlen : String.length (String a s) = String.length input - p)
        by (rewrite Hs; apply substring_from_length).
      cbn [String.length] in Hlen.
      apply (IH (Some a) (S p)) in H as (H1 & H2 & H3 & H4); [| |lia].
      * split; [done|]. split; [done|]. split; [lia|done].
      * replace (S p) with (p + 1) by lia.
        rewrite substring_from_add, <- Hs. done.
Qed.

Lemma exec_sound (r : regex) (input : string) (m : rmatch_result) :
  exec fl r input = Some m ->
  exists b e, positioned input b /\ caps b = [] /\ Matches fl r b e /\
              m = result_of input b e.
Proof.
  unfold exec. destruct (search_from fl r None 0 input) as [[b e]|] eqn:E; [|done].
  intros [= <-]. apply (search_from_sound input) in E as (H1 & H2 & _ & H4).
  - by exists b, e.
  - by destruct input.
  - lia.
Qed.

End MatcherSoundness.

(** ** What the patterns of the formatter accept *)

Section PatternFacts.
Import JS Regex RegexSpec Formatter.

Lemma allOf_app (f : ascii -> bool) (a b : string) :
  allOf f (a +:+ b) = allOf f a && allOf f b.
Proof.
  induction a as [|c a IH]; [done|].
  change (f c && allOf f (a +:+ b) = f c && allOf f a && allOf f b).
  rewrite IH. by destruct (f c).
Qed.

(** The text of a bounded repetition of a class. *)
Lemma Lang_rep_cls (fl : flags) (greedy invert : bool) (p : ascii -> bool)
    (r : regex) (w : string) :
  Lang fl r w ->
  forall (min : nat) (max : option nat),
    r = Rep min max greedy (Cls invert p) ->
    (forall m, max = Some m -> min <= m) ->
    allOf (fun a => xorb invert (cls_mem fl p a)) w = true /\
    min <= String.length w /\
    forall m, max = Some m -> String.length w <= m.
Proof.
  induction 1 as [| | | | | | |mx g r0|mn g r0|mn mx g r0 w1 w2 Hmax H1 IH1 H2 IH2
                  | | | | |]; intros min max Er Hle; try discriminate.
  - injection Er as E1 E2 E3 E4; subst. cbn. repeat split; try lia.
  - injection Er as E1 E2 E3 E4; subst. specialize (Hle 0 eq_refl).
    cbn. repeat split; try lia.
  - injection Er as E1 E2 E3 E4; subst.
    inversion H1 as [| |iv q a Ha| | | | | | | | | | | |]; subst.
    destruct (IH2 _ _ eq_refl) as (A & B & C).
    { intros m Hm. destruct max as [x|]; [|done]. injection Hm as <-.
      specialize (Hle x eq_refl). cbn. lia. }
    change (String a EmptyString +:+ w2) with (String a w2).
    cbn [allOf String.length]. rewrite Ha, A. repeat split; [lia|].
    intros m ->. specialize (C (Nat.pred m) eq_refl).
    destruct m; [done|]. cbn in C. lia.
Qed.

Lemma percent_only (fl : flags) (a : ascii) : chr_eq fl a "%" = true -> a = "%"%char.
Proof.
  destruct fl as [[] ds];
    destruct a as [[] [] [] [] [] [] [] []]; vm_compute; intros H;
    first [discriminate H | reflexivity].
Qed.

Lemma digit_class (fl : flags) (a : ascii) :
  (cls_mem fl isDigit a = true -> isDigit a = true) /\
  (cls_mem fl (in_range "0" "9") a = true -> isDigit a = true) /\
  (cls_mem fl (in_range "1" "9") a = true -> isDigit a = true) /\
  (chr_eq fl a "0" = true -> isDigit a = true) /\
  (chr_eq fl a "1" = true -> isDigit a = true).
Proof.
  destruct fl as [[] ds];
    destruct a as [[] [] [] [] [] [] [] []]; vm_compute;
    repeat split; intros H; first [discriminate H | reflexivity].
Qed.

Lemma allOf_impl (f g : ascii -> bool) (s : string) :
  (forall a, f a = true -> g a = true) -> allOf f s = true -> allOf g s = true.
Proof.
  intros Hfg. induction s as [|c s IH]; [done|]. cbn [allOf].
  intros [H1 H2]%andb_prop. by rewrite (Hfg c H1), IH.
Qed.

(** [\d{1,3}%] accepts one to three digits and a percent sign. *)
Lemma Lang_digits_percent (fl : flags) (w : string) :
  Lang fl (Seq (Rep 1 (Some 3) true digit) (Chr "%")) w ->
  exists ds, w = ds +:+ "%" /\ shortNumber ds.
Proof.
  intros H. inversion H as [| | | |r1 r2 w1 w2 H1 H2| | | | | | | | | |]; subst.
  inversion H2 as [|c a Ha| | | | | | | | | | | | |]; subst.
  apply percent_only in Ha as ->.
  destruct (Lang_rep_cls fl true false isDigit _ _ H1 1 (Some 3) eq_refl) as (A & B & C).
  { intros m [= <-]. lia. }
  exists w1. split; [done|]. split; [|split; [done|by apply C]].
  eapply allOf_impl; [|exact A]. intros a Ha. cbn [xorb] in Ha.
  destruct (digit_class fl a) as (D & _). by apply D.
Qed.

Lemma digit_not_space (d : ascii) :
  isDigit d = true ->
  isWhiteSpace d = false /\ Ascii.eqb (toLowerChar d) "c" = false.
Proof.
  destruct d as [[] [] [] [] [] [] [] []]; vm_compute; intros H;
    first [discriminate H | done].
Qed.

Lemma shortNumber_percent_clean (ds : string) :
  shortNumber ds ->
  trim (ds +:+ "%") = ds +:+ "%" /\
  nonEmpty (ds +:+ "%") = true /\
  labelled "Confidence:" "confidence:" (ds +:+ "%") = "Confidence: " +:+ ds +:+ "%".
Proof.
  intros [Hd [Hl _]]. destruct ds as [|d ds]; [cbn in Hl; lia|].
  cbn [allOf] in Hd. apply andb_prop in Hd as [Hd _].
  destruct (digit_not_space d Hd) as [Hw Hc].
  split; [|split; [done|]].
  - apply trim_fixed; [done|]. split; [done|reflexivity].
  - unfold labelled.
    change (toLowerCase (String d ds +:+ "%"))
      with (String (toLowerChar d) (toLowerCase (ds +:+ "%"))).
    cbn [startsWith]. by rewrite Hc.
Qed.

(** The confidence that the salvage reads from a text is one to three
    digits followed by a percent sign. *)
Lemma salvaged_confidence (text : string) :
  section1 (exec flag_i confidenceSection text) = EmptyString \/
  exists ds, section1 (exec flag_i confidenceSection text) = ds +:+ "%" /\
             shortNumber ds.
Proof.
  destruct (exec flag_i confidenceSection text) as [m|] eqn:E; [|by left].
  right. apply exec_sound in E as (b & e & Hb & _ & Hm & ->).
  unfold confidenceSection in Hm.
  inversion Hm as [| | | |r1 r2 s0 s1 s2 H1 H2| | | | | | | | | |]; subst; clear Hm.
  apply (Matches_positioned _ text _ _ _ Hb) in H1 as (Hp1 & _ & _).
  inversion H2 as [| | | |r1 r2 s0 s2 s3 H3 H4| | | | | | | | | |]; subst; clear H2.
  apply (Matches_positioned _ text _ _ _ Hp1) in H3 as (Hp2 & _ & _).
  inversion H4 as [| | | | | | | | | |i r s0 s3 H5| | | |]; subst; clear H4.
  apply (Matches_positioned _ text _ _ _ Hp2) in H5 as (_ & HL & _).
  apply Lang_digits_percent in HL as (ds & Hds & Hn).
  exists ds. split; [|done].
  unfold section1, group, result_of. cbn [m_groups caps set_cap List.map List.find fst snd
    Nat.eqb fmap option_fmap option_map default].
  rewrite Hds. by apply shortNumber_percent_clean.
Qed.

Lemma trimStart_suffix (s : string) : exists lead, s = lead +:+ trimStart s.
Proof.
  induction s as [|c s [lead IH]]; [by exists EmptyString|].
  cbn [trimStart]. destruct (isWhiteSpace c).
  - exists (String c lead). change (String c s = String c (lead +:+ trimStart s)).
    by rewrite <- IH.
  - by exists EmptyString.
Qed.

Lemma append_empty (a b : string) : a +:+ b = EmptyString -> b = EmptyString.
Proof. by destruct a. Qed.

Lemma endsClean_suffix (a b : string) :
  b <> EmptyString -> endsClean (a +:+ b) -> endsClean b.
Proof.
  intros Hb [_ H]. split; [done|].
  induction a as [|c a IH]; [done|]. apply IH.
  change (String c a +:+ b) with (String c (a +:+ b)) in H.
  cbn [trimEnd] in H. destruct (trimEnd (a +:+ b)) as [|d r] eqn:E.
  - destruct (isWhiteSpace c); [done|].
    injection H as H. symmetry in H. by apply append_empty in H.
  - by injection H as H.
Qed.

(** The number of a confidence line is one to three digits. *)
Lemma Lang_number (fl : flags) (w : string) :
  Lang fl (Grp 1 (Alt (lit "100") (Seq (opt (range "1" "9")) (range "0" "9")))) w ->
  shortNumber w.
Proof.
  intros H.
  inversion H as [| | | | | | | | | |i r w0 H1| | | |]; subst; clear H.
  inversion H1 as [| | | | |r1 r2 w0 H2|r1 r2 w0 H2| | | | | | | |]; subst; clear H1.
  - inversion H2 as [| | | |r1 r2 w1 w2 A B| | | | | | | | | |]; subst; clear H2.
    inversion A as [|c a Ha| | | | | | | | | | | | |]; subst; clear A.
    inversion B as [| | | |r1 r2 w1 w3 C D| | | | | | | | | |]; subst; clear B.
    inversion C as [|c b Hb| | | | | | | | | | | | |]; subst; clear C.
    inversion D as [|c d Hd| | | | | | | | | | | | |]; subst; clear D.
    destruct (digit_class fl a) as (_ & _ & _ & _ & Da).
    destruct (digit_class fl b) as (_ & _ & _ & Db & _).
    destruct (digit_class fl d) as (_ & _ & _ & Dd & _).
    split; [|rewrite !length_append; cbn; lia].
    rewrite !allOf_app. cbn [allOf]. by rewrite (Da Ha), (Db Hb), (Dd Hd).
  - inversion H2 as [| | | |r1 r2 w1 w2 A B| | | | | | | | | |]; subst; clear H2.
    destruct (Lang_rep_cls fl true false (in_range "1" "9") _ _ A 0 (Some 1) eq_refl)
      as (A1 & _ & A3).
    { intros m [= <-]. lia. }
    specialize (A3 1 eq_refl).
    inversion B as [| |iv q a Ha| | | | | | | | | | | |]; subst; clear B.
    cbn [xorb] in Ha. destruct (digit_class fl a) as (_ & Da & _).
    split.
    + rewrite allOf_app. cbn [allOf]. rewrite (Da Ha).
      rewrite (allOf_impl (fun a => xorb false (cls_mem fl (in_range "1" "9") a))
                 isDigit w1); [done| |exact A1].
      intros c Hc. cbn [xorb] in Hc. destruct (digit_class fl c) as (_ & _ & Dc & _).
      by apply Dc.
    + rewrite length_append. cbn. lia.
Qed.

(** A text that the pattern of the confidence line accepts ends with its
    number and the percent sign. *)
Lemma confidenceLine_accepts (s : string) :
  test flag_i confidenceLine s = true -> endsWithPercentage s.
Proof.
  unfold test. destruct (search_from flag_i confidenceLine None 0 s) as [[b e]|] eqn:E;
    [|done]. intros _.
  apply (search_from_sound flag_i s) in E as (Hb & _ & _ & Hm);
    [|by destruct s|lia].
  unfold confidenceLine in Hm.
  inversion Hm as [| | | |r1 r2 s0 s1 s2 H1 H2| | | | | | | | | |]; subst; clear Hm.
  inversion H1 as [| | | | | | | | | | | |s0 Hpos| |]; subst; clear H1.
  destruct Hb as [Hrest _]. rewrite Hpos in Hrest.
  assert (Hs : rest s1 = s) by (rewrite Hrest; by destruct s). clear Hrest.
  inversion H2 as [| | | |r1 r2 s0 s2 s3 H3 H4| | | | | | | | | |]; subst; clear H2.
  apply Matches_consumes in H3 as (w1 & _ & R1 & _).
  inversion H4 as [| | | |r1 r2 s0 s3 s4 H5 H6| | | | | | | | | |]; subst; clear H4.
  apply Matches_consumes in H5 as (w2 & _ & R2 & _).
  inversion H6 as [| | | |r1 r2 s0 s4 s5 H7 H8| | | | | | | | | |]; subst; clear H6.
  apply Matches_consumes in H7 as (wn & Ln & R3 & _).
  inversion H8 as [| | | |r1 r2 s0 s5 s6 H9 H10| | | | | | | | | |]; subst; clear H8.
  apply Matches_consumes in H9 as (wp & Lp & R4 & _).
  inversion H10 as [| | | | | | | | | | | | |s0 Hend|]; subst; clear H10.
  inversion Lp as [|c a Ha| | | | | | | | | | | | |]; subst; clear Lp.
  apply percent_only in Ha as ->.
  exists (w1 +:+ w2), wn. split; [|by apply (Lang_number flag_i)].
  rewrite R1, R2, R3, R4, Hend. by rewrite !append_assoc.
Qed.

Lemma accepted_endsWithPercentage (text : string) :
  acceptable (linesOf text) = true -> endsWithPercentage (trim text).
Proof.
  unfold linesOf. intros H.
  pose proof (join_split (trim text)) as Hj.
  destruct (split LF (trim text)) as [|l0 [|l1 [|l2 [|l3 ls]]]]; try done.
  cbn [List.map acceptable] in H.
  apply andb_prop in H as [_ H2].
  apply confidenceLine_accepts in H2 as (before & ds & Hl2 & Hn).
  change (join nl [l0; l1; l2]) with (l0 +:+ nl +:+ l1 +:+ nl +:+ l2) in Hj.
  assert (Hne : trim l2 <> EmptyString).
  { rewrite Hl2. intros E. apply append_empty in E. apply append_empty in E. done. }
  assert (Hl2ne : l2 <> EmptyString) by (intros ->; by apply Hne).
  assert (Hclean : endsClean l2).
  { apply (endsClean_suffix (l0 +:+ nl +:+ l1 +:+ nl) l2 Hl2ne).
    rewrite !append_assoc. rewrite Hj. apply endsClean_trim.
    rewrite <- Hj. by destruct l0. }
  destruct (trimStart_suffix l2) as [lead Hlead].
  assert (Hts : trimStart l2 <> EmptyString).
  { intros E. apply Hne. unfold trim. by rewrite E. }
  assert (Htrim : trim l2 = trimStart l2).
  { unfold trim. rewrite Hlead in Hclean.
    by destruct (endsClean_suffix lead (trimStart l2) Hts Hclean) as [_ ?]. }
  exists (l0 +:+ nl +:+ l1 +:+ nl +:+ lead +:+ before), ds. split; [|done].
  rewrite <- Hj. rewrite Hlead at 1. rewrite <- Htrim, Hl2.
  by rewrite !append_assoc.
Qed.

Lemma noAnswer_endsWithPercentage (q : string) : endsWithPercentage (noAnswer q).
Proof.
  exists ("Explanation: The research could not find a definitive answer to: "
            +:+ dq +:+ q +:+ dq +:+ "." +:+ nl +:+ "Exact Answer: Unknown" +:+ nl
            +:+ "Confidence: "), "10".
  split; [|by split; [|cbn; lia]].
  unfold noAnswer. by rewrite !append_assoc.
Qed.

Lemma ensureValid_endsWithPercentage (text q : string) :
  endsWithPercentage (ensureValidBrowseCompFormat text q).
Proof.
  unfold ensureValidBrowseCompFormat.
  destruct (negb (nonEmpty text)); [apply noAnswer_endsWithPercentage|].
  destruct (acceptable (linesOf text)) eqn:Ha; [by apply accepted_endsWithPercentage|].
  destruct (_ || _); [|apply noAnswer_endsWithPercentage].
  destruct (salvaged_confidence text) as [->|(ds & -> & Hn)].
  - eexists _, "30". split; [|by split; [|cbn; lia]].
    change (labelled "Confidence:" "confidence:" (orElse EmptyString "30%"))
      with ("Confidence: " +:+ "30" +:+ "%").
    rewrite <- !append_assoc. reflexivity.
  - destruct (shortNumber_percent_clean ds Hn) as (_ & Hne & Hlab).
    unfold orElse at 3. rewrite Hne, Hlab.
    eexists _, ds. split; [|done].
    rewrite <- !append_assoc. reflexivity.
Qed.

End PatternFacts.

Section AnswerFacts.
Import JS Regex RegexSpec Async Formatter Loop Handler.


End AnswerFacts.

(** ** The fallback query is never empty *)

Section MatchAllFacts.
Import JS Regex RegexSpec.

Lemma Lang_minLen (fl : flags) (r : regex) (w : string) :
  Lang fl r w -> minLen r <= String.length w.
Proof.
  induction 1 as [| | | |r1 r2 w1 w2 H1 IH1 H2 IH2|r1 r2 w H IH|r1 r2 w H IH
                  |mx g r0|mn g r0|mn mx g r0 w1 w2 Hmax H1 IH1 H2 IH2
                  |i r0 w H IH| | | |]; cbn [minLen String.length]; try lia.
  - rewrite length_append. lia.
  - destruct mx; cbn; lia.
  - rewrite length_append. cbn [minLen] in IH2.
    destruct mx as [[|m]|]; [done| |]; cbn [pred_max Nat.pred] in IH2; destruct mn; nia.
Qed.

Lemma positioned_next (input : string) (st : mstate) (a : ascii) (s' : string) :
  positioned input st -> rest st = String a s' ->
  s' = substring_from (S (pos st)) input /\ S (pos st) <= String.length input.
Proof.
  intros [Hr Hp] Hs.
  assert (Hlen : String.length (rest st) = String.length input - pos st)
    by (rewrite Hr; apply substring_from_length).
  rewrite Hs in Hlen. cbn [String.length] in Hlen. split; [|lia].
  replace (S (pos st)) with (pos st + 1) by lia.
  by rewrite substring_from_add, <- Hr, Hs.
Qed.

(** Every match of a global search is a match of the pattern at a
    position of the input. *)
Lemma matchAll_from_sound (fl : flags) (r : regex) (input : string) (fuel : nat) :
  forall (pv : option ascii) (p : nat) (s : string),
    s = substring_from p input -> p <= String.length input ->
    Forall (fun m => Lang fl r (m_text m))
           (matchAll_from fl r input fuel pv p s).
Proof.
  induction fuel as [|fuel IH]; intros pv p s Hs Hp; cbn [matchAll_from]; [constructor|].
  destruct (search_from fl r pv p s) as [[b e]|] eqn:E; [|constructor].
  apply (search_from_sound fl input) in E as (Hb & _ & _ & Hm); [|done|done].
  destruct (Matches_positioned fl input r b e Hb Hm) as (He & HL & _).
  destruct (pos e =? pos b).
  - destruct (rest e) as [|a s'] eqn:Er; [by repeat constructor|].
    constructor; [done|].
    destruct (positioned_next input e a s' He Er) as [H1 H2]. by apply IH.
  - constructor; [done|]. destruct He as [H1 H2]. by apply IH.
Qed.

Lemma matchAll_sound (fl : flags) (r : regex) (s : string) :
  Forall (fun m => Lang fl r (m_text m)) (matchAll fl r s).
Proof.
  unfold matchAll. apply matchAll_from_sound; [by destruct s|lia].
Qed.

Lemma match_g_sound (fl : flags) (r : regex) (s : string) (ts : list string) :
  match_g fl r s = Some ts -> ts <> [] /\ Forall (Lang fl r) ts.
Proof.
  unfold match_g. pose proof (matchAll_sound fl r s) as H.
  destruct (matchAll fl r s) as [|m ms]; [done|]. intros [= <-].
  split; [done|]. change (Forall (Lang fl r) (List.map m_text (m :: ms))).
  induction H as [|x l Hx Hl IH]; cbn [List.map]; by constructor.
Qed.

(** The global matches of the pattern of one code unit are its
    occurrences. *)
Lemma matchAll_from_chr (input : string) (c : ascii) (s : string) :
  forall (fuel : nat) (pv : option ascii) (p : nat),
    String.length s < fuel ->
    matchAll_from no_flags (Chr c) input fuel pv p s = hitsFrom input c p s.
Proof.
  induction s as [|a s IH]; intros fuel pv p Hf; (destruct fuel as [|fuel]; [cbn in Hf; lia|]).
  - reflexivity.
  - cbn [String.length] in Hf. cbn [hitsFrom matchAll_from search_from].
    unfold match_here. cbn [rmatch]. unfold step_char. cbn [rest with_caps].
    unfold chr_eq. cbn [ignoreCase no_flags].
    destruct (Ascii.eqb a c) eqn:Ea.
    + cbn [pos advance with_caps prev rest]. 
      assert ((S p =? p) = false) as -> by (apply Nat.eqb_neq; lia).
      f_equal. apply IH. lia.
    + rewrite <- (IH (S fuel) (Some a) (S p)) by lia.
      reflexivity.
Qed.

Lemma substring_to_all (s : string) : substring_to (String.length s) s = s.
Proof. induction s as [|c s IH]; [done|]. cbn. by rewrite IH. Qed.

Lemma substring_to_snoc (k : nat) (t : string) (a : ascii) (s' : string) :
  substring_from k t = String a s' ->
  substring_to (S k) t = substring_to k t +:+ String a EmptyString.
Proof.
  revert t. induction k as [|k IH]; intros t H.
  - destruct t as [|b t]; [done|]. cbn in H. injection H as -> ->. by destruct s'.
  - destruct t as [|b t]; [done|]. cbn [substring_from] in H.
    change (String b (substring_to (S k) t)
            = String b (substring_to k t +:+ String a EmptyString)).
    by rewrite (IH t H).
Qed.

Lemma substring_snoc (input : string) (p q : nat) (a : ascii) (s' : string) :
  p <= q -> substring_from q input = String a s' ->
  substring p (S q) input = substring p q input +:+ String a EmptyString.
Proof.
  intros Hpq H. unfold substring.
  replace (S q - p) with (S (q - p)) by lia.
  apply (substring_to_snoc _ _ a s').
  rewrite <- substring_from_add. by replace (p + (q - p)) with q by lia.
Qed.

Lemma replace_hits (input : string) (c : ascii) (s : string) :
  forall (p q : nat),
    s = substring_from q input -> p <= q -> q <= String.length input ->
    replace_matches input (hitsFrom input c q s) p EmptyString
    = substring p q input +:+ removeAll c s.
Proof.
  induction s as [|a s IH]; intros p q Hs Hpq Hq; cbn [hitsFrom removeAll replace_matches].
  - rewrite append_nil_r. unfold substring.
    assert (Hlen : String.length (substring_from q input) = String.length input - q)
      by apply substring_from_length.
    rewrite <- Hs in Hlen. cbn in Hlen.
    assert (q - p = String.length (substring_from p input)) as ->
      by (rewrite substring_from_length; lia).
    by rewrite substring_to_all.
  - assert (Hnext : s = substring_from (S q) input /\ S q <= String.length input).
    { apply (positioned_next input {| prev := None; pos := q; rest := String a s;
                                      caps := [] |} a s); [by split|done]. }
    destruct Hnext as [Hs' Hq'].
    destruct (Ascii.eqb a c) eqn:Ea.
    + cbn [replace_matches m_index m_end].
      rewrite (IH (S q) (S q) Hs' (le_n _) Hq').
      unfold substring at 2. rewrite Nat.sub_diag. cbn [substring_to].
      by destruct (substring_from (S q) input).
    + rewrite (IH p (S q) Hs'); [|lia|done].
      rewrite (substring_snoc input p q a s Hpq (eq_sym Hs)).
      by rewrite append_assoc.
Qed.

(** Replacing every occurrence of a code unit by the empty text removes
    that code unit. *)
Lemma replaceAll_chr (c : ascii) (s : string) :
  replaceAll no_flags (Chr c) EmptyString s = removeAll c s.
Proof.
  unfold replaceAll, matchAll. rewrite matchAll_from_chr by lia.
  rewrite (replace_hits s c s 0 0); [|by destruct s|done|lia].
  unfold substring. by destruct s.
Qed.

End MatchAllFacts.

Section FallbackQueryFacts.
Import JS Regex RegexSpec Terms.

Lemma Lang_nonempty (fl : flags) (r : regex) (w : string) :
  1 <= minLen r -> Lang fl r w -> w <> EmptyString.
Proof.
  intros Hm HL ->. apply Lang_minLen in HL. cbn in HL. lia.
Qed.

(** A quoted phrase without its quotes is not empty. *)
Lemma quoted_phrase (q : string) :
  Lang no_flags quotesRe q -> replaceAll no_flags quoteRe EmptyString q <> EmptyString.
Proof.
  intros H. unfold quoteRe. rewrite replaceAll_chr. unfold quotesRe in H.
  inversion H as [| | | |r1 r2 w1 w2 A B| | | | | | | | | |]; subst; clear H.
  inversion A as [|c a Ha| | | | | | | | | | | | |]; subst; clear A.
  inversion B as [| | | |r1 r2 w1 w3 C D| | | | | | | | | |]; subst; clear B.
  inversion C as [| | | | | | | | | |i r w0 E| | | |]; subst; clear C.
  destruct (Lang_rep_cls no_flags true true (fun c => code c =? 34) _ _ E 1 None eq_refl)
    as (E1 & E2 & _); [done|].
  destruct w1 as [|x w1]; [cbn in E2; lia|].
  cbn [allOf] in E1. apply andb_prop in E1 as [Hx _].
  unfold chr_eq in Ha. cbn [ignoreCase no_flags] in Ha. apply Ascii.eqb_eq in Ha as ->.
  change (String DQ EmptyString +:+ String x w1 +:+ w3)
    with (String DQ (String x (w1 +:+ w3))).
  cbn [removeAll]. rewrite Ascii.eqb_refl.
  assert (Ascii.eqb x DQ = false) as ->; [|done].
  apply Ascii.eqb_neq. intros ->. by vm_compute in Hx.
Qed.

Lemma join_nonempty (sep x : string) (l : list string) :
  x <> EmptyString -> join sep (x :: l) <> EmptyString.
Proof. destruct x; [done|]. by destruct l. Qed.

Lemma Forall_nonempty_filter (f : string -> bool) (l : list string) :
  Forall (fun x => x <> EmptyString) l ->
  Forall (fun x => x <> EmptyString) (List.filter f l).
Proof. intros H. eapply Forall_sublist; [apply filter_sublist|done]. Qed.

Lemma match_g_nonempty (fl : flags) (r : regex) (s : string) :
  1 <= minLen r ->
  Forall (fun x => x <> EmptyString) (orEmpty (match_g fl r s)).
Proof.
  intros Hm. destruct (match_g fl r s) as [ts|] eqn:E; [|constructor].
  apply match_g_sound in E as [_ H]. cbn.
  eapply Forall_impl; [exact H|]. intros w. by apply Lang_nonempty.
Qed.

(** X22.  The fallback query is never the empty text: it is made of
    entities of the question, each of which is not empty, or of words of
    more than four letters, or it is the text [search query]. *)
Theorem X22_fallback_query_is_never_empty (question : string) :
  generateFallbackQuery question <> EmptyString.
Proof.
  unfold generateFallbackQuery.
  set (Q := match match_g no_flags quotesRe question with
            | Some qs => List.map (replaceAll no_flags quoteRe EmptyString) qs
            | None => []
            end).
  set (f := fun c : string =>
              negb (includes (toLowerCase c) "explanation") &&
              negb (includes (toLowerCase c) "answer") &&
              negb (includes (toLowerCase c) "confidence") &&
              negb (includes (toLowerCase c) "exact")).
  set (C := List.filter f (orEmpty (match_g no_flags capsRe question))).
  set (Y := orEmpty (match_g no_flags yearsRe question)).
  set (P := orEmpty (match_g no_flags percentagesRe question)).
  set (N := take 2 (orEmpty (match_g flag_i numbersRe question))).
  assert (HQ : Forall (fun x => x <> EmptyString) Q).
  { unfold Q. destruct (match_g no_flags quotesRe question) as [qs|] eqn:E; [|constructor].
    apply match_g_sound in E as [_ H].
    induction H as [|q qs Hq Hqs IH]; cbn [List.map]; constructor; [|done].
    by apply quoted_phrase. }
  assert (HC : Forall (fun x => x <> EmptyString) C).
  { apply Forall_nonempty_filter, match_g_nonempty. vm_compute. lia. }
  assert (HY : Forall (fun x => x <> EmptyString) Y).
  { apply match_g_nonempty. vm_compute. lia. }
  assert (HP : Forall (fun x => x <> EmptyString) P).
  { apply match_g_nonempty. vm_compute. lia. }
  assert (HN : Forall (fun x => x <> EmptyString) N).
  { eapply Forall_sublist; [apply sublist_take|]. apply match_g_nonempty.
    vm_compute. lia. }
  assert (HE : Forall (fun x => x <> EmptyString) ((((Q ++ C) ++ Y) ++ P) ++ N))
    by (repeat apply Forall_app_2; done).
  match goal with
  | |- (if 0 <? length ?ents then _ else _) <> _ =>
      assert (Hents : ents = (((Q ++ C) ++ Y) ++ P) ++ N)
  end.
  { unfold Q, C, Y, P, N, orEmpty.
    destruct (match_g no_flags quotesRe question),
             (match_g no_flags capsRe question),
             (match_g no_flags yearsRe question),
             (match_g no_flags percentagesRe question),
             (match_g flag_i numbersRe question);
      cbn [default app List.filter take]; rewrite ?app_nil_r; reflexivity. }
  rewrite Hents. clear Hents.
  destruct ((((Q ++ C) ++ Y) ++ P) ++ N) as [|x l] eqn:El.
  - cbn [length Nat.ltb Nat.leb]. unfold orElse.
    by destruct (nonEmpty _) eqn:En; [destruct (join _ _)|].
  - cbn [length]. change (0 <? S (length l)) with true. cbn iota.
    cbn [take]. apply join_nonempty. by inversion HE.
Qed.

End FallbackQueryFacts.

(** ** The generic-query test *)

Section GenericFacts.
Import JS Regex RegexSpec Terms.

Lemma digits_single_piece (s : string) :
  allOf isDigit s = true -> split " " s = [s].
Proof.
  induction s as [|c s IH]; [done|]. cbn [allOf split].
  intros [Hc Hs]%andb_prop. rewrite (IH Hs).
  assert (Ascii.eqb c " " = false) as ->; [|done].
  destruct c as [[] [] [] [] [] [] [] []]; vm_compute in Hc |- *;
    first [discriminate Hc | reflexivity].
Qed.

(** A text that [/^\d+$/] accepts is made of digits. *)
Lemma allDigitsRe_accepts (s : string) :
  test no_flags allDigitsRe s = true -> allOf isDigit s = true.
Proof.
  unfold test. destruct (search_from no_flags allDigitsRe None 0 s) as [[b e]|] eqn:E;
    [|done]. intros _.
  apply (search_from_sound no_flags s) in E as (Hb & _ & _ & Hm);
    [|by destruct s|lia].
  unfold allDigitsRe in Hm.
  inversion Hm as [| | | |r1 r2 s0 s1 s2 H1 H2| | | | | | | | | |]; subst; clear Hm.
  inversion H1 as [| | | | | | | | | | | |s0 Hpos| |]; subst; clear H1.
  destruct Hb as [Hrest _]. rewrite Hpos in Hrest.
  assert (Hs : rest s1 = s) by (rewrite Hrest; by destruct s). clear Hrest.
  inversion H2 as [| | | |r1 r2 s0 s2 s3 H3 H4| | | | | | | | | |]; subst; clear H2.
  apply Matches_consumes in H3 as (w & Lw & R & _).
  inversion H4 as [| | | | | | | | | | | | |s0 Hend|]; subst; clear H4.
  rewrite R, Hend, append_nil_r.
  destruct (Lang_rep_cls no_flags true false isDigit _ _ Lw 1 None eq_refl)
    as (A & _ & _); [done|].
  exact A.
Qed.

(** X23.  A query is generic exactly when its trimmed text is accepted by
    the pattern of the eight generic words or it has fewer than three
    pieces between single spaces; the test for a text of digits never
    decides, since such a text has one piece.  In particular every query of
    one or two words is generic. *)
Theorem X23_generic_means_short_or_a_generic_word (query : string) :
  isGeneric query
  = test flag_i genericRe (trim query) || (length (split " " query) <? 3).
Proof.
  unfold isGeneric.
  destruct (test no_flags allDigitsRe query) eqn:E; [|by rewrite orb_false_r].
  apply allDigitsRe_accepts, digits_single_piece in E. rewrite E.
  cbn [length Nat.ltb Nat.leb]. by rewrite !orb_true_r.
Qed.

End GenericFacts.

(** ** What each tier of the analysis parser returns *)

Section TierFacts.
Import JS Regex Async Json State Terms Analysis Shape.

Lemma settleBlock_salvaged (inner : string) (v : JValue) :
  settleBlock inner = Some v ->
  exists parsed, JSON_parse inner = Some parsed /\
                 salvagedFrom (hasKey "summary") parsed v.
Proof.
  unfold settleBlock. destruct (JSON_parse inner) as [parsed|]; [|done].
  intros H. exists parsed. split; [done|]. unfold salvagedFrom.
  destruct parsed as [|b|n|s|items|fields]; cbn in H |- *; try done.
  destruct (lookup_field "analysis" fields) as [a|]; cbn in H |- *.
  - destruct (truthy a); [by injection H as <-|].
    destruct (bool_decide _) eqn:E; [by injection H as <-|done].
  - destruct (bool_decide _) eqn:E; [by injection H as <-|done].
Qed.

Lemma settleObject_salvaged (jsonMatch : string) (v : JValue) :
  settleObject jsonMatch = Some v ->
  exists parsed, JSON_parse jsonMatch = Some parsed /\
    salvagedFrom (fun p => hasKey "summary" p || hasKey "shouldContinue" p) parsed v.
Proof.
  unfold settleObject. destruct (JSON_parse jsonMatch) as [parsed|]; [|done].
  intros H. exists parsed. split; [done|]. unfold salvagedFrom.
  destruct parsed as [|b|n|s|items|fields]; cbn in H |- *; try done.
  destruct (lookup_field "analysis" fields) as [a|]; cbn in H |- *.
  - destruct (truthy a); [by injection H as <-|].
    destruct (_ || _) eqn:E; [by injection H as <-|done].
  - destruct (_ || _) eqn:E; [by injection H as <-|done].
Qed.


End TierFacts.

(** ** The final check of the handler *)

Section FinalCheckFacts.
Import JS Regex Formatter Loop.

(** X25.  The formatter accepts the three labels in any letter case, but
    the final check of the handler looks for [Exact Answer:] in that exact
    case: an answer that the formatter accepts as it is, and that does not
    contain [Exact Answer:] with these capitals, is replaced by the fallback
    with [Unknown] and a confidence of 0%. *)
Theorem X25_final_check_is_case_sensitive (finalText lastUserMessage : string) :
  acceptable (linesOf finalText) = true ->
  includes (trim finalText) "Exact Answer:" = false ->
  Formatter.ensureValidBrowseCompFormat finalText lastUserMessage = trim finalText /\
  responseContent finalText lastUserMessage = hardFallback.
Proof.
  intros Ha Hi.
  assert (E : Formatter.ensureValidBrowseCompFormat finalText lastUserMessage
              = trim finalText).
  { unfold Formatter.ensureValidBrowseCompFormat.
    rewrite (acceptable_nonEmpty finalText Ha). cbn [negb]. by rewrite Ha. }
  split; [exact E|]. unfold responseContent. by rewrite E, Hi.
Qed.

Lemma X25_final_check_is_case_sensitive_witness :
  acceptable (linesOf ("explanation: Ann founded Acme." +:+ nl +:+
                       "exact answer: Ann" +:+ nl +:+ "confidence: 90%")) = true /\
  includes (trim ("explanation: Ann founded Acme." +:+ nl +:+
                  "exact answer: Ann" +:+ nl +:+ "confidence: 90%"))
           "Exact Answer:" = false /\
  responseContent ("explanation: Ann founded Acme." +:+ nl +:+
                   "exact answer: Ann" +:+ nl +:+ "confidence: 90%")
                  "Who founded Acme?" = hardFallback.
Proof.
  assert (Ha : acceptable (linesOf ("explanation: Ann founded Acme." +:+ nl +:+
                 "exact answer: Ann" +:+ nl +:+ "confidence: 90%")) = true)
    by (vm_compute; reflexivity).
  assert (Hi : includes (trim ("explanation: Ann founded Acme." +:+ nl +:+
                 "exact answer: Ann" +:+ nl +:+ "confidence: 90%"))
                 "Exact Answer:" = false)
    by (vm_compute; reflexivity).
  split; [exact Ha|]. split; [exact Hi|].
  exact (proj2 (X25_final_check_is_case_sensitive
                  ("explanation: Ann founded Acme." +:+ nl +:+
                   "exact answer: Ann" +:+ nl +:+ "confidence: 90%")
                  "Who founded Acme?" Ha Hi)).
Defined.

End FinalCheckFacts.
